(** * minidb: storage engine, MVCC, ARIES recovery and B-tree keys

    A shallow embedding of the Go sources of minidb (pkg/types,
    internal/wal, internal/txn, internal/storage, internal/index,
    internal/sql, internal/engine) and the properties of the engine
    specification that were checked against it.

    Conventions of the embedding:
    - unsigned Go integers (TxnID, LSN: uint64; PageID: uint32; slot
      numbers and offsets: uint16) are values of [Z]; wherever the source
      does arithmetic that can wrap, the reduction modulo 2^w is written out;
    - a byte is a [Z] in [0, 256); a [[]byte] is a [list Z];
    - Go maps are stdpp [gmap]s; reading a missing key yields the zero value;
    - pointers to shared objects (pages in the buffer pool, transactions in
      the manager) are modelled by the store that owns them;
    - file-system calls are assumed to succeed, their effect on the durable
      state is modelled explicitly. *)

From Stdlib Require Import ZArith List Bool Lia.
From stdpp Require Import base option list sorting gmap.

Local Open Scope Z_scope.

(** ** pkg/types *)
Module types.

Definition PageSize : Z := 4096.
Definition InvalidPageID : Z := 4294967295.
Definition InvalidTxnID : Z := 0.
Definition InvalidLSN : Z := 0.
Definition MaxTxnID : Z := 2 ^ 64 - 1.

Inductive TxnStatus := TxnStatusRunning | TxnStatusCommitted | TxnStatusAborted.

Inductive LogRecordType :=
| LogRecordBegin
| LogRecordCommit
| LogRecordAbort
| LogRecordUpdate
| LogRecordInsert
| LogRecordDelete
| LogRecordCheckpoint
| LogRecordCLR.

#[global] Instance LogRecordType_eq_dec : EqDecision LogRecordType.
Proof. solve_decision. Defined.

(** Tuple: a row version with its MVCC header. *)
Record Tuple := mkTuple {
  XMin : Z;
  XMax : Z;
  Cid : Z;
  TableID : Z;
  RowID : Z;
  Data : list Z
}.

(** IsDeleted: XMax != InvalidTxnID. *)
Definition IsDeleted (t : Tuple) : bool := negb (XMax t =? InvalidTxnID).


Inductive ValueType := ValueTypeNull | ValueTypeInt | ValueTypeString | ValueTypeBool.

(** Value: IntVal is an int64, StrVal the bytes of the string. *)
Record Value := mkValue {
  Type_ : ValueType;
  IsNull : bool;
  IntVal : Z;
  StrVal : list Z;
  BoolVal : bool
}.

End types.
(** ** internal/wal: log records and the log writer *)
Module wal.
Import types.

Record LogRecord := mkLogRecord {
  LSN : Z;
  PrevLSN : Z;
  TxnID : Z;
  Type_ : LogRecordType;
  TableID : Z;
  RowID : Z;
  PageID : Z;
  SlotNum : Z;
  BeforeImage : list Z;
  AfterImage : list Z;
  ActiveTxns : list Z;
  DirtyPages : gmap Z Z;
  UndoNextLSN : Z
}.

Definition logRecordHeaderSize : Z := 51.
Definition walBufferSize : Z := 64 * 1024.

(** len(r.Serialize()): header, both images, the checkpoint block with its
    length prefix, the undo-next LSN of a CLR. *)
Definition serializedLen (r : LogRecord) : Z :=
  logRecordHeaderSize + Z.of_nat (length (BeforeImage r)) + Z.of_nat (length (AfterImage r))
  + (if decide (Type_ r = LogRecordCheckpoint)
     then 4 + (4 + Z.of_nat (length (ActiveTxns r)) * 8 + 4 + Z.of_nat (size (DirtyPages r)) * 12)
     else 0)
  + (if decide (Type_ r = LogRecordCLR) then 8 else 0).

(** Writer.  [buffer] holds the records appended since the last flush
    (the source keeps their length-prefixed serialisation), [file] the
    records that were written and synced. *)
Record Writer := mkWriter {
  currentLSN : Z;
  flushedLSN : Z;
  buffer : list LogRecord;
  bufferLSN : Z;
  txnLastLSN : gmap Z Z;
  maxTxnID : Z;
  file : list LogRecord
}.

(** NewWriter on a path that does not exist yet. *)
Definition NewWriter : Writer :=
  {| currentLSN := 1; flushedLSN := 0; buffer := []; bufferLSN := 0;
     txnLastLSN := ∅; maxTxnID := 0; file := [] |}.

Definition bufferLen (b : list LogRecord) : Z :=
  foldr (fun r n => 4 + serializedLen r + n) 0 b.

Definition flushLocked (w : Writer) : Writer :=
  match buffer w with
  | [] => w
  | _ =>
    {| currentLSN := currentLSN w;
       flushedLSN := (currentLSN w - 1) mod 2 ^ 64;
       buffer := [];
       bufferLSN := bufferLSN w;
       txnLastLSN := txnLastLSN w;
       maxTxnID := maxTxnID w;
       file := file w ++ buffer w |}
  end.

(** Append assigns the LSN and the PrevLSN, buffers the record and
    flushes when the buffer reached walBufferSize bytes. *)
Definition Append (w : Writer) (record : LogRecord) : Writer * Z :=
  let lsn := currentLSN w in
  let prev := default InvalidLSN (txnLastLSN w !! TxnID record) in
  let record' :=
    {| LSN := lsn; PrevLSN := prev; TxnID := TxnID record; Type_ := Type_ record;
       TableID := TableID record; RowID := RowID record; PageID := PageID record;
       SlotNum := SlotNum record; BeforeImage := BeforeImage record;
       AfterImage := AfterImage record; ActiveTxns := ActiveTxns record;
       DirtyPages := DirtyPages record; UndoNextLSN := UndoNextLSN record |} in
  let last :=
    if decide (Type_ record = LogRecordCheckpoint) then txnLastLSN w
    else <[TxnID record := lsn]> (txnLastLSN w) in
  let w1 :=
    {| currentLSN := (lsn + 1) mod 2 ^ 64;
       flushedLSN := flushedLSN w;
       buffer := buffer w ++ [record'];
       bufferLSN := (match buffer w with [] => lsn | _ => bufferLSN w end);
       txnLastLSN := last;
       maxTxnID := maxTxnID w;
       file := file w |} in
  ((if walBufferSize <=? bufferLen (buffer w1) then flushLocked w1 else w1), lsn).

(** Force(lsn): flush unless lsn is already covered by flushedLSN. *)
Definition Force (w : Writer) (lsn : Z) : Writer :=
  if lsn <=? flushedLSN w then w else flushLocked w.

Definition Flush (w : Writer) : Writer := flushLocked w.

Definition emptyRecord (txnID : Z) (ty : LogRecordType) : LogRecord :=
  {| LSN := 0; PrevLSN := 0; TxnID := txnID; Type_ := ty; TableID := 0; RowID := 0;
     PageID := 0; SlotNum := 0; BeforeImage := []; AfterImage := [];
     ActiveTxns := []; DirtyPages := ∅; UndoNextLSN := 0 |}.

Definition dropTxn (w : Writer) (txnID : Z) : Writer :=
  {| currentLSN := currentLSN w; flushedLSN := flushedLSN w; buffer := buffer w;
     bufferLSN := bufferLSN w; txnLastLSN := delete txnID (txnLastLSN w);
     maxTxnID := maxTxnID w; file := file w |}.

Definition LogBegin (w : Writer) (txnID : Z) : Writer * Z :=
  Append w (emptyRecord txnID LogRecordBegin).

Definition LogCommit (w : Writer) (txnID : Z) : Writer * Z :=
  let '(w1, lsn) := Append w (emptyRecord txnID LogRecordCommit) in
  (dropTxn (Force w1 lsn) txnID, lsn).

Definition LogAbort (w : Writer) (txnID : Z) : Writer * Z :=
  let '(w1, lsn) := Append w (emptyRecord txnID LogRecordAbort) in
  (dropTxn w1 txnID, lsn).

Definition GetFlushedLSN (w : Writer) : Z := flushedLSN w.
Definition GetCurrentLSN (w : Writer) : Z := currentLSN w.


(** *** recovery.go: the redo phase *)

Record TxnEntry := mkTxnEntry {
  EntryTxnID : Z;
  EntryStatus : TxnStatus;
  EntryLastLSN : Z;
  EntryUndoNext : Z
}.

Section recovery.
(** [S] is the state the callbacks act on (the engine's buffer pool and
    heaps).  A redo or undo callback returns the new state and whether its
    error is nil; the page-LSN callback returns the LSN it read and the
    state it left behind.  A nil callback is [None]. *)
Context {S : Type}.

Record RecoveryManager := mkRecoveryManager {
  activeTxnTable : gmap Z TxnEntry;
  dirtyPageTable : gmap Z Z;
  redoCallback : option (LogRecord → S → S * bool);
  undoCallback : option (LogRecord → S → S * bool);
  pageLSNCallback : option (Z → S → Z * S)
}.

(** The record kinds that redo considers. *)
Definition isDataRecord (t : LogRecordType) : bool :=
  match t with
  | LogRecordUpdate | LogRecordInsert | LogRecordDelete | LogRecordCLR => true
  | _ => false
  end.

(** Minimum RecLSN over the dirty page table, starting from ^uint64(0). *)
Definition minRecLSN (dpt : gmap Z Z) : Z :=
  foldl (fun m recLSN => if recLSN <? m then recLSN else m)
        (2 ^ 64 - 1) (map_to_list dpt).*2.

(** The chain of [continue] tests of the loop body: do we reach
    "Apply redo" for this record, and in which state (the page-LSN
    callback has run by then, if it was reached). *)
Definition redoCheck (rm : RecoveryManager) (minRec : Z) (record : LogRecord) (st : S)
  : bool * S :=
  if LSN record <? minRec then (false, st)
  else if negb (isDataRecord (Type_ record)) then (false, st)
  else
    match dirtyPageTable rm !! PageID record with
    | None => (false, st)
    | Some recLSN =>
      if LSN record <? recLSN then (false, st)
      else
        match pageLSNCallback rm with
        | Some cb =>
          let '(pageLSN, st1) := cb (PageID record) st in
          if LSN record <=? pageLSN then (false, st1) else (true, st1)
        | None => (true, st)
        end
    end.

(** The loop over the records of the log.  The first component lists the
    records the redo callback was invoked on (the "REDO:" lines printed),
    the last is false when a callback returned an error, which ends the
    phase. *)
Fixpoint redoLoop (rm : RecoveryManager) (minRec : Z) (records : list LogRecord) (st : S)
  : list LogRecord * S * bool :=
  match records with
  | [] => ([], st, true)
  | record :: rest =>
    let '(apply, st1) := redoCheck rm minRec record st in
    if apply then
      match redoCallback rm with
      | Some f =>
        let '(st2, ok) := f record st1 in
        if ok then
          let '(tr, st3, ok') := redoLoop rm minRec rest st2 in
          (record :: tr, st3, ok')
        else ([record], st2, false)
      | None => redoLoop rm minRec rest st1
      end
    else redoLoop rm minRec rest st1
  end.

(** redoPhase over the records read from the log file. *)
Definition redoPhase (rm : RecoveryManager) (records : list LogRecord) (st : S)
  : list LogRecord * S * bool :=
  if decide (size (dirtyPageTable rm) = 0%nat) then ([], st, true)
  else redoLoop rm (minRecLSN (dirtyPageTable rm)) records st.

(** The redo rule in the words of the specification: the record is
    data-mutating, its page is in the dirty page table, its LSN is at least
    the page's RecLSN and greater than the page's current LSN. *)
Definition spec_redo_applies (dpt : gmap Z Z) (pageLSN : Z) (record : LogRecord) : Prop :=
  isDataRecord (Type_ record) = true ∧
  ∃ recLSN, dpt !! PageID record = Some recLSN ∧
            recLSN <= LSN record ∧ pageLSN < LSN record.

#[global] Instance spec_redo_applies_dec dpt pageLSN record :
  Decision (spec_redo_applies dpt pageLSN record).
Proof.
  unfold spec_redo_applies.
  destruct (dpt !! PageID record) as [recLSN|].
  - destruct (decide (isDataRecord (Type_ record) = true ∧
                      recLSN <= LSN record ∧ pageLSN < LSN record)) as [H|H].
    + left. destruct H as (? & ? & ?). eauto.
    + right. intros (? & r & [= <-] & ? & ?). tauto.
  - right. intros (_ & r & [=] & _).
Defined.

End recovery.
Arguments RecoveryManager : clear implicits.

End wal.

(** ** internal/txn: snapshots and the transaction manager *)
Module txn.
Import types.

(** Snapshot.  ActiveTxns is a Go [map[TxnID]bool] used as a set. *)
Record Snapshot := mkSnapshot {
  Xmin : Z;
  Xmax : Z;
  ActiveTxns : gmap Z bool
}.

(** [s.ActiveTxns[txnID]]: the stored flag, false for a missing key. *)
Definition activeFlag (s : Snapshot) (txnID : Z) : bool :=
  default false (ActiveTxns s !! txnID).

Definition isTxnVisible (s : Snapshot) (txnID : Z) : bool :=
  if txnID =? InvalidTxnID then false
  else if Xmax s <=? txnID then false
  else if activeFlag s txnID then false
  else true.

Definition IsVisible (s : Snapshot) (tuple : Tuple) : bool :=
  if negb (isTxnVisible s (XMin tuple)) then false
  else if XMax tuple =? InvalidTxnID then true
  else if isTxnVisible s (XMax tuple) then false
  else true.

(** IsVisibleForUpdate returns (visible, conflicting TxnID). *)
Definition IsVisibleForUpdate (s : Snapshot) (tuple : Tuple) (myTxnID : Z) : bool * Z :=
  if negb (IsVisible s tuple) then (false, InvalidTxnID)
  else if negb (XMax tuple =? InvalidTxnID) && negb (XMax tuple =? myTxnID)
          && (activeFlag s (XMax tuple) || (Xmax s <=? XMax tuple))
       then (false, XMax tuple)
       else (true, InvalidTxnID).

(** The visibility algebra in the words of the specification. *)
Definition active_set (s : Snapshot) : gset Z :=
  dom (filter (fun kv => kv.2 = true) (ActiveTxns s)).

Definition spec_txn_visible (s : Snapshot) (t : Z) : Prop :=
  t ≠ 0 ∧ t < Xmax s ∧ t ∉ active_set s.

Definition spec_tuple_visible (s : Snapshot) (T : Tuple) : Prop :=
  spec_txn_visible s (XMin T) ∧ (XMax T = 0 ∨ ¬ spec_txn_visible s (XMax T)).

Record Transaction := mkTransaction {
  ID : Z;
  Status : TxnStatus;
  StartTS : Z;
  Snapshot_ : Snapshot;
  CommandID : Z;
  LastLSN : Z
}.

(** Manager.  [walWriter] is [None] for a nil writer. *)
Record Manager := mkManager {
  nextTxnID : Z;
  activeTxns : gmap Z Transaction;
  walWriter : option wal.Writer;
  globalXmin : Z
}.

Definition NewManager (walWriter : option wal.Writer) : Manager :=
  {| nextTxnID := 1; activeTxns := ∅; walWriter := walWriter; globalXmin := MaxTxnID |}.

(** The ids visited by [for txnID := range m.activeTxns]. *)
Definition activeIDs (m : Manager) : list Z := (map_to_list (activeTxns m)).*1.

(** createSnapshotLocked: Xmax is the counter as it stands, the loop
    collects the running ids and their minimum. *)
Definition createSnapshotLocked (m : Manager) : Snapshot :=
  let snap0 := {| Xmin := MaxTxnID; Xmax := nextTxnID m; ActiveTxns := ∅ |} in
  let snap :=
    foldl (fun snap txnID =>
             {| Xmin := (if txnID <? Xmin snap then txnID else Xmin snap);
                Xmax := Xmax snap;
                ActiveTxns := <[txnID := true]> (ActiveTxns snap) |})
          snap0 (activeIDs m) in
  if Xmin snap =? MaxTxnID
  then {| Xmin := Xmax snap; Xmax := Xmax snap; ActiveTxns := ActiveTxns snap |}
  else snap.

Definition minActive (m : Manager) : Z :=
  foldl (fun g txnID => if txnID <? g then txnID else g) MaxTxnID (activeIDs m).

Definition updateGlobalXmin (m : Manager) : Manager :=
  {| nextTxnID := nextTxnID m; activeTxns := activeTxns m; walWriter := walWriter m;
     globalXmin := minActive m |}.

(** Begin.  atomic.AddUint64 returns the incremented counter, which is
    the id of the new transaction; the snapshot is taken after it. *)
Definition Begin (m : Manager) : Manager * Transaction :=
  let txnID := (nextTxnID m + 1) mod 2 ^ 64 in
  let m1 := {| nextTxnID := txnID; activeTxns := activeTxns m;
               walWriter := walWriter m; globalXmin := globalXmin m |} in
  let snapshot := createSnapshotLocked m1 in
  let '(w', lastLSN) :=
    match walWriter m1 with
    | Some w => let '(w1, lsn) := wal.LogBegin w txnID in (Some w1, lsn)
    | None => (None, 0)
    end in
  let txn := {| ID := txnID; Status := TxnStatusRunning; StartTS := txnID;
                Snapshot_ := snapshot; CommandID := 0; LastLSN := lastLSN |} in
  let m2 := updateGlobalXmin
              {| nextTxnID := txnID; activeTxns := <[txnID := txn]> (activeTxns m1);
                 walWriter := walWriter m1; globalXmin := globalXmin m1 |} in
  ({| nextTxnID := nextTxnID m2; activeTxns := activeTxns m2; walWriter := w';
      globalXmin := globalXmin m2 |}, txn).

Definition GetGlobalXmin (m : Manager) : Z := globalXmin m.

Definition SetNextTxnID (m : Manager) (id : Z) : Manager :=
  {| nextTxnID := id; activeTxns := activeTxns m; walWriter := walWriter m;
     globalXmin := globalXmin m |}.


Definition withStatus (t : Transaction) (st : TxnStatus) (lastLSN : Z) : Transaction :=
  {| ID := ID t; Status := st; StartTS := StartTS t; Snapshot_ := Snapshot_ t;
     CommandID := CommandID t; LastLSN := lastLSN |}.

#[global] Instance TxnStatus_eq_dec : EqDecision TxnStatus.
Proof. solve_decision. Defined.

(** Commit: [None] is the error for a transaction that is not running. *)
Definition Commit (m : Manager) (t : Transaction) : option (Manager * Transaction) :=
  if decide (Status t = TxnStatusRunning) then
    let '(w', lastLSN) :=
      match walWriter m with
      | Some w => let '(w1, lsn) := wal.LogCommit w (ID t) in (Some w1, lsn)
      | None => (None, LastLSN t)
      end in
    let m1 := updateGlobalXmin
                {| nextTxnID := nextTxnID m; activeTxns := delete (ID t) (activeTxns m);
                   walWriter := w'; globalXmin := globalXmin m |} in
    Some (m1, withStatus t TxnStatusCommitted lastLSN)
  else None.

Definition Rollback (m : Manager) (t : Transaction) : option (Manager * Transaction) :=
  if decide (Status t = TxnStatusRunning) then
    let '(w', lastLSN) :=
      match walWriter m with
      | Some w => let '(w1, lsn) := wal.LogAbort w (ID t) in (Some w1, lsn)
      | None => (None, LastLSN t)
      end in
    let m1 := updateGlobalXmin
                {| nextTxnID := nextTxnID m; activeTxns := delete (ID t) (activeTxns m);
                   walWriter := w'; globalXmin := globalXmin m |} in
    Some (m1, withStatus t TxnStatusAborted lastLSN)
  else None.

(** NextCommandID increments the counter (uint32) and returns it. *)
Definition NextCommandID (t : Transaction) : Transaction * Z :=
  let cid := (CommandID t + 1) mod 2 ^ 32 in
  ({| ID := ID t; Status := Status t; StartTS := StartTS t; Snapshot_ := Snapshot_ t;
      CommandID := cid; LastLSN := LastLSN t |}, cid).

(** Modelled from the spec: the manager's known-committed set with
    IsTxnCommitted and PruneCommittedBefore.  The engine's Vacuum and the
    manager's tests call them, their definitions are not among the sources.
    The specification says: commit records the TxnID in a known-committed
    set, rollback does not, vacuum consults the set, and entries older than
    global-xmin may be pruned. *)
Record TrackedManager := mkTracked {
  manager : Manager;
  committedTxns : gset Z
}.

(** Modelled from the spec: membership in the known-committed set. *)
Definition IsTxnCommitted (m : TrackedManager) (txnID : Z) : bool :=
  bool_decide (txnID ∈ committedTxns m).



(** Modelled from the spec: drop the entries below the cutoff. *)
Definition PruneCommittedBefore (m : TrackedManager) (cutoff : Z) : TrackedManager :=
  {| manager := manager m;
     committedTxns := filter (fun id => cutoff <= id) (committedTxns m) |}.

End txn.

(** ** encoding/binary and slices over byte lists *)
Module bytes.

(** Little-endian digits of [v], [n] of them, and the value of a digit list. *)
Fixpoint leBytes (n : nat) (v : Z) : list Z :=
  match n with
  | O => []
  | S k => v mod 256 :: leBytes k (v / 256)
  end.

Fixpoint leValue (bs : list Z) : Z :=
  match bs with
  | [] => 0
  | b :: r => b + 256 * leValue r
  end.

(** [d[off : off+n]] and the in-place write [copy(d[off:], src)] for a
    source that fits. *)
Definition readAt (d : list Z) (off : Z) (n : nat) : list Z :=
  take n (drop (Z.to_nat off) d).

Definition writeAt (d : list Z) (off : Z) (src : list Z) : list Z :=
  take (Z.to_nat off) d ++ src ++ drop (Z.to_nat off + length src) d.

(** [copy(d[off:], src)]: copies what fits into the rest of [d]. *)
Definition copyAt (d : list Z) (off : Z) (src : list Z) : list Z :=
  writeAt d off (take (length d - Z.to_nat off) src).

Definition PutUint16 (d : list Z) (off v : Z) : list Z := writeAt d off (leBytes 2 v).
Definition PutUint32 (d : list Z) (off v : Z) : list Z := writeAt d off (leBytes 4 v).
Definition PutUint64 (d : list Z) (off v : Z) : list Z := writeAt d off (leBytes 8 v).
Definition Uint16 (d : list Z) (off : Z) : Z := leValue (readAt d off 2).
Definition Uint32 (d : list Z) (off : Z) : Z := leValue (readAt d off 4).
Definition Uint64 (d : list Z) (off : Z) : Z := leValue (readAt d off 8).

(** Big-endian digits of [v], [n] of them, most significant first
    (binary.BigEndian). *)
Fixpoint beBytes (n : nat) (v : Z) : list Z :=
  match n with
  | O => []
  | S k => (v / 256 ^ Z.of_nat k) mod 256 :: beBytes k v
  end.

(** bytes.Compare: -1, 0 or 1 by lexicographic order, a proper prefix
    being smaller. *)
Fixpoint Compare (a b : list Z) : Z :=
  match a, b with
  | [], [] => 0
  | [], _ :: _ => -1
  | _ :: _, [] => 1
  | x :: a', y :: b' =>
    if x <? y then -1 else if y <? x then 1 else Compare a' b'
  end.

End bytes.

(** ** internal/storage: slotted pages *)
Module storage.
Import types bytes.

Definition PageSize : Z := 4096.
Definition PageHeaderSize : Z := 28.
Definition PageTypeData : Z := 1.
Definition PageTypeBTree : Z := 2.
Definition PageTypeCatalog : Z := 3.
Definition slotSize : Z := 4.

Inductive error := ErrPageFull | ErrSlotNotFound | ErrOther.

(** Outcome of a call: a value, a returned error, or a run-time panic
    (an index or slice bound out of range). *)
Inductive result (A : Type) :=
| Ok (a : A)
| Err (e : error)
| Panic.
Arguments Ok {A} a.
Arguments Err {A} e.
Arguments Panic {A}.

Record Page := mkPage {
  ID : Z;
  Type_ : Z;
  LSN : Z;
  NextPageID : Z;
  IsDirty : bool;
  PinCount : Z;
  Data : list Z
}.

Definition withData (p : Page) (d : list Z) : Page :=
  {| ID := ID p; Type_ := Type_ p; LSN := LSN p; NextPageID := NextPageID p;
     IsDirty := IsDirty p; PinCount := PinCount p; Data := d |}.

Definition withDirty (p : Page) (b : bool) : Page :=
  {| ID := ID p; Type_ := Type_ p; LSN := LSN p; NextPageID := NextPageID p;
     IsDirty := b; PinCount := PinCount p; Data := Data p |}.

Definition withPin (p : Page) (n : Z) : Page :=
  {| ID := ID p; Type_ := Type_ p; LSN := LSN p; NextPageID := NextPageID p;
     IsDirty := IsDirty p; PinCount := n; Data := Data p |}.

(** init: zero the page, then write the header. *)
Definition init (p : Page) : Page :=
  let d0 := replicate (Z.to_nat PageSize) 0 in
  let d1 := PutUint32 d0 0 (ID p) in
  let d2 := writeAt d1 4 [Type_ p] in
  let d3 := PutUint64 d2 8 (LSN p) in
  let d4 := PutUint16 d3 16 0 in
  let d5 := PutUint16 d4 18 PageHeaderSize in
  let d6 := PutUint16 d5 20 PageSize in
  let d7 := PutUint32 d6 22 InvalidPageID in
  {| ID := ID p; Type_ := Type_ p; LSN := LSN p; NextPageID := InvalidPageID;
     IsDirty := IsDirty p; PinCount := PinCount p; Data := d7 |}.

Definition NewPage (id pageType : Z) : Page :=
  init {| ID := id; Type_ := pageType; LSN := 0; NextPageID := 0;
          IsDirty := false; PinCount := 0; Data := [] |}.

Definition GetSlotCount (p : Page) : Z := Uint16 (Data p) 16.
Definition setSlotCount (p : Page) (count : Z) : Page :=
  withData p (PutUint16 (Data p) 16 count).
Definition GetFreeSpaceOffset (p : Page) : Z := Uint16 (Data p) 18.
Definition setFreeSpaceOffset (p : Page) (offset : Z) : Page :=
  withData p (PutUint16 (Data p) 18 offset).
Definition GetFreeSpaceEnd (p : Page) : Z := Uint16 (Data p) 20.
Definition setFreeSpaceEnd (p : Page) (e : Z) : Page :=
  withData p (PutUint16 (Data p) 20 e).

Definition SetLSN (p : Page) (lsn : Z) : Page :=
  {| ID := ID p; Type_ := Type_ p; LSN := lsn; NextPageID := NextPageID p;
     IsDirty := IsDirty p; PinCount := PinCount p;
     Data := PutUint64 (Data p) 8 lsn |}.
Definition GetLSN (p : Page) : Z := Uint64 (Data p) 8.

Definition GetNextPageID (p : Page) : Z := Uint32 (Data p) 22.
Definition SetNextPageID (p : Page) (nextID : Z) : Page :=
  {| ID := ID p; Type_ := Type_ p; LSN := LSN p; NextPageID := nextID;
     IsDirty := true; PinCount := PinCount p;
     Data := PutUint32 (Data p) 22 nextID |}.

(** Slot [slotNum] lives at PageSize - (slotNum+1)*slotSize. *)
Definition slotPos (slotNum : Z) : Z := PageSize - (slotNum + 1) * slotSize.

Definition getSlot (p : Page) (slotNum : Z) : Z * Z :=
  (Uint16 (Data p) (slotPos slotNum), Uint16 (Data p) (slotPos slotNum + 2)).

Definition setSlot (p : Page) (slotNum offset length : Z) : Page :=
  withData p (PutUint16 (PutUint16 (Data p) (slotPos slotNum) offset)
                        (slotPos slotNum + 2) length).

Definition FreeSpace (p : Page) : Z :=
  GetFreeSpaceEnd p - GetFreeSpaceOffset p - slotSize.

(** InsertTuple.  The two bound checks are those of the Go run time: the
    slice [p.Data[newEnd:freeEnd]] and the slot position. *)
Definition InsertTuple (p : Page) (data : list Z) : result (Page * Z) :=
  let dataLen := Z.of_nat (length data) in
  if FreeSpace p <? dataLen then Err ErrPageFull
  else
    let freeEnd := GetFreeSpaceEnd p in
    let newEnd := (freeEnd - dataLen mod 2 ^ 16) mod 2 ^ 16 in
    let p1 := setFreeSpaceEnd p newEnd in
    if (PageSize <? freeEnd) || (freeEnd <? newEnd) then Panic
    else
      let p2 := withData p1 (writeAt (Data p1) newEnd
                                     (take (Z.to_nat (freeEnd - newEnd)) data)) in
      let slotNum := GetSlotCount p2 in
      if slotPos slotNum <? 0 then Panic
      else
        let p3 := setSlot p2 slotNum newEnd (dataLen mod 2 ^ 16) in
        let p4 := setSlotCount p3 ((slotNum + 1) mod 2 ^ 16) in
        Ok (withDirty p4 true, slotNum).

Definition GetTuple (p : Page) (slotNum : Z) : result (list Z) :=
  if GetSlotCount p <=? slotNum then Err ErrSlotNotFound
  else if slotPos slotNum <? 0 then Panic
  else
    let '(offset, length) := getSlot p slotNum in
    if length =? 0 then Err ErrSlotNotFound
    else if PageSize <? offset + length then Panic
    else Ok (readAt (Data p) offset (Z.to_nat length)).

Definition UpdateTuple (p : Page) (slotNum : Z) (data : list Z) : result Page :=
  if GetSlotCount p <=? slotNum then Err ErrSlotNotFound
  else if slotPos slotNum <? 0 then Panic
  else
    let '(offset, oldLen) := getSlot p slotNum in
    let newLen := Z.of_nat (length data) mod 2 ^ 16 in
    if newLen <=? oldLen then
      if PageSize <? offset then Panic
      else
        let p1 := withData p (copyAt (Data p) offset data) in
        Ok (withDirty (setSlot p1 slotNum offset newLen) true)
    else if FreeSpace p <? newLen then Err ErrPageFull
    else
      let p1 := setSlot p slotNum offset 0 in
      let freeEnd := GetFreeSpaceEnd p1 in
      let newEnd := (freeEnd - newLen) mod 2 ^ 16 in
      let p2 := setFreeSpaceEnd p1 newEnd in
      if (PageSize <? freeEnd) || (freeEnd <? newEnd) then Panic
      else
        let p3 := withData p2 (writeAt (Data p2) newEnd (take (Z.to_nat (freeEnd - newEnd)) data)) in
        Ok (withDirty (setSlot p3 slotNum newEnd newLen) true).

Definition DeleteTuple (p : Page) (slotNum : Z) : result Page :=
  if GetSlotCount p <=? slotNum then Err ErrSlotNotFound
  else if slotPos slotNum <? 0 then Panic
  else
    let '(offset, _) := getSlot p slotNum in
    Ok (withDirty (setSlot p slotNum offset 0) true).

(** GetAllTuples: the live slots in slot order, [i] running over
    0 .. count-1. *)
Fixpoint allTuplesFrom (p : Page) (i : Z) (n : nat) : result (list (Z * list Z)) :=
  match n with
  | O => Ok []
  | S n' =>
    if slotPos i <? 0 then Panic
    else
      let '(offset, length) := getSlot p i in
      if 0 <? length then
        if PageSize <? offset + length then Panic
        else
          match allTuplesFrom p (i + 1) n' with
          | Ok rest => Ok ((i, readAt (Data p) offset (Z.to_nat length)) :: rest)
          | r => r
          end
      else allTuplesFrom p (i + 1) n'
  end.

Definition GetAllTuples (p : Page) : result (list (Z * list Z)) :=
  allTuplesFrom p 0 (Z.to_nat (GetSlotCount p)).

Definition Serialize (p : Page) : list Z := take (Z.to_nat PageSize) (Data p).

(** Deserialize into a zero Page value. *)
Definition Deserialize (data : list Z) : Page :=
  let d := copyAt (replicate (Z.to_nat PageSize) 0) 0 data in
  {| ID := Uint32 d 0; Type_ := default 0 (d !! 4%nat); LSN := Uint64 d 8;
     NextPageID := Uint32 d 22; IsDirty := false; PinCount := 0; Data := d |}.

End storage.

(** ** pkg/types: the tuple codec *)
Module tuple_codec.
Import types bytes.

(** Serialize: XMin(8) XMax(8) Cid(4) TableID(4) RowID(8) DataLen(4) Data. *)
Definition Serialize (t : Tuple) : list Z :=
  leBytes 8 (XMin t) ++ leBytes 8 (XMax t) ++ leBytes 4 (Cid t) ++
  leBytes 4 (TableID t) ++ leBytes 8 (RowID t) ++
  leBytes 4 (Z.of_nat (length (Data t))) ++ Data t.

(** DeserializeTuple: [None] stands for the returned error. *)
Definition DeserializeTuple (buf : list Z) : option Tuple :=
  if Z.of_nat (length buf) <? 36 then None
  else
    let dataLen := Uint32 buf 32 in
    if Z.of_nat (length buf) <? 36 + dataLen then None
    else Some {| XMin := Uint64 buf 0; XMax := Uint64 buf 8; Cid := Uint32 buf 16;
                 TableID := Uint32 buf 20; RowID := Uint64 buf 24;
                 Data := readAt buf 36 (Z.to_nat dataLen) |}.

End tuple_codec.

(** ** internal/storage: disk manager, buffer pool, table heap *)
Module storage_io.
Import types bytes storage.

(** Outcome of an operation on a state [St]: finished with a value,
    returned an error (the state may have changed on the way), or
    panicked. *)
Inductive outcome (St A : Type) :=
| Done (st : St) (a : A)
| Fail (st : St)
| Crash.
Arguments Done {St A} st a.
Arguments Fail {St A} st.
Arguments Crash {St A}.

Module DiskManager.

(** The page file: the page count of the header and the page images. *)
Record t := mk {
  numPages : Z;
  file : gmap Z (list Z)
}.

Definition ReadPage (dm : t) (pageID : Z) : option Page :=
  if numPages dm <=? pageID then None
  else Some (Deserialize (default (replicate (Z.to_nat PageSize) 0) (file dm !! pageID))).

Definition WritePage (dm : t) (page : Page) : t :=
  {| numPages := numPages dm; file := <[ID page := Serialize page]> (file dm) |}.

Definition AllocatePage (dm : t) : t * Z :=
  let pageID := numPages dm in
  ({| numPages := (numPages dm + 1) mod 2 ^ 32;
      file := <[pageID := Serialize (NewPage pageID PageTypeData)]> (file dm) |}, pageID).

End DiskManager.

Module BufferPool.

(** [lruList] runs from the most to the least recently used page id (each
    id occurs once; the source keeps the list elements in lruMap). *)
Record t := mk {
  diskManager : DiskManager.t;
  pages : gmap Z Page;
  capacity : Z;
  lruList : list Z;
  hits : Z;
  misses : Z
}.

Definition NewBufferPool (dm : DiskManager.t) (capacity : Z) : t :=
  {| diskManager := dm; pages := ∅; capacity := capacity; lruList := [];
     hits := 0; misses := 0 |}.

Definition withPages (bp : t) (ps : gmap Z Page) : t :=
  {| diskManager := diskManager bp; pages := ps; capacity := capacity bp;
     lruList := lruList bp; hits := hits bp; misses := misses bp |}.

(** A write through a *Page obtained from the pool: the cached object
    under [pageID] becomes [page]. *)
Definition setPage (bp : t) (pageID : Z) (page : Page) : t :=
  withPages bp (<[pageID := page]> (pages bp)).

Definition removeLRU (l : list Z) (pageID : Z) : list Z :=
  filter (fun x => x ≠ pageID) l.

Definition addToLRU (bp : t) (pageID : Z) : t :=
  {| diskManager := diskManager bp; pages := pages bp; capacity := capacity bp;
     lruList := pageID :: lruList bp; hits := hits bp; misses := misses bp |}.

Definition touchLRU (bp : t) (pageID : Z) : t :=
  if decide (pageID ∈ lruList bp) then
    {| diskManager := diskManager bp; pages := pages bp; capacity := capacity bp;
       lruList := pageID :: removeLRU (lruList bp) pageID;
       hits := hits bp; misses := misses bp |}
  else bp.

(** evictOne: walk from the back of the LRU list to the first unpinned
    page, write it back if dirty, drop it from the cache. *)
Fixpoint evictScan (bp : t) (cands : list Z) : outcome t unit :=
  match cands with
  | [] => Fail bp
  | pageID :: rest =>
    match pages bp !! pageID with
    | None => Crash
    | Some page =>
      if PinCount page =? 0 then
        let dm := if IsDirty page then DiskManager.WritePage (diskManager bp) page
                  else diskManager bp in
        Done {| diskManager := dm; pages := delete pageID (pages bp);
                capacity := capacity bp; lruList := removeLRU (lruList bp) pageID;
                hits := hits bp; misses := misses bp |} tt
      else evictScan bp rest
    end
  end.

Definition evictOne (bp : t) : outcome t unit := evictScan bp (rev (lruList bp)).

Definition makeRoom (bp : t) : outcome t unit :=
  if capacity bp <=? Z.of_nat (size (pages bp)) then evictOne bp else Done bp tt.

Definition FetchPage (bp : t) (pageID : Z) : outcome t Page :=
  match pages bp !! pageID with
  | Some page =>
    let bp1 := touchLRU {| diskManager := diskManager bp; pages := pages bp;
                           capacity := capacity bp; lruList := lruList bp;
                           hits := (hits bp + 1) mod 2 ^ 64; misses := misses bp |} pageID in
    let page' := withPin page (PinCount page + 1) in
    Done (setPage bp1 pageID page') page'
  | None =>
    let bp1 := {| diskManager := diskManager bp; pages := pages bp;
                  capacity := capacity bp; lruList := lruList bp;
                  hits := hits bp; misses := (misses bp + 1) mod 2 ^ 64 |} in
    match DiskManager.ReadPage (diskManager bp1) pageID with
    | None => Fail bp1
    | Some page =>
      match makeRoom bp1 with
      | Done bp2 _ =>
        let page' := withPin page 1 in
        Done (addToLRU (setPage bp2 pageID page') pageID) page'
      | Fail bp2 => Fail bp2
      | Crash => Crash
      end
    end
  end.

Definition NewPage (bp : t) (pageType : Z) : outcome t Page :=
  let '(dm, pageID) := DiskManager.AllocatePage (diskManager bp) in
  let bp1 := {| diskManager := dm; pages := pages bp; capacity := capacity bp;
                lruList := lruList bp; hits := hits bp; misses := misses bp |} in
  match makeRoom bp1 with
  | Done bp2 _ =>
    let page := withPin (withDirty (storage.NewPage pageID pageType) true) 1 in
    Done (addToLRU (setPage bp2 pageID page) pageID) page
  | Fail bp2 => Fail bp2
  | Crash => Crash
  end.

Definition UnpinPage (bp : t) (pageID : Z) (isDirty : bool) : t :=
  match pages bp !! pageID with
  | Some page =>
    let page1 := if isDirty then withDirty page true else page in
    let page2 := if 0 <? PinCount page1 then withPin page1 (PinCount page1 - 1) else page1 in
    setPage bp pageID page2
  | None => bp
  end.

(** FlushPage and FlushAllPages write a dirty page as it is; the pool
    holds no reference to the log writer. *)
Definition FlushPage (bp : t) (pageID : Z) : t :=
  match pages bp !! pageID with
  | None => bp
  | Some page =>
    if IsDirty page then
      setPage {| diskManager := DiskManager.WritePage (diskManager bp) page;
                 pages := pages bp; capacity := capacity bp; lruList := lruList bp;
                 hits := hits bp; misses := misses bp |}
              pageID (withDirty page false)
    else bp
  end.

Definition FlushAllPages (bp : t) : t :=
  foldl (fun b pageID => FlushPage b pageID) bp (map_to_list (pages bp)).*1.

Definition GetDirtyPages (bp : t) : gmap Z Z :=
  LSN <$> filter (fun kv => IsDirty kv.2 = true) (pages bp).

Definition MarkDirty (bp : t) (pageID : Z) : t :=
  match pages bp !! pageID with
  | Some page => setPage bp pageID (withDirty page true)
  | None => bp
  end.

Definition SetPageLSN (bp : t) (pageID lsn : Z) : t :=
  match pages bp !! pageID with
  | Some page => setPage bp pageID (withDirty (SetLSN page lsn) true)
  | None => bp
  end.

Definition GetPageLSN (bp : t) (pageID : Z) : Z :=
  match pages bp !! pageID with
  | Some page => GetLSN page
  | None => InvalidLSN
  end.

End BufferPool.

Module TableHeap.

Record t := mk {
  tableID : Z;
  firstPage : Z;
  lastPage : Z
}.

Record TupleWithRID := mkTupleWithRID {
  Tuple_ : Tuple;
  PageID : Z;
  SlotNum : Z
}.

Definition NewTableHeap (bp : BufferPool.t) (tableID : Z) : outcome BufferPool.t t :=
  match BufferPool.NewPage bp PageTypeData with
  | Done bp1 page =>
    Done (BufferPool.UnpinPage bp1 (ID page) true)
         {| tableID := tableID; firstPage := ID page; lastPage := ID page |}
  | Fail bp1 => Fail bp1
  | Crash => Crash
  end.

Definition LoadTableHeap (tableID firstPage lastPage : Z) : t :=
  {| tableID := tableID; firstPage := firstPage; lastPage := lastPage |}.

(** Insert.  The state is the pool together with the heap descriptor, whose
    lastPage the PageFull path advances; no page's next-page-id is written. *)
Definition Insert (bp : BufferPool.t) (th : t) (tuple : Tuple)
  : outcome (BufferPool.t * t) (Z * Z) :=
  let data := tuple_codec.Serialize tuple in
  match BufferPool.FetchPage bp (lastPage th) with
  | Fail bp1 => Fail (bp1, th)
  | Crash => Crash
  | Done bp1 page =>
    match InsertTuple page data with
    | Panic => Crash
    | Ok (page', slotNum) =>
      let bp2 := BufferPool.setPage bp1 (lastPage th) page' in
      Done (BufferPool.UnpinPage bp2 (ID page') true, th) (ID page', slotNum)
    | Err _ =>
      let bp2 := BufferPool.UnpinPage bp1 (ID page) false in
      match BufferPool.NewPage bp2 PageTypeData with
      | Fail bp3 => Fail (bp3, th)
      | Crash => Crash
      | Done bp3 newPage =>
        let th' := {| tableID := tableID th; firstPage := firstPage th;
                      lastPage := ID newPage |} in
        match InsertTuple newPage data with
        | Panic => Crash
        | Err _ => Fail (BufferPool.UnpinPage bp3 (ID newPage) true, th')
        | Ok (newPage', slotNum) =>
          let bp4 := BufferPool.setPage bp3 (ID newPage) newPage' in
          Done (BufferPool.UnpinPage bp4 (ID newPage') true, th') (ID newPage', slotNum)
        end
      end
    end
  end.

Definition Get (bp : BufferPool.t) (pageID slotNum : Z) : outcome BufferPool.t Tuple :=
  match BufferPool.FetchPage bp pageID with
  | Fail bp1 => Fail bp1
  | Crash => Crash
  | Done bp1 page =>
    match GetTuple page slotNum with
    | Panic => Crash
    | Err _ => Fail (BufferPool.UnpinPage bp1 pageID false)
    | Ok data =>
      match tuple_codec.DeserializeTuple data with
      | Some tuple => Done (BufferPool.UnpinPage bp1 pageID false) tuple
      | None => Fail (BufferPool.UnpinPage bp1 pageID false)
      end
    end
  end.

Definition Update (bp : BufferPool.t) (pageID slotNum : Z) (tuple : Tuple)
  : outcome BufferPool.t unit :=
  match BufferPool.FetchPage bp pageID with
  | Fail bp1 => Fail bp1
  | Crash => Crash
  | Done bp1 page =>
    match UpdateTuple page slotNum (tuple_codec.Serialize tuple) with
    | Panic => Crash
    | Err _ => Fail (BufferPool.UnpinPage bp1 pageID true)
    | Ok page' => Done (BufferPool.UnpinPage (BufferPool.setPage bp1 pageID page') pageID true) tt
    end
  end.

Definition Delete (bp : BufferPool.t) (pageID slotNum : Z) : outcome BufferPool.t unit :=
  match BufferPool.FetchPage bp pageID with
  | Fail bp1 => Fail bp1
  | Crash => Crash
  | Done bp1 page =>
    match DeleteTuple page slotNum with
    | Panic => Crash
    | Err _ => Fail (BufferPool.UnpinPage bp1 pageID true)
    | Ok page' => Done (BufferPool.UnpinPage (BufferPool.setPage bp1 pageID page') pageID true) tt
    end
  end.

(** The tuples of one page, those that fail to decode being skipped. *)
Definition decodeTuples (currentPageID : Z) (tuples : list (Z * list Z)) : list TupleWithRID :=
  omap (fun t => match tuple_codec.DeserializeTuple t.2 with
                 | Some tuple => Some {| Tuple_ := tuple; PageID := currentPageID; SlotNum := t.1 |}
                 | None => None
                 end) tuples.

(** Scan.  The loop goes from firstPage through the successive page ids
    (currentPageID++) until lastPage; it does not read next-page-id.
    [fuel] bounds the number of iterations; [None] is "out of fuel". *)
Fixpoint scanFrom (fuel : nat) (bp : BufferPool.t) (th : t) (currentPageID : Z)
    (results : list TupleWithRID) : option (outcome BufferPool.t (list TupleWithRID)) :=
  match fuel with
  | O => None
  | Datatypes.S fuel' =>
    if currentPageID =? InvalidPageID then Some (Done bp results)
    else
      match BufferPool.FetchPage bp currentPageID with
      | Crash => Some Crash
      | Fail bp1 =>
        if negb (currentPageID =? firstPage th) then Some (Done bp1 results)
        else Some (Fail bp1)
      | Done bp1 page =>
        match GetAllTuples page with
        | Ok tuples =>
          let results' := results ++ decodeTuples currentPageID tuples in
          let bp2 := BufferPool.UnpinPage bp1 currentPageID false in
          if currentPageID =? lastPage th then Some (Done bp2 results')
          else scanFrom fuel' bp2 th ((currentPageID + 1) mod 2 ^ 32) results'
        | _ => Some Crash
        end
      end
  end.

Definition Scan (fuel : nat) (bp : BufferPool.t) (th : t)
  : option (outcome BufferPool.t (list TupleWithRID)) :=
  scanFrom fuel bp th (firstPage th) [].

End TableHeap.

End storage_io.

(** ** internal/index: key encoding *)
Module index.
Import types bytes.

(** EncodeKey.  [None] is the run-time panic of writing eight bytes (or
    one) into a key that is shorter. *)
Definition EncodeKey (val : Value) (keySize : Z) : option (list Z) :=
  let key := replicate (Z.to_nat keySize) 0 in
  match Type_ val with
  | ValueTypeInt =>
    let u := Z.lxor (IntVal val mod 2 ^ 64) (Z.shiftl 1 63) in
    if keySize <? 8 then None else Some (writeAt key 0 (beBytes 8 u))
  | ValueTypeString => Some (copyAt key 0 (StrVal val))
  | ValueTypeBool =>
    if BoolVal val then
      if keySize <? 1 then None else Some (writeAt key 0 [1])
    else Some key
  | ValueTypeNull => Some key
  end.

Definition intValue (v : Z) : Value :=
  {| Type_ := ValueTypeInt; IsNull := false; IntVal := v; StrVal := []; BoolVal := false |}.

(** The values of a signed 64-bit integer. *)
Definition inInt64 (v : Z) : Prop := - 2 ^ 63 <= v < 2 ^ 63.

#[global] Instance inInt64_dec v : Decision (inInt64 v).
Proof. unfold inInt64. apply _. Defined.


Record RID := mkRID {
  PageID : Z;
  SlotNum : Z;
  TableID : Z
}.

(** BTreeNode as deserializeNode builds it and serialize stores it; the
    pointer to the node's page is left out. *)
Record BTreeNode := mkNode {
  isLeaf : bool;
  keyCount : Z;
  keys : list (list Z);
  children : list Z;
  values : list RID
}.

(** The root NewBTree creates: an empty leaf. *)
Definition emptyLeaf : BTreeNode :=
  {| isLeaf := true; keyCount := 0; keys := []; children := []; values := [] |}.

(** normalizeKey pads or truncates a key to the tree's key size. *)
Definition normalizeKey (keySize : Z) (key : list Z) : list Z :=
  let k := replicate (Z.to_nat keySize) 0 in
  if keySize <? Z.of_nat (length key) then copyAt k 0 (take (Z.to_nat keySize) key)
  else copyAt k 0 key.

(** The search loop of insertIntoLeaf, at index [i] with [n] rounds to go:
    [inl i] when keys[i] equals the key (the value is replaced there),
    [inr insertIdx] when the loop ends.  The loop does not stop at the
    first larger key.  [None] is an index out of range. *)
Fixpoint leafSlot (key : list Z) (ks : list (list Z)) (i n insertIdx : nat)
  : option (nat + nat) :=
  match n with
  | O => Some (inr insertIdx)
  | S n' =>
    match ks !! i with
    | None => None
    | Some k =>
      let cmp := Compare key k in
      if cmp =? 0 then Some (inl i)
      else leafSlot key ks (S i) n' (if 0 <? cmp then S i else insertIdx)
    end
  end.

(** insertIntoLeaf on the node in memory (it then serializes the node to
    its page and returns true).  [None] is a run-time panic on an index or
    slice bound. *)
Definition insertIntoLeaf (node : BTreeNode) (key : list Z) (rid : RID) : option BTreeNode :=
  match leafSlot key (keys node) 0 (Z.to_nat (keyCount node)) 0 with
  | None => None
  | Some (inl i) =>
    if decide (i < length (values node))%nat then
      Some {| isLeaf := isLeaf node; keyCount := keyCount node; keys := keys node;
              children := children node; values := <[i := rid]> (values node) |}
    else None
  | Some (inr insertIdx) =>
    if decide (insertIdx <= length (keys node) ∧ insertIdx <= length (values node))%nat then
      Some {| isLeaf := isLeaf node; keyCount := keyCount node + 1;
              keys := take insertIdx (keys node) ++ key :: drop insertIdx (keys node);
              children := children node;
              values := take insertIdx (values node) ++ rid :: drop insertIdx (values node) |}
    else None
  end.

(** What scanNode appends for a leaf: values[0], ..., values[keyCount-1]. *)
Definition scanLeaf (node : BTreeNode) : option (list RID) :=
  if decide (Z.to_nat (keyCount node) <= length (values node))%nat
  then Some (take (Z.to_nat (keyCount node)) (values node))
  else None.

(** A client that indexes integers: for every (v, rid) in turn,
    Insert(EncodeKey(v, keySize), rid) into a tree of that key size whose
    root is a leaf and stays one (Insert splits a leaf only when it holds
    more than order - 1 keys). *)
Fixpoint insertInts (keySize : Z) (node : BTreeNode) (entries : list (Z * RID))
  : option BTreeNode :=
  match entries with
  | [] => Some node
  | (v, rid) :: rest =>
    match EncodeKey (intValue v) keySize with
    | None => None
    | Some key =>
      match insertIntoLeaf node (normalizeKey keySize key) rid with
      | None => None
      | Some node' => insertInts keySize node' rest
      end
    end
  end.

End index.

(** ** internal/sql: the executor's UPDATE and DELETE paths *)
Module sql.
Import types storage storage_io.

Section executor.
(** The SQL layer is outside the model: [matches data] is the outcome of
    the WHERE filter on a tuple's row bytes (constantly true without a
    WHERE clause), [newRow data] the re-encoded row after the SET
    assignments. *)
Variable matches : list Z → bool.
Variable newRow : list Z → list Z.

(** The state UPDATE and DELETE work on: the pool, the table's heap
    descriptor and the log writer (nil is [None]). *)
Record ExecState := mkExecState {
  bufferPool : BufferPool.t;
  heap : TableHeap.t;
  walWriter : option wal.Writer
}.

(** LogUpdate as the executor calls it: transaction, table, the old
    version's RowID, before and after image. *)
Definition LogUpdate (w : option wal.Writer) (txnID tableID rowID : Z)
    (before after : list Z) : option wal.Writer :=
  match w with
  | None => None
  | Some w0 =>
    Some (wal.Append w0
            {| wal.LSN := 0; wal.PrevLSN := 0; wal.TxnID := txnID;
               wal.Type_ := LogRecordUpdate; wal.TableID := tableID; wal.RowID := rowID;
               wal.PageID := 0; wal.SlotNum := 0; wal.BeforeImage := before;
               wal.AfterImage := after; wal.ActiveTxns := []; wal.DirtyPages := ∅;
               wal.UndoNextLSN := 0 |}).1
  end.

Definition LogDelete (w : option wal.Writer) (txnID tableID rowID : Z)
    (before : list Z) : option wal.Writer :=
  match w with
  | None => None
  | Some w0 =>
    Some (wal.Append w0
            {| wal.LSN := 0; wal.PrevLSN := 0; wal.TxnID := txnID;
               wal.Type_ := LogRecordDelete; wal.TableID := tableID; wal.RowID := rowID;
               wal.PageID := 0; wal.SlotNum := 0; wal.BeforeImage := before;
               wal.AfterImage := []; wal.ActiveTxns := []; wal.DirtyPages := ∅;
               wal.UndoNextLSN := 0 |}).1
  end.

Definition withXMax (t : Tuple) (xmax : Z) : Tuple :=
  {| XMin := XMin t; XMax := xmax; Cid := Cid t; TableID := types.TableID t;
     RowID := RowID t; types.Data := types.Data t |}.

(** The loop of executeUpdate over the scanned tuples.  The old version's
    XMax is set on the scanned copy only; what reaches the heap is the
    insert of the new version. *)
Fixpoint updateLoop (st : ExecState) (txn : txn.Transaction) (cid tableID : Z)
    (tuples : list TableHeap.TupleWithRID) (updated : Z) : outcome ExecState Z :=
  match tuples with
  | [] => Done st updated
  | t :: rest =>
    if negb (txn.IsVisible (txn.Snapshot_ txn) (TableHeap.Tuple_ t))
    then updateLoop st txn cid tableID rest updated
    else if negb (matches (types.Data (TableHeap.Tuple_ t)))
    then updateLoop st txn cid tableID rest updated
    else
      let oldTupleData := tuple_codec.Serialize (TableHeap.Tuple_ t) in
      let newTuple :=
        {| XMin := txn.ID txn; XMax := InvalidTxnID; Cid := cid; types.TableID := tableID;
           RowID := RowID (TableHeap.Tuple_ t);
           types.Data := newRow (types.Data (TableHeap.Tuple_ t)) |} in
      match TableHeap.Insert (bufferPool st) (heap st) newTuple with
      | Crash => Crash
      | Fail (bp1, th1) =>
        Fail {| bufferPool := bp1; heap := th1; walWriter := walWriter st |}
      | Done (bp1, th1) (pageID, slotNum) =>
        let newTuple' :=
          {| XMin := XMin newTuple; XMax := XMax newTuple; Cid := Cid newTuple;
             types.TableID := types.TableID newTuple;
             RowID := Z.lor (Z.shiftl pageID 16) slotNum;
             types.Data := types.Data newTuple |} in
        let w1 := LogUpdate (walWriter st) (txn.ID txn) tableID
                    (RowID (TableHeap.Tuple_ t)) oldTupleData
                    (tuple_codec.Serialize newTuple') in
        updateLoop {| bufferPool := bp1; heap := th1; walWriter := w1 |}
                   txn cid tableID rest (updated + 1)
      end
  end.

(** executeUpdate for a transaction already chosen by getTransaction:
    next command id, scan, loop. *)
Definition executeUpdate (fuel : nat) (st : ExecState) (txn : txn.Transaction)
  : option (outcome ExecState Z) :=
  let '(txn1, cid) := txn.NextCommandID txn in
  match TableHeap.Scan fuel (bufferPool st) (heap st) with
  | None => None
  | Some Crash => Some Crash
  | Some (Fail bp1) =>
    Some (Fail {| bufferPool := bp1; heap := heap st; walWriter := walWriter st |})
  | Some (Done bp1 tuples) =>
    Some (updateLoop {| bufferPool := bp1; heap := heap st; walWriter := walWriter st |}
                     txn1 cid (TableHeap.tableID (heap st)) tuples 0)
  end.

(** The loop of executeDelete: the sibling path writes the old version
    back with heap.Update. *)
Fixpoint deleteLoop (st : ExecState) (txn : txn.Transaction) (tableID : Z)
    (tuples : list TableHeap.TupleWithRID) (deleted : Z) : outcome ExecState Z :=
  match tuples with
  | [] => Done st deleted
  | t :: rest =>
    if negb (txn.IsVisible (txn.Snapshot_ txn) (TableHeap.Tuple_ t))
    then deleteLoop st txn tableID rest deleted
    else if negb (matches (types.Data (TableHeap.Tuple_ t)))
    then deleteLoop st txn tableID rest deleted
    else
      let oldTupleData := tuple_codec.Serialize (TableHeap.Tuple_ t) in
      let marked := withXMax (TableHeap.Tuple_ t) (txn.ID txn) in
      match TableHeap.Update (bufferPool st) (TableHeap.PageID t) (TableHeap.SlotNum t) marked with
      | Crash => Crash
      | Fail bp1 | Done bp1 _ =>
        let w1 := LogDelete (walWriter st) (txn.ID txn) tableID
                    (RowID (TableHeap.Tuple_ t)) oldTupleData in
        deleteLoop {| bufferPool := bp1; heap := heap st; walWriter := w1 |}
                   txn tableID rest (deleted + 1)
      end
  end.

End executor.

End sql.

(** ** internal/engine: Vacuum *)
Module engine.
Import types storage storage_io.

Record VacuumTableStats := mkStats {
  TuplesScanned : Z;
  TuplesRemoved : Z
}.

(** The dead-tuple test of Vacuum. *)
Definition isDead (globalXmin : Z) (m : txn.TrackedManager) (t : Tuple) : bool :=
  negb (XMax t =? InvalidTxnID) && (XMax t <? globalXmin) && txn.IsTxnCommitted m (XMax t).

(** The inner loop of Vacuum over the tuples of one table: heap.Delete on
    every dead tuple, counting them; an error of Delete ends Vacuum. *)
Fixpoint vacuumTuples (globalXmin : Z) (m : txn.TrackedManager) (bp : BufferPool.t)
    (tuples : list TableHeap.TupleWithRID) (removed : Z) : outcome BufferPool.t Z :=
  match tuples with
  | [] => Done bp removed
  | t :: rest =>
    if isDead globalXmin m (TableHeap.Tuple_ t) then
      match TableHeap.Delete bp (TableHeap.PageID t) (TableHeap.SlotNum t) with
      | Done bp1 _ => vacuumTuples globalXmin m bp1 rest (removed + 1)
      | Fail bp1 => Fail bp1
      | Crash => Crash
      end
    else vacuumTuples globalXmin m bp rest removed
  end.

(** One table: scan, then the inner loop. *)
Definition vacuumTable (fuel : nat) (globalXmin : Z) (m : txn.TrackedManager)
    (bp : BufferPool.t) (th : TableHeap.t) : option (outcome BufferPool.t VacuumTableStats) :=
  match TableHeap.Scan fuel bp th with
  | None => None
  | Some Crash => Some Crash
  | Some (Fail bp1) => Some (Fail bp1)
  | Some (Done bp1 tuples) =>
    match vacuumTuples globalXmin m bp1 tuples 0 with
    | Done bp2 removed =>
      Some (Done bp2 {| TuplesScanned := Z.of_nat (length tuples); TuplesRemoved := removed |})
    | Fail bp2 => Some (Fail bp2)
    | Crash => Some Crash
    end
  end.

(** The engine state Vacuum works on.  [tables] lists the heaps in the
    order GetAllTables yields the names (a Go map iteration). *)
Record Engine := mkEngine {
  bufferPool : BufferPool.t;
  tables : list TableHeap.t;
  txnManager : txn.TrackedManager
}.

Fixpoint vacuumTables (fuel : nat) (globalXmin : Z) (m : txn.TrackedManager)
    (bp : BufferPool.t) (ths : list TableHeap.t) (acc : list VacuumTableStats)
  : option (outcome BufferPool.t (list VacuumTableStats)) :=
  match ths with
  | [] => Some (Done bp acc)
  | th :: rest =>
    match vacuumTable fuel globalXmin m bp th with
    | None => None
    | Some Crash => Some Crash
    | Some (Fail bp1) => Some (Fail bp1)
    | Some (Done bp1 stats) => vacuumTables fuel globalXmin m bp1 rest (acc ++ [stats])
    end
  end.

Section vacuum.
(** The index rebuild of Vacuum (fresh B-trees filled from a rescan) is a
    parameter: it depends on catalog code that is not among the sources
    and calls no slotted-page delete. *)
Variable rebuildIndexes : BufferPool.t → outcome BufferPool.t unit.

Definition Vacuum (fuel : nat) (e : Engine) : option (outcome Engine (list VacuumTableStats)) :=
  let globalXmin := txn.GetGlobalXmin (txn.manager (txnManager e)) in
  match vacuumTables fuel globalXmin (txnManager e) (bufferPool e) (tables e) [] with
  | None => None
  | Some Crash => Some Crash
  | Some (Fail bp1) =>
    Some (Fail {| bufferPool := bp1; tables := tables e; txnManager := txnManager e |})
  | Some (Done bp1 result) =>
    match rebuildIndexes bp1 with
    | Crash => Some Crash
    | Fail bp2 =>
      Some (Fail {| bufferPool := bp2; tables := tables e; txnManager := txnManager e |})
    | Done bp2 _ =>
      Some (Done {| bufferPool := BufferPool.FlushAllPages bp2; tables := tables e;
                    txnManager := txn.PruneCommittedBefore (txnManager e) globalXmin |}
                 result)
    end
  end.

End vacuum.


(** The reclamation rule in the words of the specification. *)
Definition spec_reclaimable (globalXmin : Z) (committed : gset Z) (t : Tuple) : Prop :=
  XMax t ≠ 0 ∧ XMax t < globalXmin ∧ XMax t ∈ committed.

#[global] Instance spec_reclaimable_dec g committed t :
  Decision (spec_reclaimable g committed t).
Proof. unfold spec_reclaimable. apply _. Defined.

End engine.

(** ** Well-formedness of pool states, used to state the properties *)
Module wf.
Import types bytes storage storage_io.

(** A page header that the slotted-page code can work on: the data array
    has PageSize bytes, the free-space bounds lie between the header and
    the page end, and the next slot entry does not reach into the header. *)
Definition header_ok (p : Page) : Prop :=
  length (Data p) = Z.to_nat PageSize ∧
  PageHeaderSize <= GetFreeSpaceOffset p ∧
  GetFreeSpaceEnd p <= PageSize ∧
  0 <= GetSlotCount p ∧
  PageHeaderSize <= slotPos (GetSlotCount p).

(** The same for a bare data array. *)
Definition data_ok (c : list Z) : Prop := header_ok (mkPage 0 0 0 0 false 0 c).

(** The bytes of page [q] as the pool presents them: the cached object if
    there is one, what ReadPage would load otherwise. *)
Definition content (bp : BufferPool.t) (q : Z) : option (list Z) :=
  match BufferPool.pages bp !! q with
  | Some p => Some (Data p)
  | None => Data <$> DiskManager.ReadPage (BufferPool.diskManager bp) q
  end.

(** A cached page is filed under its own id, has a full data array that
    carries the id, lies within the file, and equals its disk image unless
    it is dirty. *)
Definition cached_ok (dm : DiskManager.t) (q : Z) (p : Page) : Prop :=
  length (Data p) = Z.to_nat PageSize ∧ ID p = q ∧ Uint32 (Data p) 0 = q ∧
  0 <= q < DiskManager.numPages dm ∧
  (IsDirty p = false → DiskManager.file dm !! q = Some (Data p)).

(** Every page of the file has a full image that carries its id. *)
Definition image_ok (dm : DiskManager.t) (q : Z) : Prop :=
  match DiskManager.file dm !! q with
  | Some img => length img = Z.to_nat PageSize ∧ Uint32 img 0 = q
  | None => False
  end.

Definition coherent (bp : BufferPool.t) : Prop :=
  map_Forall (cached_ok (BufferPool.diskManager bp)) (BufferPool.pages bp) ∧
  Forall (image_ok (BufferPool.diskManager bp))
         (seqZ 0 (DiskManager.numPages (BufferPool.diskManager bp))).



(** Every dirty cached page has a page LSN covered by the flushed LSN. *)
Definition dirty_covered (bp : BufferPool.t) (flushed : Z) : Prop :=
  ∀ q p, BufferPool.pages bp !! q = Some p → IsDirty p = true → GetLSN p <= flushed.

(** Every page image that is in the file of [dm'] but not in that of [dm]
    has a page LSN covered by the flushed LSN. *)
Definition new_images_covered (dm dm' : DiskManager.t) (flushed : Z) : Prop :=
  ∀ q img, DiskManager.file dm' !! q = Some img → DiskManager.file dm !! q ≠ Some img →
           Uint64 img 8 <= flushed.

(** Every page of the file has at most 1017 slots, so that no slot entry
    reaches into the page header. *)
Definition count_ok (c : option (list Z)) : Prop :=
  match c with
  | Some d => Uint16 d 16 <= 1017
  | None => True
  end.

Definition slots_bounded (bp : BufferPool.t) : Prop :=
  Forall (fun q => count_ok (content bp q))
         (seqZ 0 (DiskManager.numPages (BufferPool.diskManager bp))).

#[global] Instance count_ok_dec c : Decision (count_ok c).
Proof. destruct c; apply _. Defined.

#[global] Instance slots_bounded_dec bp : Decision (slots_bounded bp).
Proof. unfold slots_bounded. apply _. Defined.

#[global] Instance header_ok_dec p : Decision (header_ok p).
Proof. unfold header_ok. apply _. Defined.

#[global] Instance data_ok_dec c : Decision (data_ok c).
Proof. unfold data_ok. apply _. Defined.

#[global] Instance cached_ok_dec dm q p : Decision (cached_ok dm q p).
Proof. unfold cached_ok. apply _. Defined.

#[global] Instance image_ok_dec dm q : Decision (image_ok dm q).
Proof. unfold image_ok. destruct (DiskManager.file dm !! q); apply _. Defined.

#[global] Instance coherent_dec bp : Decision (coherent bp).
Proof. unfold coherent. apply _. Defined.

End wf.

(** ** Concrete instances used to exercise the properties *)

(** A concrete recovery: the state maps page ids to page LSNs, redo stamps
    the page, the dirty page table holds page 1 with RecLSN 5.  The log has
    an insert on page 1 (LSN 5), an insert on the clean page 2 (LSN 6) and an
    update on page 1 (LSN 7). *)
Definition demo_redo (r : wal.LogRecord) (st : gmap Z Z) : gmap Z Z * bool :=
  (<[wal.PageID r := Z.max (wal.LSN r) (default 0 (st !! wal.PageID r))]> st, true).

Definition demo_pageLSN (pg : Z) (st : gmap Z Z) : Z * gmap Z Z :=
  (default 0 (st !! pg), st).

Definition demo_rm : wal.RecoveryManager (gmap Z Z) :=
  {| wal.activeTxnTable := ∅; wal.dirtyPageTable := {[ 1 := 5 ]};
     wal.redoCallback := Some demo_redo; wal.undoCallback := None;
     wal.pageLSNCallback := Some demo_pageLSN |}.

Definition demo_record (lsn : Z) (ty : types.LogRecordType) (pg : Z) : wal.LogRecord :=
  {| wal.LSN := lsn; wal.PrevLSN := 0; wal.TxnID := 2; wal.Type_ := ty; wal.TableID := 1;
     wal.RowID := 0; wal.PageID := pg; wal.SlotNum := 0; wal.BeforeImage := [];
     wal.AfterImage := [1]; wal.ActiveTxns := []; wal.DirtyPages := ∅;
     wal.UndoNextLSN := 0 |}.

Definition demo_log : list wal.LogRecord :=
  [demo_record 5 types.LogRecordInsert 1; demo_record 6 types.LogRecordInsert 2;
   demo_record 7 types.LogRecordUpdate 1].

(** A log writer holding one appended, unflushed record (LSN 1), and two
    pools whose page 0 was stamped with that LSN: one flushes the page,
    the other (capacity 1) evicts it to make room for a second page. *)
Definition c3_writer : wal.Writer :=
  (wal.Append wal.NewWriter (wal.emptyRecord 2 types.LogRecordInsert)).1.

Definition c3_pool (capacity : Z) : storage_io.BufferPool.t :=
  storage_io.BufferPool.NewBufferPool
    {| storage_io.DiskManager.numPages := 0; storage_io.DiskManager.file := ∅ |} capacity.

Definition c3_stamped (capacity : Z) : storage_io.BufferPool.t :=
  match storage_io.BufferPool.NewPage (c3_pool capacity) storage.PageTypeData with
  | storage_io.Done bp1 p =>
    storage_io.BufferPool.UnpinPage
      (storage_io.BufferPool.SetPageLSN bp1 (storage.ID p) 1) (storage.ID p) true
  | _ => c3_pool capacity
  end.

Definition c3_flushed : storage_io.BufferPool.t :=
  storage_io.BufferPool.FlushPage (c3_stamped 4) 0.

Definition c3_evicted : storage_io.BufferPool.t :=
  match storage_io.BufferPool.NewPage (c3_stamped 1) storage.PageTypeData with
  | storage_io.Done bp2 _ => bp2
  | _ => c3_pool 1
  end.

(** A heap on an empty file: one page, into which a first 2036-byte tuple
    is inserted; a second one of the same size does not fit. *)
Definition c9_pool0 : storage_io.BufferPool.t :=
  storage_io.BufferPool.NewBufferPool
    {| storage_io.DiskManager.numPages := 0; storage_io.DiskManager.file := ∅ |} 4.

Definition c9_tuple (x : Z) : types.Tuple := types.mkTuple 2 0 1 1 0 (replicate 2000 x).

Definition c9_state1 : storage_io.BufferPool.t * storage_io.TableHeap.t :=
  match storage_io.TableHeap.NewTableHeap c9_pool0 1 with
  | storage_io.Done bp1 th =>
    match storage_io.TableHeap.Insert bp1 th (c9_tuple 7) with
    | storage_io.Done st _ => st
    | _ => (bp1, th)
    end
  | _ => (c9_pool0, storage_io.TableHeap.mk 1 0 0)
  end.


(** A table with one committed row (inserted by transaction 2) and a later
    transaction, number 3, that updates or deletes it. *)
Definition c4_row : list Z := [1; 0; 0; 0; 0; 0; 0; 0; 97; 108; 105; 99; 101; 0; 0; 0].

Definition c4_heap0 : storage_io.BufferPool.t * storage_io.TableHeap.t :=
  match storage_io.TableHeap.NewTableHeap c9_pool0 1 with
  | storage_io.Done bp1 th =>
    match storage_io.TableHeap.Insert bp1 th (types.mkTuple 2 0 1 1 0 c4_row) with
    | storage_io.Done st _ => st
    | _ => (bp1, th)
    end
  | _ => (c9_pool0, storage_io.TableHeap.mk 1 0 0)
  end.

Definition c4_txn : txn.Transaction :=
  let '(m1, t1) := txn.Begin (txn.NewManager None) in
  match txn.Commit m1 t1 with
  | Some (m2, _) => (txn.Begin m2).2
  | None => t1
  end.

Definition c4_state0 : sql.ExecState :=
  {| sql.bufferPool := c4_heap0.1; sql.heap := c4_heap0.2; sql.walWriter := None |}.

Definition c4_newRow (d : list Z) : list Z := take 8 d ++ [98; 111; 98; 0; 0; 0; 0; 0].

(** The tuple stored at (page, slot) after an operation, if any. *)
Definition c4_stored (r : option (storage_io.outcome sql.ExecState Z)) (page slot : Z)
  : option types.Tuple :=
  match r with
  | Some (storage_io.Done st _) =>
    match storage_io.TableHeap.Get (sql.bufferPool st) page slot with
    | storage_io.Done _ t => Some t
    | _ => None
    end
  | _ => None
  end.

Definition c4_after_update : option (storage_io.outcome sql.ExecState Z) :=
  sql.executeUpdate (fun _ => true) c4_newRow 3 c4_state0 c4_txn.

Definition c4_after_delete : option (storage_io.outcome sql.ExecState Z) :=
  match storage_io.TableHeap.Scan 3 (sql.bufferPool c4_state0) (sql.heap c4_state0) with
  | Some (storage_io.Done bp1 tuples) =>
    Some (sql.deleteLoop (fun _ => true)
            {| sql.bufferPool := bp1; sql.heap := sql.heap c4_state0;
               sql.walWriter := None |} c4_txn 1 tuples 0)
  | _ => None
  end.


(** A table with three rows inserted by transaction 2: the first deleted
    by transaction 3, which committed, the second not deleted, the third
    deleted by transaction 4, which was rolled back. *)
Definition c5_row (xmax rowID : Z) : types.Tuple := types.mkTuple 2 xmax 1 1 rowID c4_row.






(** ** Well-formed values of the Go types *)
Module ranges.
Import types.

(** A Tuple whose fields hold values of their Go types: XMin, XMax and
    RowID are uint64, Cid and TableID uint32, and the data is short enough
    for its uint32 length field. *)
Definition tuple_ok (t : Tuple) : Prop :=
  0 <= XMin t < 2 ^ 64 ∧ 0 <= XMax t < 2 ^ 64 ∧ 0 <= Cid t < 2 ^ 32 ∧
  0 <= TableID t < 2 ^ 32 ∧ 0 <= RowID t < 2 ^ 64 ∧
  Z.of_nat (length (Data t)) < 2 ^ 32.

#[global] Instance tuple_ok_dec t : Decision (tuple_ok t).
Proof. unfold tuple_ok. apply _. Defined.

End ranges.
(** ** Page layouts *)
Module layout.
Import types bytes storage wf.

(** The free area ends at or below the place of the next slot entry: the
    payload of the next insert and its slot entry do not share bytes. *)
Definition dir_below (p : Page) : Prop :=
  GetFreeSpaceEnd p <= slotPos (GetSlotCount p).

#[global] Instance dir_below_dec p : Decision (dir_below p).
Proof. unfold dir_below. apply _. Defined.

(** The bytes [off, off+len) of a stored payload lie at or above [lo] and
    share no byte with the entry of slot [s]. *)
Definition clear_of (lo off len s : Z) : Prop :=
  lo <= off ∧ (off + len <= slotPos s ∨ slotPos s + slotSize <= off).

#[global] Instance clear_of_dec lo off len s : Decision (clear_of lo off len s).
Proof. unfold clear_of. apply _. Defined.

End layout.

(** A page that holds one eight-byte payload. *)
Definition x_page1 : storage.Page :=
  match storage.InsertTuple (storage.NewPage 0 storage.PageTypeData) [1; 2; 3; 4; 5; 6; 7; 8] with
  | storage.Ok (p, _) => p
  | _ => storage.NewPage 0 storage.PageTypeData
  end.

(** The same page after a second payload of eight bytes. *)
Definition x_page2 : storage.Page :=
  match storage.InsertTuple x_page1 [97; 98; 99; 100; 101; 102; 103; 104] with
  | storage.Ok (p, _) => p
  | _ => x_page1
  end.
(** ** Buffer pool states *)
Module pool.
Import types storage storage_io.

(** Page [q] is cached with a pin count other than 0. *)
Definition pinned (bp : BufferPool.t) (q : Z) : Prop :=
  match BufferPool.pages bp !! q with
  | Some pg => PinCount pg ≠ 0
  | None => False
  end.

#[global] Instance pinned_dec bp q : Decision (pinned bp q).
Proof. unfold pinned. destruct (BufferPool.pages bp !! q); apply _. Defined.

(** The cache holds no more pages than the pool's capacity. *)
Definition within_capacity (bp : BufferPool.t) : Prop :=
  Z.of_nat (size (BufferPool.pages bp)) <= BufferPool.capacity bp.

#[global] Instance within_capacity_dec bp : Decision (within_capacity bp).
Proof. unfold within_capacity. apply _. Defined.

End pool.

(** The pool and the page FetchPage yields for page 0 of the one-tuple heap. *)
Definition x_fetched : storage_io.BufferPool.t * storage.Page :=
  match storage_io.BufferPool.FetchPage c9_state1.1 0 with
  | storage_io.Done bp1 page => (bp1, page)
  | _ => (c9_state1.1, storage.NewPage 0 storage.PageTypeData)
  end.

(** ** States of the log writer *)
Module wal_inv.
Import types wal.

(** A writer that started on a new file: the records written and buffered
    carry the LSNs 1, 2, ... up to the current LSN (excluded) in this order,
    flushed-LSN is the LSN of the last record in the file, and bufferLSN
    that of the first buffered record. *)
Definition log_ok (w : Writer) : Prop :=
  1 <= currentLSN w ∧
  LSN <$> (file w ++ buffer w) = seqZ 1 (currentLSN w - 1) ∧
  flushedLSN w = Z.of_nat (length (file w)) ∧
  (buffer w ≠ [] → bufferLSN w = flushedLSN w + 1).

End wal_inv.

(** A writer after one LogBegin: the begin record of transaction 7 waits in
    the buffer. *)
Definition x_writer1 : wal.Writer := (wal.LogBegin wal.NewWriter 7).1.

(** A manager on a new log after its first Begin, and the transaction
    (id 2) that Begin returned. *)
Definition x_begun : txn.Manager * txn.Transaction :=
  txn.Begin (txn.NewManager (Some wal.NewWriter)).


(** ** recovery.go: the analysis phase *)
Module analysis.
Import types wal.

(** The two tables the analysis phase rebuilds. *)
Definition tables : Type := gmap Z TxnEntry * gmap Z Z.

(** First pass: the LSN of the last checkpoint record of the log and the
    record itself (0 and nil when there is none). *)
Definition findCheckpoint (records : list LogRecord) : Z * option LogRecord :=
  foldl (fun acc record =>
           if decide (Type_ record = LogRecordCheckpoint)
           then (LSN record, Some record) else acc)
        (0, None) records.

(** Initialisation from the checkpoint record: every listed transaction is
    entered as running, every dirty page with its RecLSN. *)
Definition initFromCheckpoint (tb : tables) (cp : LogRecord) : tables :=
  (foldl (fun att txnID => <[txnID := mkTxnEntry txnID TxnStatusRunning 0 0]> att)
         tb.1 (ActiveTxns cp),
   foldl (fun dpt kv => <[kv.1 := kv.2]> dpt) tb.2 (map_to_list (DirtyPages cp))).

(** [entry.LastLSN = lsn] on the entry of the transaction, if it has one. *)
Definition touch (att : gmap Z TxnEntry) (txnID : Z) (f : TxnEntry → TxnEntry)
  : gmap Z TxnEntry :=
  match att !! txnID with
  | Some entry => <[txnID := f entry]> att
  | None => att
  end.

(** The body of the second loop. *)
Definition analyse (lastCheckpointLSN : Z) (tb : tables) (record : LogRecord) : tables :=
  if (0 <? lastCheckpointLSN) && (LSN record <=? lastCheckpointLSN) then tb
  else
    match Type_ record with
    | LogRecordBegin =>
      (<[TxnID record := mkTxnEntry (TxnID record) TxnStatusRunning (LSN record) 0]> tb.1,
       tb.2)
    | LogRecordCommit => (delete (TxnID record) tb.1, tb.2)
    | LogRecordAbort =>
      (touch tb.1 (TxnID record)
         (fun e => mkTxnEntry (EntryTxnID e) TxnStatusAborted (LSN record) (EntryUndoNext e)),
       tb.2)
    | LogRecordUpdate | LogRecordInsert | LogRecordDelete =>
      (touch tb.1 (TxnID record)
         (fun e => mkTxnEntry (EntryTxnID e) (EntryStatus e) (LSN record) (EntryUndoNext e)),
       match tb.2 !! PageID record with
       | Some _ => tb.2
       | None => <[PageID record := LSN record]> tb.2
       end)
    | LogRecordCLR =>
      (touch tb.1 (TxnID record)
         (fun e => mkTxnEntry (EntryTxnID e) (EntryStatus e) (LSN record) (UndoNextLSN record)),
       tb.2)
    | LogRecordCheckpoint => tb
    end.

(** analysisPhase over the records read from the log file: the tables it
    leaves and the checkpoint LSN it returns. *)
Definition analysisPhase (tb : tables) (records : list LogRecord) : tables * Z :=
  let '(lastCheckpointLSN, lastCheckpointRecord) := findCheckpoint records in
  let tb1 :=
    match lastCheckpointRecord with
    | Some cp => initFromCheckpoint tb cp
    | None => tb
    end in
  (foldl (analyse lastCheckpointLSN) tb1 records, lastCheckpointLSN).

(** The tables of NewRecoveryManager. *)
Definition noTables : tables := (∅, ∅).

(** The second loop passes over a record at or below the checkpoint. *)
Definition scanned (lastCheckpointLSN : Z) (record : LogRecord) : Prop :=
  ¬ (0 < lastCheckpointLSN ∧ LSN record <= lastCheckpointLSN).

#[global] Instance scanned_dec c r : Decision (scanned c r).
Proof. unfold scanned. apply _. Defined.

(** The record kinds that enter a page into the dirty page table. *)
Definition dirties (t : LogRecordType) : bool :=
  match t with
  | LogRecordUpdate | LogRecordInsert | LogRecordDelete => true
  | _ => false
  end.

End analysis.

(** A log: transaction 5 begins and updates page 3, a checkpoint lists it
    with that page; then transaction 6 begins, inserts on page 4 and
    commits, and transaction 7 begins. *)
Definition x_rec (lsn txnID : Z) (ty : types.LogRecordType) (pg : Z) : wal.LogRecord :=
  {| wal.LSN := lsn; wal.PrevLSN := 0; wal.TxnID := txnID; wal.Type_ := ty;
     wal.TableID := 1; wal.RowID := 0; wal.PageID := pg; wal.SlotNum := 0;
     wal.BeforeImage := []; wal.AfterImage := [1]; wal.ActiveTxns := [];
     wal.DirtyPages := ∅; wal.UndoNextLSN := 0 |}.

Definition x_checkpoint : wal.LogRecord :=
  {| wal.LSN := 3; wal.PrevLSN := 0; wal.TxnID := 0; wal.Type_ := types.LogRecordCheckpoint;
     wal.TableID := 0; wal.RowID := 0; wal.PageID := 0; wal.SlotNum := 0;
     wal.BeforeImage := []; wal.AfterImage := []; wal.ActiveTxns := [5];
     wal.DirtyPages := {[ 3 := 2 ]}; wal.UndoNextLSN := 0 |}.

Definition x_log_pre : list wal.LogRecord :=
  [x_rec 1 5 types.LogRecordBegin 0; x_rec 2 5 types.LogRecordUpdate 3].

Definition x_log_post : list wal.LogRecord :=
  [x_rec 4 6 types.LogRecordBegin 0; x_rec 5 6 types.LogRecordInsert 4;
   x_rec 6 6 types.LogRecordCommit 0; x_rec 7 7 types.LogRecordBegin 0].


(** ** log.go: the log record codec and the record reader of recovery *)
Module wal_codec.
Import types bytes wal.
Import storage (result, Ok, Err, Panic, ErrOther).

(** byte(r.Type): the constants are iota, 0 for BEGIN to 7 for CLR. *)
Definition typeByte (t : LogRecordType) : Z :=
  match t with
  | LogRecordBegin => 0 | LogRecordCommit => 1 | LogRecordAbort => 2
  | LogRecordUpdate => 3 | LogRecordInsert => 4 | LogRecordDelete => 5
  | LogRecordCheckpoint => 6 | LogRecordCLR => 7
  end.

Definition typeOfByte (b : Z) : option LogRecordType :=
  if b =? 0 then Some LogRecordBegin else if b =? 1 then Some LogRecordCommit
  else if b =? 2 then Some LogRecordAbort else if b =? 3 then Some LogRecordUpdate
  else if b =? 4 then Some LogRecordInsert else if b =? 5 then Some LogRecordDelete
  else if b =? 6 then Some LogRecordCheckpoint else if b =? 7 then Some LogRecordCLR
  else None.

(** serializeCheckpoint.  [pages] are the entries of DirtyPages in the
    order in which the range loop visits them. *)
Definition serializeCheckpoint (r : LogRecord) (pages : list (Z * Z)) : list Z :=
  leBytes 4 (Z.of_nat (length (ActiveTxns r))) ++
  flat_map (leBytes 8) (ActiveTxns r) ++
  leBytes 4 (Z.of_nat (size (DirtyPages r))) ++
  flat_map (fun kv => leBytes 4 kv.1 ++ leBytes 8 kv.2) pages.

Definition header (r : LogRecord) : list Z :=
  leBytes 8 (LSN r) ++ leBytes 8 (PrevLSN r) ++ leBytes 8 (TxnID r) ++
  [typeByte (Type_ r)] ++ leBytes 4 (TableID r) ++ leBytes 8 (RowID r) ++
  leBytes 4 (PageID r) ++ leBytes 2 (SlotNum r) ++
  leBytes 4 (Z.of_nat (length (BeforeImage r))) ++
  leBytes 4 (Z.of_nat (length (AfterImage r))).

(** Serialize, for a given visiting order of DirtyPages. *)
Definition SerializeWith (r : LogRecord) (pages : list (Z * Z)) : list Z :=
  header r ++ BeforeImage r ++ AfterImage r ++
  (if decide (Type_ r = LogRecordCheckpoint)
   then let checkpointData := serializeCheckpoint r pages in
        leBytes 4 (Z.of_nat (length checkpointData)) ++ checkpointData
   else []) ++
  (if decide (Type_ r = LogRecordCLR) then leBytes 8 (UndoNextLSN r) else []).

Definition Serialize (r : LogRecord) : list Z :=
  SerializeWith r (map_to_list (DirtyPages r)).

(** What Deserialize builds: the fields of a LogRecord, the type as the
    byte that was read (any byte is accepted). *)
Record Decoded := mkDecoded {
  dLSN : Z; dPrevLSN : Z; dTxnID : Z; dType : Z; dTableID : Z; dRowID : Z;
  dPageID : Z; dSlotNum : Z; dBeforeImage : list Z; dAfterImage : list Z;
  dActiveTxns : list Z; dDirtyPages : gmap Z Z; dUndoNextLSN : Z
}.

(** The record a decoded value stands for, when its type byte is one of
    the eight kinds. *)
Definition toRecord (d : Decoded) : option LogRecord :=
  match typeOfByte (dType d) with
  | Some ty =>
    Some {| LSN := dLSN d; PrevLSN := dPrevLSN d; TxnID := dTxnID d; Type_ := ty;
            TableID := dTableID d; RowID := dRowID d; PageID := dPageID d;
            SlotNum := dSlotNum d; BeforeImage := dBeforeImage d;
            AfterImage := dAfterImage d; ActiveTxns := dActiveTxns d;
            DirtyPages := dDirtyPages d; UndoNextLSN := dUndoNextLSN d |}
  | None => None
  end.

(** The loops of deserializeCheckpoint; [None] is the index-out-of-range
    panic of a read past the end of the slice. *)
Fixpoint readTxns (n : nat) (buf : list Z) (offset : Z) : option (list Z * Z) :=
  match n with
  | O => Some ([], offset)
  | S k =>
    if Z.of_nat (length buf) <? offset + 8 then None
    else
      match readTxns k buf (offset + 8) with
      | Some (l, offset') => Some (Uint64 buf offset :: l, offset')
      | None => None
      end
  end.

Fixpoint readPages (n : nat) (buf : list Z) (offset : Z) (dpt : gmap Z Z) : option (gmap Z Z) :=
  match n with
  | O => Some dpt
  | S k =>
    if Z.of_nat (length buf) <? offset + 4 then None
    else if Z.of_nat (length buf) <? offset + 4 + 8 then None
    else readPages k buf (offset + 12) (<[Uint32 buf offset := Uint64 buf (offset + 4)]> dpt)
  end.

Definition deserializeCheckpoint (buf : list Z) : option (list Z * gmap Z Z) :=
  if Z.of_nat (length buf) <? 4 then None
  else
    match readTxns (Z.to_nat (Uint32 buf 0)) buf 4 with
    | None => None
    | Some (txns, offset) =>
      if Z.of_nat (length buf) <? offset + 4 then None
      else
        match readPages (Z.to_nat (Uint32 buf offset)) buf (offset + 4) ∅ with
        | None => None
        | Some dpt => Some (txns, dpt)
        end
    end.

(** Deserialize: the record and the number of bytes it took, the returned
    error, or the panic of deserializeCheckpoint. *)
Definition Deserialize (buf : list Z) : result (Decoded * Z) :=
  let len := Z.of_nat (length buf) in
  if len <? logRecordHeaderSize then Err ErrOther
  else
    let ty := nth 24 buf 0 in
    let beforeLen := Uint32 buf 43 in
    let afterLen := Uint32 buf 47 in
    let offset := 51 in
    if len <? offset + beforeLen + afterLen then Err ErrOther
    else
      let before := readAt buf offset (Z.to_nat beforeLen) in
      let offset := offset + beforeLen in
      let after := readAt buf offset (Z.to_nat afterLen) in
      let offset := offset + afterLen in
      let d := {| dLSN := Uint64 buf 0; dPrevLSN := Uint64 buf 8; dTxnID := Uint64 buf 16;
                  dType := ty; dTableID := Uint32 buf 25; dRowID := Uint64 buf 29;
                  dPageID := Uint32 buf 37; dSlotNum := Uint16 buf 41;
                  dBeforeImage := before; dAfterImage := after;
                  dActiveTxns := []; dDirtyPages := ∅; dUndoNextLSN := 0 |} in
      if ty =? typeByte LogRecordCheckpoint then
        if len <? offset + 4 then Err ErrOther
        else
          let checkpointLen := Uint32 buf offset in
          let offset := offset + 4 in
          if len <? offset + checkpointLen then Err ErrOther
          else
            match deserializeCheckpoint (readAt buf offset (Z.to_nat checkpointLen)) with
            | None => Panic
            | Some (txns, dpt) =>
              Ok ({| dLSN := dLSN d; dPrevLSN := dPrevLSN d; dTxnID := dTxnID d;
                     dType := ty; dTableID := dTableID d; dRowID := dRowID d;
                     dPageID := dPageID d; dSlotNum := dSlotNum d;
                     dBeforeImage := before; dAfterImage := after;
                     dActiveTxns := txns; dDirtyPages := dpt; dUndoNextLSN := 0 |},
                  offset + checkpointLen)
            end
      else if ty =? typeByte LogRecordCLR then
        if len <? offset + 8 then Err ErrOther
        else
          Ok ({| dLSN := dLSN d; dPrevLSN := dPrevLSN d; dTxnID := dTxnID d;
                 dType := ty; dTableID := dTableID d; dRowID := dRowID d;
                 dPageID := dPageID d; dSlotNum := dSlotNum d;
                 dBeforeImage := before; dAfterImage := after;
                 dActiveTxns := []; dDirtyPages := ∅;
                 dUndoNextLSN := Uint64 buf offset |}, offset + 8)
      else Ok (d, offset).

(** The bytes Append puts into the buffer for a record: the length prefix
    and the serialised record. *)
Definition frame (data : list Z) : list Z :=
  leBytes 4 (Z.of_nat (length data)) ++ data.

(** readAllRecords over the bytes of the log file after the file header.
    Each round reads a length prefix and that many bytes and stops at the end
    of the file, at an incomplete prefix or record, and at a record that
    Deserialize refuses; [None] is the panic of deserializeCheckpoint.
    Every round but the last takes at least four bytes, so the length of
    the data bounds the number of rounds. *)
Fixpoint readRecords (fuel : nat) (data : list Z) : option (list Decoded) :=
  match fuel with
  | O => Some []
  | S k =>
    if Z.of_nat (length data) <? 4 then Some []
    else
      let recordLen := Uint32 data 0 in
      if Z.of_nat (length data) <? 4 + recordLen then Some []
      else
        match Deserialize (readAt data 4 (Z.to_nat recordLen)) with
        | Ok (record, _) =>
          match readRecords k (drop (Z.to_nat (4 + recordLen)) data) with
          | Some records => Some (record :: records)
          | None => None
          end
        | Err _ => Some []
        | Panic => None
        end
  end.

Definition readAllRecords (data : list Z) : option (list Decoded) :=
  readRecords (S (length data)) data.

(** What a serialised record keeps of a record: the checkpoint tables only
    for a checkpoint, the undo-next LSN only for a CLR. *)
Definition stored (r : LogRecord) : LogRecord :=
  {| LSN := LSN r; PrevLSN := PrevLSN r; TxnID := TxnID r; Type_ := Type_ r;
     TableID := TableID r; RowID := RowID r; PageID := PageID r; SlotNum := SlotNum r;
     BeforeImage := BeforeImage r; AfterImage := AfterImage r;
     ActiveTxns := (if decide (Type_ r = LogRecordCheckpoint) then ActiveTxns r else []);
     DirtyPages := (if decide (Type_ r = LogRecordCheckpoint) then DirtyPages r else ∅);
     UndoNextLSN := (if decide (Type_ r = LogRecordCLR) then UndoNextLSN r else 0) |}.

(** The fields of a record are in the ranges of their Go types. *)
Definition record_ok (r : LogRecord) : Prop :=
  0 <= LSN r < 2 ^ 64 ∧ 0 <= PrevLSN r < 2 ^ 64 ∧ 0 <= TxnID r < 2 ^ 64 ∧
  0 <= TableID r < 2 ^ 32 ∧ 0 <= RowID r < 2 ^ 64 ∧ 0 <= PageID r < 2 ^ 32 ∧
  0 <= SlotNum r < 2 ^ 16 ∧ 0 <= UndoNextLSN r < 2 ^ 64 ∧
  Z.of_nat (length (BeforeImage r)) < 2 ^ 32 ∧
  Z.of_nat (length (AfterImage r)) < 2 ^ 32 ∧
  Forall (fun t => 0 <= t < 2 ^ 64) (ActiveTxns r) ∧
  map_Forall (fun p l => 0 <= p < 2 ^ 32 ∧ 0 <= l < 2 ^ 64) (DirtyPages r) ∧
  4 + Z.of_nat (length (ActiveTxns r)) * 8 + 4 + Z.of_nat (size (DirtyPages r)) * 12 < 2 ^ 32.

#[global] Instance record_ok_dec r : Decision (record_ok r).
Proof. unfold record_ok. apply _. Defined.

(** [data] is a serialisation of [r]: Serialize with the dirty pages
    visited in some order. *)
Definition serializes (r : LogRecord) (data : list Z) : Prop :=
  ∃ pages, pages ≡ₚ map_to_list (DirtyPages r) ∧ data = SerializeWith r pages.

(** The end of a log file that breaks off inside a length prefix or
    inside a record. *)
Definition torn (tail : list Z) : Prop :=
  Z.of_nat (length tail) < 4 ∨ Z.of_nat (length tail) < 4 + Uint32 tail 0.

#[global] Instance torn_dec tail : Decision (torn tail).
Proof. unfold torn. apply _. Defined.

End wal_codec.
(** * Facts about the byte-level encoding *)
Section bytes_facts.
Import bytes.

Lemma length_leBytes (n : nat) (v : Z) : length (leBytes n v) = n.
Proof. revert v. induction n as [|n IH]; intros v; simpl; [done|]. by rewrite IH. Qed.

Lemma leValue_leBytes (n : nat) (v : Z) :
  leValue (leBytes n v) = v mod 256 ^ Z.of_nat n.
Proof.
  revert v. induction n as [|n IH]; intros v.
  - simpl. by rewrite Z.mod_1_r.
  - cbn [leBytes leValue]. rewrite IH.
    rewrite Nat2Z.inj_succ, Z.pow_succ_r by lia.
    rewrite Z.rem_mul_r by lia. lia.
Qed.

Lemma leBytes_range (n : nat) (v b : Z) : b ∈ leBytes n v → 0 <= b < 256.
Proof.
  revert v. induction n as [|n IH]; intros v; simpl.
  - by intros ?%elem_of_nil.
  - intros [->|?]%elem_of_cons; [|by eapply IH].
    apply Z.mod_pos_bound. lia.
Qed.

Lemma length_writeAt (d : list Z) (off : Z) (src : list Z) :
  0 <= off → off + Z.of_nat (length src) <= Z.of_nat (length d) →
  length (writeAt d off src) = length d.
Proof.
  intros H0 H1. unfold writeAt.
  rewrite !length_app, length_take, length_drop. lia.
Qed.

Lemma readAt_writeAt_eq (d : list Z) (off : Z) (src : list Z) :
  0 <= off → off + Z.of_nat (length src) <= Z.of_nat (length d) →
  readAt (writeAt d off src) off (length src) = src.
Proof.
  intros H0 H1. unfold readAt, writeAt.
  rewrite drop_app_length' by (rewrite length_take; lia).
  by rewrite take_app_length.
Qed.

Lemma readAt_writeAt_before (d : list Z) (off : Z) (src : list Z) (off' : Z) (n : nat) :
  0 <= off' → off' + Z.of_nat n <= off →
  off + Z.of_nat (length src) <= Z.of_nat (length d) →
  readAt (writeAt d off src) off' n = readAt d off' n.
Proof.
  intros H0 H1 H2. unfold readAt, writeAt.
  rewrite drop_app_le by (rewrite length_take; lia).
  rewrite take_app_le by (rewrite length_drop, length_take; lia).
  rewrite <- (take_drop (Z.to_nat off) d) at 2.
  rewrite drop_app_le by (rewrite length_take; lia).
  rewrite take_app_le by (rewrite length_drop, length_take; lia).
  done.
Qed.

Lemma readAt_writeAt_after (d : list Z) (off : Z) (src : list Z) (off' : Z) (n : nat) :
  0 <= off → off + Z.of_nat (length src) <= off' →
  off + Z.of_nat (length src) <= Z.of_nat (length d) →
  readAt (writeAt d off src) off' n = readAt d off' n.
Proof.
  intros H0 H1 H2. unfold readAt, writeAt.
  rewrite app_assoc.
  rewrite drop_app_ge by (rewrite length_app, length_take; lia).
  rewrite length_app, length_take, drop_drop.
  do 2 f_equal. lia.
Qed.

Lemma writeAt_writeAt_inside (d : list Z) (a : Z) (x : list Z) (b : Z) (y : list Z) :
  0 <= a → a <= b → b + Z.of_nat (length y) <= a + Z.of_nat (length x) →
  a + Z.of_nat (length x) <= Z.of_nat (length d) →
  writeAt (writeAt d a x) b y = writeAt d a (writeAt x (b - a) y).
Proof.
  intros H0 H1 H2 H3. unfold writeAt.
  assert (Hta : length (take (Z.to_nat a) d) = Z.to_nat a) by (rewrite length_take; lia).
  rewrite take_app_ge by lia. rewrite Hta.
  rewrite take_app_le by lia.
  rewrite drop_app_ge by lia. rewrite Hta.
  rewrite drop_app_le by lia.
  rewrite !length_app, length_take, length_drop.
  rewrite <- !app_assoc. f_equal.
  replace (Z.to_nat b - Z.to_nat a)%nat with (Z.to_nat (b - a)) by lia.
  f_equal. f_equal.
  replace (Z.to_nat b + length y - Z.to_nat a)%nat with (Z.to_nat (b - a) + length y)%nat by lia.
  f_equal. f_equal. lia.
Qed.

End bytes_facts.
(** * Facts about slotted pages *)
Section page_facts.
Import types bytes storage wf.

Lemma Uint16_writeAt_eq (d : list Z) (off v : Z) :
  0 <= off → off + 2 <= Z.of_nat (length d) → 0 <= v < 65536 →
  Uint16 (PutUint16 d off v) off = v.
Proof.
  intros H0 H1 Hv. unfold Uint16, PutUint16.
  pose proof (readAt_writeAt_eq d off (leBytes 2 v)) as H.
  rewrite length_leBytes in H. rewrite H by (simpl; lia).
  rewrite leValue_leBytes. apply Z.mod_small. simpl. lia.
Qed.

Lemma Uint16_writeAt_ne (d : list Z) (off : Z) (src : list Z) (off' : Z) :
  0 <= off → 0 <= off' → off + Z.of_nat (length src) <= Z.of_nat (length d) →
  off' + 2 <= off ∨ off + Z.of_nat (length src) <= off' →
  Uint16 (writeAt d off src) off' = Uint16 d off'.
Proof.
  intros H0 H0' H1 [H|H]; unfold Uint16.
  - by rewrite readAt_writeAt_before by (simpl; lia).
  - by rewrite readAt_writeAt_after by lia.
Qed.

Lemma length_writeAt' (d : list Z) (off : Z) (src : list Z) (n : nat) :
  length d = n → 0 <= off → off + Z.of_nat (length src) <= Z.of_nat n →
  length (writeAt d off src) = n.
Proof. intros <- ??. by apply length_writeAt. Qed.

Lemma length_PutUint16 (d : list Z) (off v : Z) (n : nat) :
  length d = n → 0 <= off → off + 2 <= Z.of_nat n → length (PutUint16 d off v) = n.
Proof. intros. apply length_writeAt'; simpl; lia. Qed.

Lemma length_PutUint32 (d : list Z) (off v : Z) (n : nat) :
  length d = n → 0 <= off → off + 4 <= Z.of_nat n → length (PutUint32 d off v) = n.
Proof. intros. apply length_writeAt'; simpl; lia. Qed.

Lemma length_PutUint64 (d : list Z) (off v : Z) (n : nat) :
  length d = n → 0 <= off → off + 8 <= Z.of_nat n → length (PutUint64 d off v) = n.
Proof. intros. apply length_writeAt'; simpl; lia. Qed.

Lemma Uint16_PutUint16_ne (d : list Z) (off v off' : Z) :
  0 <= off → 0 <= off' → off + 2 <= Z.of_nat (length d) →
  off' + 2 <= off ∨ off + 2 <= off' →
  Uint16 (PutUint16 d off v) off' = Uint16 d off'.
Proof. intros. unfold PutUint16. apply Uint16_writeAt_ne; simpl; lia. Qed.

Lemma NewPage_length (id ty : Z) : length (Data (NewPage id ty)) = Z.to_nat PageSize.
Proof.
  unfold NewPage, init. cbn [Data ID Type_ LSN].
  repeat first [ apply length_PutUint16 | apply length_PutUint32
               | apply length_PutUint64 | apply length_writeAt'
               | apply length_replicate ]; unfold PageSize; simpl; lia.
Qed.


Lemma InsertTuple_PageFull (p : Page) (data : list Z) :
  FreeSpace p < Z.of_nat (length data) → InsertTuple p data = Err ErrPageFull.
Proof.
  intros H. unfold InsertTuple.
  by destruct (Z.ltb_spec (FreeSpace p) (Z.of_nat (length data))); [|lia].
Qed.

Lemma InsertTuple_effect (p : Page) (data : list Z) :
  header_ok p → Z.of_nat (length data) <= FreeSpace p →
  let n := GetSlotCount p in
  let len := Z.of_nat (length data) in
  let newEnd := GetFreeSpaceEnd p - len in
  ∃ p', InsertTuple p data = Ok (p', n) ∧
    Data p' = PutUint16 (PutUint16 (PutUint16
                (writeAt (PutUint16 (Data p) 20 newEnd) newEnd data)
                (slotPos n) newEnd) (slotPos n + 2) len) 16 (n + 1) ∧
    length (Data p') = Z.to_nat PageSize ∧
    GetFreeSpaceEnd p' = newEnd ∧
    GetFreeSpaceOffset p' = GetFreeSpaceOffset p ∧
    GetSlotCount p' = n + 1 ∧
    getSlot p' n = (newEnd, len) ∧
    IsDirty p' = true.
Proof.
  intros (Hlen & Hoff & Hend & Hn0 & Hsp) Hfit n len newEnd.
  unfold InsertTuple. fold len.
  destruct (Z.ltb_spec (FreeSpace p) len) as [Hc|_]; [lia|].
  unfold FreeSpace, slotSize in Hfit. unfold PageHeaderSize in *.
  unfold slotPos, slotSize in Hsp. unfold PageSize in *.
  assert (Hlen0 : 0 <= len) by (unfold len; lia).
  assert (HnewEnd : 32 <= newEnd <= 4096) by (unfold newEnd in *; lia).
  replace ((GetFreeSpaceEnd p - len `mod` 2 ^ 16) `mod` 2 ^ 16) with newEnd.
  2:{ unfold newEnd. unfold PageSize in Hend.
      rewrite (Z.mod_small len) by lia. rewrite Z.mod_small; lia. }
  destruct (Z.ltb_spec 4096 (GetFreeSpaceEnd p)) as [Hc|_]; [lia|].
  destruct (Z.ltb_spec (GetFreeSpaceEnd p) newEnd) as [Hc|_]; [unfold newEnd in Hc; lia|].
  cbn [orb].
  replace (Z.to_nat (GetFreeSpaceEnd p - newEnd)) with (length data) by (unfold newEnd, len; lia).
  rewrite firstn_all.
  set (d1 := PutUint16 (Data p) 20 newEnd).
  set (d2 := writeAt d1 newEnd data).
  assert (Hl1 : length d1 = Z.to_nat 4096)
    by (apply length_PutUint16; lia).
  assert (Hl2 : length d2 = Z.to_nat 4096).
  { apply length_writeAt'; [done|lia|]. fold len. unfold newEnd in *. lia. }
  assert (Hcnt : Uint16 d2 16 = n).
  { unfold d2. rewrite Uint16_writeAt_ne; [|lia|lia| |lia].
    - unfold d1. rewrite Uint16_PutUint16_ne; [done|lia|lia| |lia]. rewrite Hlen. simpl. lia.
    - rewrite Hl1. fold len. unfold newEnd in *. lia. }
  unfold GetSlotCount, setSlotCount, setSlot, setFreeSpaceEnd, withData, withDirty,
    GetFreeSpaceEnd, GetFreeSpaceOffset, getSlot in *.
  cbn [Data IsDirty].
  fold d1. fold d2. rewrite Hcnt.
  destruct (Z.ltb_spec (slotPos n) 0) as [Hc|_]; [unfold slotPos, PageSize, slotSize in Hc; lia|].
  eexists. split; [reflexivity|].
  cbn [Data IsDirty].
  rewrite (Z.mod_small len) by lia.
  rewrite (Z.mod_small (n + 1)) by lia.
  set (sp := slotPos n).
  assert (Hsp' : 28 <= sp <= 4092) by (unfold sp, slotPos, PageSize, slotSize; lia).
  set (d3 := PutUint16 d2 sp newEnd).
  set (d4 := PutUint16 d3 (sp + 2) len).
  assert (Hl3 : length d3 = Z.to_nat 4096)
    by (apply length_PutUint16; lia).
  assert (Hl4 : length d4 = Z.to_nat 4096)
    by (apply length_PutUint16; lia).
  split; [done|].
  split; [unfold PageSize; apply length_PutUint16; lia|].
  split.
  { rewrite Uint16_PutUint16_ne by lia.
    unfold d4. rewrite Uint16_PutUint16_ne by lia.
    unfold d3. rewrite Uint16_PutUint16_ne by lia.
    unfold d2. rewrite Uint16_writeAt_ne by (fold len; unfold newEnd in *; lia).
    unfold d1. rewrite Uint16_writeAt_eq; lia. }
  split.
  { rewrite Uint16_PutUint16_ne by lia.
    unfold d4. rewrite Uint16_PutUint16_ne by lia.
    unfold d3. rewrite Uint16_PutUint16_ne by lia.
    unfold d2. rewrite Uint16_writeAt_ne by (fold len; unfold newEnd in *; lia).
    unfold d1. rewrite Uint16_PutUint16_ne; [done|lia..]. }
  split.
  { rewrite Uint16_writeAt_eq; lia. }
  split; [|done].
  f_equal.
  - rewrite Uint16_PutUint16_ne by lia.
    unfold d4. rewrite Uint16_PutUint16_ne by lia.
    unfold d3. rewrite Uint16_writeAt_eq; lia.
  - rewrite Uint16_PutUint16_ne by lia.
    unfold d4. rewrite Uint16_writeAt_eq; lia.
Qed.


Lemma writeAt_writeAt_app (d : list Z) (a : Z) (x y : list Z) :
  0 <= a → a + Z.of_nat (length x) + Z.of_nat (length y) <= Z.of_nat (length d) →
  writeAt (writeAt d a x) (a + Z.of_nat (length x)) y = writeAt d a (x ++ y).
Proof.
  intros H0 H1. unfold writeAt.
  assert (Hta : length (take (Z.to_nat a) d) = Z.to_nat a) by (rewrite length_take; lia).
  replace (Z.to_nat (a + Z.of_nat (length x))) with (Z.to_nat a + length x)%nat by lia.
  rewrite !(app_assoc (take (Z.to_nat a) d) x).
  rewrite take_app_length' by (rewrite length_app; lia).
  rewrite drop_app_ge by (rewrite length_app; lia).
  rewrite length_app, Hta, drop_drop, length_app.
  rewrite <- !app_assoc. do 4 f_equal. lia.
Qed.

Lemma Uint32_PutUint32_eq (d : list Z) (off v : Z) :
  0 <= off → off + 4 <= Z.of_nat (length d) → 0 <= v < 2 ^ 32 →
  Uint32 (PutUint32 d off v) off = v.
Proof.
  intros H0 H1 Hv. unfold Uint32, PutUint32.
  pose proof (readAt_writeAt_eq d off (leBytes 4 v)) as H.
  rewrite length_leBytes in H. rewrite H by (rewrite ?length_leBytes; lia).
  rewrite leValue_leBytes. apply Z.mod_small. simpl. lia.
Qed.

Lemma NewPage_header (id ty : Z) :
  GetSlotCount (NewPage id ty) = 0 ∧
  GetFreeSpaceOffset (NewPage id ty) = PageHeaderSize ∧
  GetFreeSpaceEnd (NewPage id ty) = PageSize ∧
  GetNextPageID (NewPage id ty) = InvalidPageID.
Proof.
  unfold GetSlotCount, GetFreeSpaceOffset, GetFreeSpaceEnd, GetNextPageID, NewPage, init.
  cbn [Data ID Type_ LSN].
  set (d0 := replicate (Z.to_nat PageSize) 0).
  set (d1 := PutUint32 d0 0 id).
  set (d2 := writeAt d1 4 [ty]).
  set (d3 := PutUint64 d2 8 0).
  set (d4 := PutUint16 d3 16 0).
  set (d5 := PutUint16 d4 18 PageHeaderSize).
  set (d6 := PutUint16 d5 20 PageSize).
  assert (H0 : length d0 = Z.to_nat 4096) by apply length_replicate.
  assert (H1 : length d1 = Z.to_nat 4096) by (apply length_PutUint32; lia).
  assert (H2 : length d2 = Z.to_nat 4096) by (apply length_writeAt'; simpl; lia).
  assert (H3 : length d3 = Z.to_nat 4096) by (apply length_PutUint64; lia).
  assert (H4 : length d4 = Z.to_nat 4096) by (apply length_PutUint16; lia).
  assert (H5 : length d5 = Z.to_nat 4096) by (apply length_PutUint16; lia).
  assert (H6 : length d6 = Z.to_nat 4096) by (apply length_PutUint16; lia).
  unfold PutUint32 at 1 2 3. unfold PageHeaderSize, PageSize, InvalidPageID in *.
  rewrite !Uint16_writeAt_ne by (rewrite ?length_leBytes; lia).
  split; [|split; [|split]].
  - unfold d6. rewrite Uint16_PutUint16_ne by lia.
    unfold d5. rewrite Uint16_PutUint16_ne by lia.
    unfold d4. rewrite Uint16_writeAt_eq; lia.
  - unfold d6. rewrite Uint16_PutUint16_ne by lia.
    unfold d5. rewrite Uint16_writeAt_eq; lia.
  - unfold d6. rewrite Uint16_writeAt_eq; lia.
  - fold (PutUint32 d6 22 4294967295). rewrite Uint32_PutUint32_eq; lia.
Qed.

Lemma NewPage_header_ok (id ty : Z) : header_ok (NewPage id ty).
Proof.
  destruct (NewPage_header id ty) as (Hc & Ho & He & _).
  unfold header_ok. rewrite Hc, Ho, He, NewPage_length.
  unfold slotPos, PageSize, PageHeaderSize, slotSize. repeat split; lia.
Qed.

Lemma NewPage_FreeSpace (id ty : Z) :
  FreeSpace (NewPage id ty) = PageSize - PageHeaderSize - slotSize.
Proof.
  destruct (NewPage_header id ty) as (_ & Ho & He & _).
  unfold FreeSpace. by rewrite Ho, He.
Qed.


Lemma Uint32_writeAt_ne (d : list Z) (off : Z) (src : list Z) (off' : Z) :
  0 <= off → 0 <= off' → off + Z.of_nat (length src) <= Z.of_nat (length d) →
  off' + 4 <= off ∨ off + Z.of_nat (length src) <= off' →
  Uint32 (writeAt d off src) off' = Uint32 d off'.
Proof.
  intros H0 H0' H1 [H|H]; unfold Uint32.
  - by rewrite readAt_writeAt_before by (simpl; lia).
  - by rewrite readAt_writeAt_after by lia.
Qed.

Lemma Uint32_PutUint16_ne (d : list Z) (off v off' : Z) :
  0 <= off → 0 <= off' → off + 2 <= Z.of_nat (length d) →
  off' + 4 <= off ∨ off + 2 <= off' →
  Uint32 (PutUint16 d off v) off' = Uint32 d off'.
Proof. intros. unfold PutUint16. apply Uint32_writeAt_ne; simpl; lia. Qed.

Lemma NewPage_ID (id ty : Z) : ID (NewPage id ty) = id.
Proof. done. Qed.

Lemma NewPage_id_field (id ty : Z) :
  0 <= id < 2 ^ 32 → Uint32 (Data (NewPage id ty)) 0 = id.
Proof.
  intros Hid. unfold NewPage, init. cbn [Data ID Type_ LSN].
  set (d0 := replicate (Z.to_nat PageSize) 0).
  set (d1 := PutUint32 d0 0 id).
  set (d2 := writeAt d1 4 [ty]).
  set (d3 := PutUint64 d2 8 0).
  set (d4 := PutUint16 d3 16 0).
  set (d5 := PutUint16 d4 18 PageHeaderSize).
  set (d6 := PutUint16 d5 20 PageSize).
  assert (H0 : length d0 = Z.to_nat 4096) by apply length_replicate.
  assert (H1 : length d1 = Z.to_nat 4096) by (apply length_PutUint32; lia).
  assert (H2 : length d2 = Z.to_nat 4096) by (apply length_writeAt'; simpl; lia).
  assert (H3 : length d3 = Z.to_nat 4096) by (apply length_PutUint64; lia).
  assert (H4 : length d4 = Z.to_nat 4096) by (apply length_PutUint16; lia).
  assert (H5 : length d5 = Z.to_nat 4096) by (apply length_PutUint16; lia).
  assert (H6 : length d6 = Z.to_nat 4096) by (apply length_PutUint16; lia).
  unfold PutUint32 at 1.
  rewrite Uint32_writeAt_ne by (rewrite ?length_leBytes; lia).
  unfold d6. rewrite Uint32_PutUint16_ne by lia.
  unfold d5. rewrite Uint32_PutUint16_ne by lia.
  unfold d4. rewrite Uint32_PutUint16_ne by lia.
  unfold d3, PutUint64. rewrite Uint32_writeAt_ne by (rewrite ?length_leBytes; lia).
  unfold d2. rewrite Uint32_writeAt_ne by (simpl; lia).
  unfold d1. apply Uint32_PutUint32_eq; lia.
Qed.


(** InsertTuple leaves the page id and the next-page-id field alone. *)
Lemma InsertTuple_frame (p p' : Page) (data : list Z) (slot : Z) :
  header_ok p → InsertTuple p data = Ok (p', slot) →
  length (Data p') = Z.to_nat PageSize ∧ ID p' = ID p ∧ IsDirty p' = true ∧
  Uint32 (Data p') 0 = Uint32 (Data p) 0 ∧
  Uint32 (Data p') 22 = Uint32 (Data p) 22.
Proof.
  intros Hok Hi.
  destruct (Z.lt_ge_cases (FreeSpace p) (Z.of_nat (length data))) as [Hlt|Hge].
  { rewrite InsertTuple_PageFull in Hi by done. done. }
  destruct (InsertTuple_effect p data Hok Hge) as (p'' & Hi' & Hd & Hl & _ & _ & _ & _ & Hdirty).
  rewrite Hi in Hi'. injection Hi' as <- _.
  assert (HID : ID p' = ID p).
  { revert Hi. unfold InsertTuple. repeat case_match; try done. by intros [= <- _]. }
  split; [done|]. split; [done|]. split; [done|].
  destruct Hok as (Hlen & Hoff & Hend & Hn0 & Hsp).
  unfold FreeSpace, PageHeaderSize, slotPos, PageSize, slotSize in *.
  set (n := GetSlotCount p) in *. set (len := Z.of_nat (length data)) in *.
  set (newEnd := GetFreeSpaceEnd p - len) in *.
  assert (HnewEnd : 32 <= newEnd <= 4096) by (unfold newEnd; lia).
  set (d1 := PutUint16 (Data p) 20 newEnd) in *.
  set (d2 := writeAt d1 newEnd data) in *.
  assert (Hsp' : 4096 - (n + 1) * 4 <= 4092) by lia.
  set (sp := 4096 - (n + 1) * 4) in *.
  set (d3 := PutUint16 d2 sp newEnd) in *.
  set (d4 := PutUint16 d3 (sp + 2) len) in *.
  assert (Hl1 : length d1 = Z.to_nat 4096) by (apply length_PutUint16; lia).
  assert (Hl2 : length d2 = Z.to_nat 4096).
  { apply length_writeAt'; [done|lia|]. fold len. unfold newEnd in *. lia. }
  assert (Hl3 : length d3 = Z.to_nat 4096) by (apply length_PutUint16; lia).
  assert (Hl4 : length d4 = Z.to_nat 4096) by (apply length_PutUint16; lia).
  rewrite Hd.
  split.
  - rewrite Uint32_PutUint16_ne by lia.
    unfold d4. rewrite Uint32_PutUint16_ne by lia.
    unfold d3. rewrite Uint32_PutUint16_ne by lia.
    unfold d2. rewrite Uint32_writeAt_ne by (fold len; unfold newEnd in *; lia).
    unfold d1. rewrite Uint32_PutUint16_ne; [done|lia..].
  - rewrite Uint32_PutUint16_ne by lia.
    unfold d4. rewrite Uint32_PutUint16_ne by lia.
    unfold d3. rewrite Uint32_PutUint16_ne by lia.
    unfold d2. rewrite Uint32_writeAt_ne by (fold len; unfold newEnd in *; lia).
    unfold d1. rewrite Uint32_PutUint16_ne; [done|lia..].
Qed.

(** A failed InsertTuple is PageFull. *)
Lemma InsertTuple_Err (p : Page) (data : list Z) (e : error) :
  InsertTuple p data = Err e → e = ErrPageFull.
Proof. unfold InsertTuple. repeat case_match; congruence. Qed.


End page_facts.
(** * Facts about the buffer pool: it is a transparent cache *)
Section buffer_facts.
Import types bytes storage storage_io wf.

Lemma Deserialize_Data (img : list Z) :
  length img = Z.to_nat PageSize → Data (Deserialize img) = img.
Proof.
  intros Hlen. unfold Deserialize. cbn [Data]. unfold copyAt, writeAt.
  rewrite length_replicate. change (Z.to_nat 0) with 0%nat.
  rewrite Nat.sub_0_r, take_0, app_nil_l, Nat.add_0_l.
  rewrite take_ge by lia. rewrite drop_ge by (rewrite length_replicate; lia).
  apply app_nil_r.
Qed.

Lemma Serialize_full (p : Page) :
  length (Data p) = Z.to_nat PageSize → Serialize p = Data p.
Proof. intros Hlen. unfold Serialize. apply take_ge. lia. Qed.

Lemma coherent_cached (bp : BufferPool.t) (q : Z) (p : Page) :
  coherent bp → BufferPool.pages bp !! q = Some p →
  cached_ok (BufferPool.diskManager bp) q p.
Proof. intros [Hc _] Hl. by apply (map_Forall_lookup_1 _ _ _ _ Hc Hl). Qed.

Lemma coherent_image (bp : BufferPool.t) (q : Z) :
  coherent bp → 0 <= q < DiskManager.numPages (BufferPool.diskManager bp) →
  ∃ img, DiskManager.file (BufferPool.diskManager bp) !! q = Some img ∧
         length img = Z.to_nat PageSize ∧ Uint32 img 0 = q.
Proof.
  intros [_ Hd] Hq. rewrite Forall_forall in Hd.
  specialize (Hd q). unfold image_ok in Hd.
  destruct (DiskManager.file (BufferPool.diskManager bp) !! q) as [img|].
  - exists img. split; [done|]. apply Hd. apply elem_of_seqZ. lia.
  - exfalso. apply Hd. apply elem_of_seqZ. lia.
Qed.

Lemma ReadPage_coherent (bp : BufferPool.t) (q : Z) (p : Page) :
  coherent bp → 0 <= q →
  DiskManager.ReadPage (BufferPool.diskManager bp) q = Some p →
  cached_ok (BufferPool.diskManager bp) q p ∧ IsDirty p = false.
Proof.
  intros Hc Hq. unfold DiskManager.ReadPage.
  destruct (Z.leb_spec (DiskManager.numPages (BufferPool.diskManager bp)) q) as [|Hlt]; [done|].
  intros [= <-].
  destruct (coherent_image bp q Hc) as (img & Hf & Hlen & Hid); [lia|].
  rewrite Hf. change (default _ (Some img)) with img.
  split; [|done]. unfold cached_ok.
  pose proof (Deserialize_Data img Hlen) as HD.
  assert (HI : ID (Deserialize img) = Uint32 (Data (Deserialize img)) 0) by done.
  rewrite HI, HD. repeat split; try done; lia.
Qed.

(** The state an eviction leaves: one unpinned page [v] left the cache,
    written to the file first if it was dirty. *)
Lemma evictScan_Done (bp bp' : BufferPool.t) (cands : list Z) :
  BufferPool.evictScan bp cands = Done bp' tt →
  ∃ v pv, BufferPool.pages bp !! v = Some pv ∧
    BufferPool.pages bp' = delete v (BufferPool.pages bp) ∧
    BufferPool.diskManager bp' =
      (if IsDirty pv then DiskManager.WritePage (BufferPool.diskManager bp) pv
       else BufferPool.diskManager bp) ∧
    BufferPool.capacity bp' = BufferPool.capacity bp.
Proof.
  induction cands as [|c cands IH]; simpl; [done|].
  destruct (BufferPool.pages bp !! c) as [pc|] eqn:Hc; [|done].
  destruct (PinCount pc =? 0); [|exact IH].
  intros [= <-]. by exists c, pc.
Qed.

Lemma evicted_coherent (bp bp' : BufferPool.t) (v : Z) (pv : Page) :
  coherent bp →
  BufferPool.pages bp !! v = Some pv →
  BufferPool.pages bp' = delete v (BufferPool.pages bp) →
  BufferPool.diskManager bp' =
    (if IsDirty pv then DiskManager.WritePage (BufferPool.diskManager bp) pv
     else BufferPool.diskManager bp) →
  coherent bp' ∧ (∀ q, content bp' q = content bp q) ∧
  DiskManager.numPages (BufferPool.diskManager bp') =
    DiskManager.numPages (BufferPool.diskManager bp).
Proof.
  intros Hc Hv Hp Hd.
  destruct (coherent_cached bp v pv Hc Hv) as (Hlen & Hid & Hu & Hrange & Hclean).
  assert (Hfile : DiskManager.file (BufferPool.diskManager bp') !! v = Some (Data pv)).
  { rewrite Hd. destruct (IsDirty pv); [|by apply Hclean].
    unfold DiskManager.WritePage. cbn [DiskManager.file].
    rewrite Hid, lookup_insert_eq. by rewrite Serialize_full. }
  assert (Hother : ∀ q, q ≠ v →
    DiskManager.file (BufferPool.diskManager bp') !! q =
    DiskManager.file (BufferPool.diskManager bp) !! q).
  { intros q Hq. rewrite Hd. destruct (IsDirty pv); [|done].
    unfold DiskManager.WritePage. cbn [DiskManager.file].
    rewrite Hid. by rewrite lookup_insert_ne. }
  assert (Hnum : DiskManager.numPages (BufferPool.diskManager bp') =
                 DiskManager.numPages (BufferPool.diskManager bp)).
  { rewrite Hd. by destruct (IsDirty pv). }
  split; [|split; [|done]].
  - split.
    + apply map_Forall_lookup. intros q p Hq. rewrite Hp in Hq.
      apply lookup_delete_Some in Hq as [Hne Hq].
      destruct (coherent_cached bp q p Hc Hq) as (? & ? & ? & ? & Hcl).
      unfold cached_ok. rewrite Hnum, Hother by done. done.
    + rewrite Hnum. apply Forall_forall. intros q Hq.
      unfold image_ok. destruct (decide (q = v)) as [->|Hne].
      * by rewrite Hfile.
      * rewrite Hother by done. destruct Hc as [_ Hi].
        rewrite Forall_forall in Hi. by apply Hi.
  - intros q. unfold content. rewrite Hp.
    destruct (decide (q = v)) as [->|Hne].
    + rewrite lookup_delete_eq, Hv. unfold DiskManager.ReadPage. rewrite Hnum.
      destruct (Z.leb_spec (DiskManager.numPages (BufferPool.diskManager bp)) v); [lia|].
      rewrite Hfile. change (default _ (Some (Data pv))) with (Data pv).
      cbn [fmap option_fmap option_map]. by rewrite Deserialize_Data.
    + rewrite lookup_delete_ne by done.
      destruct (BufferPool.pages bp !! q); [done|].
      unfold DiskManager.ReadPage. by rewrite Hnum, Hother.
Qed.

Lemma makeRoom_coherent (bp bp' : BufferPool.t) :
  coherent bp → BufferPool.makeRoom bp = Done bp' tt →
  coherent bp' ∧ (∀ q, content bp' q = content bp q) ∧
  DiskManager.numPages (BufferPool.diskManager bp') =
    DiskManager.numPages (BufferPool.diskManager bp) ∧
  (∀ q p, BufferPool.pages bp' !! q = Some p → BufferPool.pages bp !! q = Some p).
Proof.
  intros Hc. unfold BufferPool.makeRoom, BufferPool.evictOne.
  destruct (BufferPool.capacity bp <=? Z.of_nat (size (BufferPool.pages bp))).
  - intros Hev. apply evictScan_Done in Hev as (v & pv & Hv & Hp & Hd & _).
    destruct (evicted_coherent bp bp' v pv Hc Hv Hp Hd) as (? & ? & ?).
    split; [done|]. split; [done|]. split; [done|].
    intros q p. rewrite Hp. by intros [_ ?]%lookup_delete_Some.
  - intros [= <-]. done.
Qed.


Lemma coherent_ext (bp bp' : BufferPool.t) :
  BufferPool.diskManager bp' = BufferPool.diskManager bp →
  BufferPool.pages bp' = BufferPool.pages bp →
  coherent bp → coherent bp' ∧ (∀ q, content bp' q = content bp q).
Proof.
  intros Hd Hp Hc. unfold coherent, content. rewrite Hd, Hp. done.
Qed.

Lemma setPage_coherent (bp : BufferPool.t) (q : Z) (p' : Page) :
  coherent bp → cached_ok (BufferPool.diskManager bp) q p' →
  coherent (BufferPool.setPage bp q p') ∧
  content (BufferPool.setPage bp q p') q = Some (Data p') ∧
  (∀ q', q' ≠ q → content (BufferPool.setPage bp q p') q' = content bp q').
Proof.
  intros [Hc Hi] Hok. unfold BufferPool.setPage, BufferPool.withPages, coherent, content.
  cbn [BufferPool.pages BufferPool.diskManager].
  split; [split; [|done]|split].
  - by apply map_Forall_insert_2.
  - by rewrite lookup_insert_eq.
  - intros q' Hne. by rewrite lookup_insert_ne.
Qed.

(** Replacing a cached page by one with the same bytes and id that is
    at least as dirty changes nothing the pool presents. *)
Lemma setPage_same (bp : BufferPool.t) (q : Z) (p p' : Page) :
  coherent bp → BufferPool.pages bp !! q = Some p →
  Data p' = Data p → ID p' = ID p → (IsDirty p' = false → IsDirty p = false) →
  coherent (BufferPool.setPage bp q p') ∧
  (∀ q', content (BufferPool.setPage bp q p') q' = content bp q').
Proof.
  intros Hc Hq HD HI Hdirty.
  destruct (coherent_cached bp q p Hc Hq) as (Hlen & Hid & Hu & Hrange & Hclean).
  destruct (setPage_coherent bp q p' Hc) as (Hc' & Hq' & Hother).
  { unfold cached_ok. rewrite HD, HI. repeat split; try done; try lia. auto. }
  split; [done|]. intros q'. destruct (decide (q' = q)) as [->|Hne]; [|by apply Hother].
  rewrite Hq'. unfold content. by rewrite Hq, HD.
Qed.

Lemma evictScan_Fail (bp bp' : BufferPool.t) (cands : list Z) :
  BufferPool.evictScan bp cands = Fail bp' → bp' = bp.
Proof.
  induction cands as [|c cands IH]; simpl; [by intros [= <-]|].
  destruct (BufferPool.pages bp !! c) as [pc|]; [|done].
  by destruct (PinCount pc =? 0).
Qed.

Lemma FetchPage_coherent (bp bp' : BufferPool.t) (q : Z) (p : Page) :
  coherent bp → 0 <= q → BufferPool.FetchPage bp q = Done bp' p →
  coherent bp' ∧ (∀ q', content bp' q' = content bp q') ∧
  BufferPool.pages bp' !! q = Some p ∧ content bp q = Some (Data p) ∧
  ID p = q ∧ length (Data p) = Z.to_nat PageSize ∧
  DiskManager.numPages (BufferPool.diskManager bp') =
    DiskManager.numPages (BufferPool.diskManager bp).
Proof.
  intros Hc Hq0. unfold BufferPool.FetchPage.
  destruct (BufferPool.pages bp !! q) as [page|] eqn:Hq.
  - intros [= <- <-].
    destruct (coherent_cached bp q page Hc Hq) as (Hlen & Hid & Hu & Hrange & Hclean).
    set (bp1 := BufferPool.touchLRU _ q).
    assert (Hd1 : BufferPool.diskManager bp1 = BufferPool.diskManager bp).
    { unfold bp1, BufferPool.touchLRU. by destruct (decide _). }
    assert (Hp1 : BufferPool.pages bp1 = BufferPool.pages bp).
    { unfold bp1, BufferPool.touchLRU. by destruct (decide _). }
    destruct (coherent_ext bp bp1 Hd1 Hp1 Hc) as [Hc1 Hcont1].
    destruct (setPage_same bp1 q page (withPin page (PinCount page + 1)) Hc1) as [Hc2 Hcont2];
      try done; [by rewrite Hp1|].
    split; [done|]. split; [intros q'; by rewrite Hcont2, Hcont1|].
    split; [by cbn; rewrite lookup_insert_eq|].
    split; [by unfold content; rewrite Hq|].
    cbn [BufferPool.setPage BufferPool.withPages BufferPool.diskManager].
    by rewrite Hd1.
  - set (bp1 := BufferPool.mk _ _ _ _ _ _).
    destruct (DiskManager.ReadPage (BufferPool.diskManager bp1) q) as [page|] eqn:Hr; [|done].
    change (BufferPool.diskManager bp1) with (BufferPool.diskManager bp) in Hr.
    destruct (coherent_ext bp bp1 eq_refl eq_refl Hc) as [Hc1 Hcont1].
    destruct (BufferPool.makeRoom bp1) as [bp2 []| |] eqn:Hm; [|done|done].
    intros [= <- <-].
    destruct (makeRoom_coherent bp1 bp2 Hc1 Hm) as (Hc2 & Hcont2 & Hn2 & Hsub).
    destruct (ReadPage_coherent bp1 q page Hc1 Hq0 Hr) as [(Hlen & Hid & Hu & Hrange & _) Hcl].
    assert (Hq2 : BufferPool.pages bp2 !! q = None).
    { destruct (BufferPool.pages bp2 !! q) as [x|] eqn:Hx; [|done].
      apply Hsub in Hx. cbn in Hx. congruence. }
    assert (Hr2 : ∃ page2, DiskManager.ReadPage (BufferPool.diskManager bp2) q = Some page2 ∧
                           Data page2 = Data page).
    { pose proof (Hcont2 q) as Hcq. unfold content in Hcq. rewrite Hq2 in Hcq.
      unfold content in Hcont1. change (BufferPool.pages bp1) with (BufferPool.pages bp) in Hcq.
      change (BufferPool.diskManager bp1) with (BufferPool.diskManager bp) in Hcq.
      rewrite Hq, Hr in Hcq.
      destruct (DiskManager.ReadPage (BufferPool.diskManager bp2) q) as [page2|]; [|done].
      exists page2. split; [done|]. by injection Hcq. }
    destruct Hr2 as (page2 & Hr2 & HD2).
    destruct (ReadPage_coherent bp2 q page2 Hc2 Hq0 Hr2) as [(_ & _ & _ & _ & Hcl2) Hd2].
    destruct (setPage_coherent bp2 q (withPin page 1) Hc2) as (Hc3 & Hq3 & Hother3).
    { unfold cached_ok. cbn [withPin Data ID IsDirty]. rewrite Hn2.
      repeat split; try done; try lia. intros _. rewrite <- HD2. by apply Hcl2. }
    set (bp3 := BufferPool.setPage bp2 q (withPin page 1)) in *.
    destruct (coherent_ext bp3 (BufferPool.addToLRU bp3 q) eq_refl eq_refl Hc3) as [Hc4 Hcont4].
    split; [done|].
    split.
    { intros q'. rewrite Hcont4. destruct (decide (q' = q)) as [->|Hne].
      - rewrite Hq3. unfold content. by rewrite Hq, Hr.
      - rewrite Hother3 by done. by rewrite Hcont2, Hcont1. }
    split; [by cbn; rewrite lookup_insert_eq|].
    split; [by unfold content; rewrite Hq, Hr|].
    split; [done|]. split; [done|]. exact Hn2.
Qed.

Lemma FetchPage_Fail_coherent (bp bp' : BufferPool.t) (q : Z) :
  coherent bp → BufferPool.FetchPage bp q = Fail bp' →
  coherent bp' ∧ (∀ q', content bp' q' = content bp q').
Proof.
  intros Hc. unfold BufferPool.FetchPage.
  destruct (BufferPool.pages bp !! q) as [page|] eqn:Hq; [done|].
  set (bp1 := BufferPool.mk _ _ _ _ _ _).
  destruct (coherent_ext bp bp1 eq_refl eq_refl Hc) as [Hc1 Hcont1].
  destruct (DiskManager.ReadPage (BufferPool.diskManager bp1) q) as [page|] eqn:Hr.
  - destruct (BufferPool.makeRoom bp1) as [bp2 []|bp2|] eqn:Hm; [done| |done].
    intros [= <-]. unfold BufferPool.makeRoom, BufferPool.evictOne in Hm.
    destruct (_ <=? _) in Hm; [|done].
    apply evictScan_Fail in Hm. by subst bp2.
  - by intros [= <-].
Qed.

Lemma UnpinPage_coherent (bp : BufferPool.t) (q : Z) (d : bool) :
  coherent bp →
  coherent (BufferPool.UnpinPage bp q d) ∧
  (∀ q', content (BufferPool.UnpinPage bp q d) q' = content bp q') ∧
  DiskManager.numPages (BufferPool.diskManager (BufferPool.UnpinPage bp q d)) =
    DiskManager.numPages (BufferPool.diskManager bp).
Proof.
  intros Hc. unfold BufferPool.UnpinPage.
  destruct (BufferPool.pages bp !! q) as [page|] eqn:Hq; [|done].
  set (page1 := if d then withDirty page true else page).
  set (page2 := if 0 <? PinCount page1 then withPin page1 (PinCount page1 - 1) else page1).
  assert (H2 : Data page2 = Data page ∧ ID page2 = ID page ∧
               (IsDirty page2 = false → IsDirty page = false)).
  { unfold page2, page1. destruct d, (0 <? _); cbn; done. }
  destruct H2 as (HD & HI & Hdirty).
  destruct (setPage_same bp q page page2 Hc Hq HD HI Hdirty) as [Hc' Hcont'].
  done.
Qed.


Lemma NewPage_coherent (bp bp' : BufferPool.t) (ty : Z) (p : Page) :
  coherent bp →
  0 <= DiskManager.numPages (BufferPool.diskManager bp) < 2 ^ 32 - 1 →
  BufferPool.NewPage bp ty = Done bp' p →
  let id := DiskManager.numPages (BufferPool.diskManager bp) in
  ID p = id ∧ Data p = Data (storage.NewPage id ty) ∧
  coherent bp' ∧ BufferPool.pages bp' !! id = Some p ∧
  content bp id = None ∧
  (∀ q, q ≠ id → content bp' q = content bp q) ∧
  DiskManager.numPages (BufferPool.diskManager bp') = id + 1.
Proof.
  intros Hc Hn. unfold BufferPool.NewPage, DiskManager.AllocatePage.
  set (id := DiskManager.numPages (BufferPool.diskManager bp)) in *.
  set (dm1 := DiskManager.mk _ _).
  set (bp1 := BufferPool.mk dm1 _ _ _ _ _).
  assert (Hn1 : DiskManager.numPages dm1 = id + 1).
  { unfold dm1. cbn. rewrite Z.mod_small; lia. }
  assert (Hf1 : ∀ q, q ≠ id → DiskManager.file dm1 !! q =
                               DiskManager.file (BufferPool.diskManager bp) !! q).
  { intros q Hq. unfold dm1. cbn. by rewrite lookup_insert_ne. }
  assert (Hc1 : coherent bp1).
  { split; cbn [BufferPool.diskManager BufferPool.pages bp1].
    - apply map_Forall_lookup. intros q p0 Hq.
      destruct (coherent_cached bp q p0 Hc Hq) as (? & ? & ? & ? & Hcl).
      unfold cached_ok. rewrite Hn1, Hf1 by (fold id in H2; lia).
      repeat split; try done; lia.
    - rewrite Hn1. apply Forall_forall. intros q Hq%elem_of_seqZ.
      unfold image_ok. destruct (decide (q = id)) as [->|Hne].
      + unfold dm1. cbn. rewrite lookup_insert_eq.
        rewrite Serialize_full by apply NewPage_length.
        split; [apply NewPage_length|apply NewPage_id_field; lia].
      + rewrite Hf1 by done.
        destruct (coherent_image bp q Hc) as (img & -> & ? & ?); [fold id; lia|done]. }
  assert (Hcont1 : ∀ q, q ≠ id → content bp1 q = content bp q).
  { intros q Hq. unfold content. cbn [BufferPool.pages BufferPool.diskManager bp1].
    destruct (BufferPool.pages bp !! q); [done|].
    unfold DiskManager.ReadPage. rewrite Hn1, Hf1 by done. fold id.
    destruct (Z.leb_spec (id + 1) q), (Z.leb_spec id q); try done; lia. }
  assert (Hnot : BufferPool.pages bp !! id = None).
  { destruct (BufferPool.pages bp !! id) as [p0|] eqn:Hq; [|done].
    destruct (coherent_cached bp id p0 Hc Hq) as (_ & _ & _ & ? & _). fold id in H. lia. }
  destruct (BufferPool.makeRoom bp1) as [bp2 []| |] eqn:Hm; [|done|done].
  intros [= <- <-].
  destruct (makeRoom_coherent bp1 bp2 Hc1 Hm) as (Hc2 & Hcont2 & Hn2 & Hsub).
  set (page := withPin (withDirty (storage.NewPage id ty) true) 1).
  destruct (setPage_coherent bp2 id page Hc2) as (Hc3 & Hq3 & Hother3).
  { unfold cached_ok, page. cbn [withPin withDirty Data ID IsDirty].
    rewrite Hn2. cbn [BufferPool.diskManager bp1]. rewrite Hn1.
    split; [apply NewPage_length|]. split; [done|].
    split; [apply NewPage_id_field; lia|]. split; [lia|done]. }
  set (bp3 := BufferPool.setPage bp2 id page) in *.
  destruct (coherent_ext bp3 (BufferPool.addToLRU bp3 id) eq_refl eq_refl Hc3) as [Hc4 Hcont4].
  cbn zeta. split; [done|]. split; [done|]. split; [done|].
  split; [by cbn; rewrite lookup_insert_eq|].
  split.
  { unfold content. rewrite Hnot. unfold DiskManager.ReadPage. fold id.
    by rewrite Z.leb_refl. }
  split.
  { intros q Hq. rewrite Hcont4, Hother3 by done. rewrite Hcont2. by apply Hcont1. }
  cbn [BufferPool.addToLRU BufferPool.diskManager bp3 BufferPool.setPage BufferPool.withPages].
  by rewrite Hn2.
Qed.

End buffer_facts.
(** * Properties *)

(** ** MVCC visibility (internal/txn) *)
Section visibility.
Import types txn.

Lemma elem_of_active_set (s : Snapshot) (t : Z) :
  t ∈ active_set s ↔ activeFlag s t = true.
Proof.
  unfold active_set, activeFlag. rewrite elem_of_dom. split.
  - intros [b Hb]. apply map_lookup_filter_Some in Hb as [Hl Hb].
    simpl in Hb. subst b. by rewrite Hl.
  - destruct (ActiveTxns s !! t) as [b|] eqn:Hl; simpl; [|done].
    intros ->. exists true. by apply map_lookup_filter_Some.
Qed.

Lemma isTxnVisible_spec (s : Snapshot) (t : Z) :
  isTxnVisible s t = true ↔ spec_txn_visible s t.
Proof.
  unfold isTxnVisible, spec_txn_visible, InvalidTxnID.
  rewrite elem_of_active_set.
  destruct (Z.eqb_spec t 0) as [->|Hne].
  - split; [done | by intros [? _]].
  - destruct (Z.leb_spec (Xmax s) t) as [Hle|Hlt].
    + split; [done | intros (_ & ? & _); lia].
    + destruct (activeFlag s t); split; try done; try by intros (_ & _ & ?).
Qed.

Lemma isTxnVisible_spec_false (s : Snapshot) (t : Z) :
  isTxnVisible s t = false ↔ ¬ spec_txn_visible s t.
Proof.
  rewrite <- isTxnVisible_spec. destruct (isTxnVisible s t); split; try done.
Qed.

(** C1. A TxnID t is visible to a snapshot S iff t ≠ 0, t < S.xmax and t
    is not in S's active set; a tuple T is visible to S iff T.xmin is
    visible and (T.xmax = 0 or T.xmax is not visible).  isTxnVisible and
    IsVisible compute exactly these two predicates. *)
Theorem C1_visibility_algebra (s : Snapshot) (t : Z) (T : Tuple) :
  (isTxnVisible s t = true ↔ spec_txn_visible s t) ∧
  (IsVisible s T = true ↔ spec_tuple_visible s T).
Proof.
  split; [apply isTxnVisible_spec|].
  unfold IsVisible, spec_tuple_visible, InvalidTxnID.
  rewrite <- isTxnVisible_spec, <- isTxnVisible_spec_false.
  destruct (isTxnVisible s (XMin T)); simpl.
  - destruct (Z.eqb_spec (XMax T) 0) as [->|Hne].
    + split; auto.
    + destruct (isTxnVisible s (XMax T)); split; auto.
      intros [_ [?|?]]; done.
  - split; [done | by intros [? _]].
Qed.

End visibility.

(** ** Transaction begin (internal/txn) *)
Section begin_snapshot.
Import types txn.

Lemma createSnapshot_fold_Xmax (ids : list Z) (snap0 : Snapshot) :
  Xmax (foldl (fun snap txnID =>
             {| Xmin := (if txnID <? Xmin snap then txnID else Xmin snap);
                Xmax := Xmax snap;
                ActiveTxns := <[txnID := true]> (ActiveTxns snap) |})
          snap0 ids) = Xmax snap0.
Proof.
  revert snap0. induction ids as [|i ids IH]; intros snap0; simpl; [done|].
  by rewrite IH.
Qed.

Lemma createSnapshotLocked_Xmax (m : Manager) :
  Xmax (createSnapshotLocked m) = nextTxnID m.
Proof.
  unfold createSnapshotLocked.
  match goal with |- context [foldl ?f ?s0 ?l] =>
    pose proof (createSnapshot_fold_Xmax l s0) as H;
    destruct (Xmin (foldl f s0 l) =? MaxTxnID) end; simpl; exact H.
Qed.

Lemma Begin_ID (m : Manager) : ID (Begin m).2 = (nextTxnID m + 1) mod 2 ^ 64.
Proof. unfold Begin. by destruct (walWriter m) as [w|]. Qed.

Lemma Begin_Snapshot (m : Manager) :
  Snapshot_ (Begin m).2 =
  createSnapshotLocked {| nextTxnID := (nextTxnID m + 1) mod 2 ^ 64;
                          activeTxns := activeTxns m; walWriter := walWriter m;
                          globalXmin := globalXmin m |}.
Proof. unfold Begin. by destruct (walWriter m) as [w|]. Qed.

Lemma Begin_nextTxnID (m : Manager) :
  nextTxnID (Begin m).1 = (nextTxnID m + 1) mod 2 ^ 64.
Proof. unfold Begin. by destruct (walWriter m) as [w|]. Qed.

(** C6 (what Begin does). The snapshot of a beginning transaction has
    xmax equal to the transaction's own id, not to the id the next Begin
    will hand out; so the transaction's id is not below its snapshot's
    xmax, the transaction is not visible to itself, and a tuple it inserts
    (xmin = its id) is invisible to its own snapshot. *)
Theorem C6_Begin_xmax_is_own_id (m : Manager) :
  let txn := (Begin m).2 in
  Xmax (Snapshot_ txn) = ID txn ∧
  ID (Begin (Begin m).1).2 = (Xmax (Snapshot_ txn) + 1) mod 2 ^ 64 ∧
  isTxnVisible (Snapshot_ txn) (ID txn) = false ∧
  ∀ tuple : Tuple, XMin tuple = ID txn → IsVisible (Snapshot_ txn) tuple = false.
Proof.
  simpl.
  assert (HX : Xmax (Snapshot_ (Begin m).2) = ID (Begin m).2).
  { by rewrite Begin_Snapshot, createSnapshotLocked_Xmax, Begin_ID. }
  assert (HV : isTxnVisible (Snapshot_ (Begin m).2) (ID (Begin m).2) = false).
  { unfold isTxnVisible. rewrite HX.
    destruct (ID (Begin m).2 =? InvalidTxnID); [done|].
    by rewrite Z.leb_refl. }
  repeat split; [done | | done |].
  - by rewrite Begin_ID, Begin_nextTxnID, HX, Begin_ID.
  - intros tuple Hmin. unfold IsVisible. by rewrite Hmin, HV.
Qed.

(** The first transaction of a fresh manager: id 2, snapshot xmax 2. *)
Example C6_first_Begin :
  let txn := (Begin (NewManager None)).2 in
  ID txn = 2 ∧ Xmax (Snapshot_ txn) = 2 ∧
  IsVisible (Snapshot_ txn)
    {| XMin := ID txn; XMax := 0; Cid := 1; TableID := 1; RowID := 0; Data := [] |} = false.
Proof. vm_compute. done. Qed.

End begin_snapshot.

(** ** Slotted pages (internal/storage/page.go) *)
Section slotted_page.
Import types bytes storage wf.

(** C7 (what InsertTuple does). On a page with a sound header, insert
    fails with PageFull exactly when free-end − free-begin − 4 < |data|;
    otherwise it returns the old slot count as slot number, appends the
    slot (free-end − |data|, |data|) and lowers free-space-end by |data|.
    The free-space-begin field is left as it was: it is not raised by 4. *)
Theorem C7_InsertTuple_effect (p : Page) (data : list Z) :
  header_ok p →
  let len := Z.of_nat (length data) in
  (InsertTuple p data = Err ErrPageFull ↔
   GetFreeSpaceEnd p - GetFreeSpaceOffset p - 4 < len) ∧
  (len <= GetFreeSpaceEnd p - GetFreeSpaceOffset p - 4 →
   ∃ p', InsertTuple p data = Ok (p', GetSlotCount p) ∧
         getSlot p' (GetSlotCount p) = (GetFreeSpaceEnd p - len, len) ∧
         GetSlotCount p' = GetSlotCount p + 1 ∧
         GetFreeSpaceEnd p' = GetFreeSpaceEnd p - len ∧
         GetFreeSpaceOffset p' = GetFreeSpaceOffset p).
Proof.
  intros Hok len.
  assert (Hfit : len <= GetFreeSpaceEnd p - GetFreeSpaceOffset p - 4 →
     ∃ p', InsertTuple p data = Ok (p', GetSlotCount p) ∧
         getSlot p' (GetSlotCount p) = (GetFreeSpaceEnd p - len, len) ∧
         GetSlotCount p' = GetSlotCount p + 1 ∧
         GetFreeSpaceEnd p' = GetFreeSpaceEnd p - len ∧
         GetFreeSpaceOffset p' = GetFreeSpaceOffset p).
  { intros Hle.
    destruct (InsertTuple_effect p data Hok Hle) as (p' & Hi & _ & _ & He & Ho & Hc & Hs & _).
    exists p'. by repeat split. }
  split; [|exact Hfit].
  split.
  - intros Herr.
    destruct (Z.lt_ge_cases (GetFreeSpaceEnd p - GetFreeSpaceOffset p - 4) len) as [|Hge];
      [done|].
    destruct (Hfit Hge) as (p' & Hi & _). congruence.
  - apply InsertTuple_PageFull.
Qed.

Lemma C7_InsertTuple_effect_witness :
  header_ok (NewPage 0 PageTypeData) ∧
  ∃ p', InsertTuple (NewPage 0 PageTypeData) [7] = Ok (p', 0) ∧
        GetFreeSpaceEnd p' = 4095 ∧ GetFreeSpaceOffset p' = 28.
Proof.
  assert (Hok : header_ok (NewPage 0 PageTypeData)).
  { unfold header_ok. vm_compute. repeat split; intros; discriminate. }
  split; [exact Hok|].
  destruct (C7_InsertTuple_effect (NewPage 0 PageTypeData) [7] Hok) as [_ Hfit].
  destruct Hfit as (p' & Hi & _ & _ & He & Ho).
  { vm_compute. intros; discriminate. }
  exists p'. split; [exact Hi|]. split; [exact He | exact Ho].
Defined.

(** The same on the page of TestFreeSpace: after inserting 100 bytes into
    a fresh page the free-space-begin field still reads 28, not 32. *)
Example C7_free_begin_not_advanced :
  match InsertTuple (NewPage 0 PageTypeData) (replicate 100 0) with
  | Ok (p', slot) =>
      slot = 0 ∧ GetFreeSpaceOffset p' = 28 ∧ GetFreeSpaceEnd p' = 3996 ∧
      FreeSpace p' = 3964
  | _ => False
  end.
Proof. vm_compute. done. Qed.

(** C8 (what a fresh page returns). Inserting data of 4 to FreeSpace()
    bytes into a freshly initialised page yields slot 0, but GetTuple(0)
    returns the payload with its last four bytes replaced by the bytes of
    slot entry 0 (offset and length, little-endian): the entry is stored
    at 4092..4095, inside the payload that was copied to the page tail.
    The payload reads back unchanged only if it ends in those four bytes. *)
Theorem C8_fresh_insert_get_clobbered (id ty : Z) (data : list Z) :
  let len := Z.of_nat (length data) in
  4 <= len <= FreeSpace (NewPage id ty) →
  ∃ p', InsertTuple (NewPage id ty) data = Ok (p', 0) ∧
        GetTuple p' 0 =
          Ok (take (length data - 4) data ++ leBytes 2 (PageSize - len) ++ leBytes 2 len) ∧
        (GetTuple p' 0 = Ok data →
         drop (length data - 4) data = leBytes 2 (PageSize - len) ++ leBytes 2 len).
Proof.
  intros len [H4 Hfit].
  pose proof (NewPage_header_ok id ty) as Hok.
  destruct (NewPage_header id ty) as (Hc & Ho & He & _).
  rewrite NewPage_FreeSpace in Hfit. unfold PageSize, PageHeaderSize, slotSize in Hfit.
  destruct (InsertTuple_effect (NewPage id ty) data Hok) as (p' & Hi & Hd & Hl & He' & Ho' & Hc' & Hs & _).
  { rewrite NewPage_FreeSpace. unfold PageSize, PageHeaderSize, slotSize. lia. }
  rewrite Hc, He in *. fold len in Hd, He', Hs.
  exists p'. split; [exact Hi|].
  assert (Hget : GetTuple p' 0 =
          Ok (take (length data - 4) data ++ leBytes 2 (PageSize - len) ++ leBytes 2 len)).
  { unfold GetTuple. rewrite Hc'. simpl (0 + 1 <=? 0). cbn iota.
    replace (slotPos 0 <? 0) with false by done.
    rewrite Hs.
    destruct (Z.eqb_spec len 0) as [?|_]; [lia|].
    destruct (Z.ltb_spec PageSize (PageSize - len + len)) as [?|_]; [lia|].
    f_equal. rewrite Hd.
    set (d1 := PutUint16 (Data (NewPage id ty)) 20 (PageSize - len)).
    assert (Hl1 : length d1 = Z.to_nat 4096).
    { apply length_PutUint16; [apply NewPage_length|lia|lia]. }
    change (slotPos 0) with 4092. change (4092 + 2) with (4092 + Z.of_nat (length (leBytes 2 (PageSize - len)))).
    unfold PutUint16 at 2 3.
    rewrite writeAt_writeAt_app.
    2: lia.
    2:{ rewrite length_writeAt'  with (n := Z.to_nat 4096); simpl; unfold PageSize; lia. }
    unfold PageSize in *.
    rewrite writeAt_writeAt_inside; [|lia|lia|simpl; lia|lia].
    unfold PutUint16.
    rewrite readAt_writeAt_after; [|lia|simpl; lia|].
    2:{ rewrite length_writeAt' with (n := Z.to_nat 4096); [simpl; lia|done|lia|].
        rewrite length_writeAt; simpl; lia. }
    set (Y := writeAt data (4092 - (4096 - len)) (leBytes 2 (4096 - len) ++ leBytes 2 len)).
    assert (HY : length Y = length data) by (apply length_writeAt; simpl; lia).
    replace (Z.to_nat len) with (length Y) by lia.
    rewrite readAt_writeAt_eq by lia.
    unfold Y, writeAt.
    replace (Z.to_nat (4092 - (4096 - len))) with (length data - 4)%nat by lia.
    rewrite drop_ge by (simpl; lia).
    by rewrite app_nil_r. }
  split; [exact Hget|].
  rewrite Hget. intros Heq.
  assert (Heq' : take (length data - 4) data ++ leBytes 2 (PageSize - len) ++ leBytes 2 len
                 = data) by congruence.
  apply (f_equal (drop (length data - 4))) in Heq'.
  rewrite drop_app_length' in Heq' by (rewrite length_take; lia).
  by rewrite Heq'.
Qed.

(** The page and payload of TestGetTuple: "test data" reads back as
    "test " followed by the four bytes of the slot entry. *)
Lemma C8_fresh_insert_get_clobbered_witness :
  4 <= 9 <= FreeSpace (NewPage 0 PageTypeData) ∧
  ∃ p', InsertTuple (NewPage 0 PageTypeData) [116; 101; 115; 116; 32; 100; 97; 116; 97]
          = Ok (p', 0) ∧
        GetTuple p' 0 = Ok [116; 101; 115; 116; 32; 247; 15; 9; 0] ∧
        GetTuple p' 0 ≠ Ok [116; 101; 115; 116; 32; 100; 97; 116; 97].
Proof.
  assert (H : 4 <= 9 <= FreeSpace (NewPage 0 PageTypeData)).
  { vm_compute. split; intros; discriminate. }
  split; [exact H|].
  destruct (C8_fresh_insert_get_clobbered 0 PageTypeData
              [116; 101; 115; 116; 32; 100; 97; 116; 97] H) as (p' & Hi & Hg & _).
  exists p'. split; [exact Hi|]. split; [exact Hg|].
  rewrite Hg. intros Heq. discriminate Heq.
Defined.

End slotted_page.

(** ** ARIES redo (internal/wal/recovery.go) *)
Section redo.
Import types wal.
Context {S : Type}.
Variable rm : RecoveryManager S.
Variable f : LogRecord → S → S * bool.
Variable cb : Z → S → Z * S.
Hypothesis Hredo : redoCallback rm = Some f.
Hypothesis HpageLSN : pageLSNCallback rm = Some cb.

Let dpt := dirtyPageTable rm.

Lemma foldl_min_le_init (l : list Z) (acc : Z) :
  foldl (fun m x => if x <? m then x else m) acc l <= acc.
Proof.
  revert acc. induction l as [|y l IH]; intros acc; simpl; [lia|].
  etrans; [apply IH|]. destruct (Z.ltb_spec y acc); lia.
Qed.

Lemma foldl_min_le_elem (l : list Z) (acc x : Z) :
  x ∈ l → foldl (fun m x => if x <? m then x else m) acc l <= x.
Proof.
  revert acc. induction l as [|y l IH]; intros acc; simpl.
  - by intros ?%elem_of_nil.
  - intros [->|Hin]%elem_of_cons; [|by apply IH].
    etrans; [apply foldl_min_le_init|]. destruct (Z.ltb_spec y acc); lia.
Qed.

Lemma minRecLSN_le (d : gmap Z Z) (pg recLSN : Z) :
  d !! pg = Some recLSN → minRecLSN d <= recLSN.
Proof.
  intros Hl. apply foldl_min_le_elem.
  apply list_elem_of_fmap. exists (pg, recLSN). split; [done|].
  by apply elem_of_map_to_list.
Qed.

(** The loop body reaches "Apply redo" exactly under the redo rule, read
    at the page LSN the callback reports in the current state. *)
Lemma redoCheck_spec (record : LogRecord) (st : S) :
  (redoCheck rm (minRecLSN dpt) record st).1 = true ↔
  spec_redo_applies dpt (cb (PageID record) st).1 record.
Proof.
  unfold redoCheck, spec_redo_applies. rewrite HpageLSN. fold dpt.
  destruct (isDataRecord (Type_ record)) eqn:Hty; simpl.
  2:{ destruct (LSN record <? minRecLSN dpt); simpl; split; try done; by intros [? _]. }
  destruct (dpt !! PageID record) as [recLSN|] eqn:Hl.
  2:{ destruct (LSN record <? minRecLSN dpt); simpl; split; try done.
      all: by intros (_ & ? & [=] & _). }
  pose proof (minRecLSN_le _ _ _ Hl) as Hmin.
  destruct (Z.ltb_spec (LSN record) (minRecLSN dpt)) as [Hlt|Hge]; simpl.
  { split; [done|]. intros (_ & r & [= <-] & ? & ?). lia. }
  destruct (Z.ltb_spec (LSN record) recLSN) as [Hlt|Hge']; simpl.
  { split; [done|]. intros (_ & r & [= <-] & ? & ?). lia. }
  destruct (cb (PageID record) st) as [pageLSN st1]; simpl.
  destruct (Z.leb_spec (LSN record) pageLSN) as [Hle|Hgt]; simpl.
  - split; [done|]. intros (_ & r & [= <-] & ? & ?). lia.
  - split; [|done]. intros _. split; [done|]. exists recLSN. auto.
Qed.

Lemma redoLoop_app (m : Z) (pre post : list LogRecord) (st : S) :
  redoLoop rm m (pre ++ post) st =
  let '(tr, st1, ok) := redoLoop rm m pre st in
  if ok then
    let '(tr2, st2, ok2) := redoLoop rm m post st1 in (tr ++ tr2, st2, ok2)
  else (tr, st1, false).
Proof.
  revert st. induction pre as [|r pre IH]; intros st; simpl.
  - by destruct (redoLoop rm m post st) as [[? ?] ?].
  - destruct (redoCheck rm m r st) as [apply st1].
    destruct apply; [|apply IH].
    rewrite Hredo. destruct (f r st1) as [st2 ok]. destruct ok; [|done].
    rewrite IH. destruct (redoLoop rm m pre st2) as [[tr st3] ok'].
    destruct ok'; [|done].
    by destruct (redoLoop rm m post st3) as [[? ?] ?].
Qed.

Lemma redoLoop_single (m : Z) (r : LogRecord) (st : S) :
  ∃ st' ok,
    redoLoop rm m [r] st = ((if (redoCheck rm m r st).1 then [r] else []), st', ok).
Proof.
  simpl. destruct (redoCheck rm m r st) as [apply st1]. simpl.
  destruct apply; [|by exists st1, true].
  rewrite Hredo. destruct (f r st1) as [st2 ok]. destruct ok; by eexists _, _.
Qed.

(** One record of the log, reached by the redo phase in state [st]. *)
Lemma redoPhase_record (pre : list LogRecord) (r : LogRecord)
    (st0 st : S) (tr : list LogRecord) :
  redoPhase rm pre st0 = (tr, st, true) →
  ∃ st' ok,
    redoPhase rm (pre ++ [r]) st0 =
      (tr ++ (if decide (spec_redo_applies dpt (cb (PageID r) st).1 r) then [r] else []),
       st', ok).
Proof.
  unfold redoPhase. fold dpt. destruct (decide (size dpt = 0%nat)) as [Hemp|Hne].
  - intros [= <- <-]. exists st0, true.
    destruct (decide _) as [(_ & recLSN & Hl & _)|]; [|done].
    apply map_size_empty_iff in Hemp. rewrite Hemp in Hl. by rewrite lookup_empty in Hl.
  - intros Hpre. rewrite redoLoop_app, Hpre.
    destruct (redoLoop_single (minRecLSN dpt) r st) as (st' & ok & ->).
    exists st', ok. do 2 f_equal.
    destruct (decide _) as [Hy|Hn].
    + apply redoCheck_spec in Hy. by rewrite Hy.
    + destruct (redoCheck rm (minRecLSN dpt) r st).1 eqn:Hc; [|done].
      by apply redoCheck_spec in Hc.
Qed.

(** *** A second run over the same log *)
Section second_run.
Hypothesis Hread_only : ∀ pg st, (cb pg st).2 = st.
Hypothesis Hstamps : ∀ r st st', f r st = (st', true) → LSN r <= (cb (PageID r) st').1.
Hypothesis Hmono : ∀ r st st' pg, f r st = (st', true) → (cb pg st).1 <= (cb pg st').1.

Lemma redoCheck_state (m : Z) (r : LogRecord) (st : S) : (redoCheck rm m r st).2 = st.
Proof.
  unfold redoCheck. rewrite HpageLSN.
  destruct (LSN r <? m); [done|]. destruct (negb _); [done|].
  destruct (dirtyPageTable rm !! PageID r); [|done].
  destruct (LSN r <? _); [done|].
  pose proof (Hread_only (PageID r) st) as H.
  destruct (cb (PageID r) st) as [pageLSN st1]. simpl in H. subst st1.
  by destruct (LSN r <=? pageLSN).
Qed.

Lemma redoLoop_mono (m : Z) (records : list LogRecord) (st st' : S) (tr : list LogRecord) (pg : Z) :
  redoLoop rm m records st = (tr, st', true) → (cb pg st).1 <= (cb pg st').1.
Proof.
  revert st tr. induction records as [|r records IH]; intros st tr; simpl.
  - intros [= _ <-]. lia.
  - pose proof (redoCheck_state m r st) as Hst.
    destruct (redoCheck rm m r st) as [apply st1]. simpl in Hst. subst st1.
    destruct apply; [|apply IH].
    rewrite Hredo. destruct (f r st) as [st2 ok] eqn:Hf. destruct ok; [|done].
    destruct (redoLoop rm m records st2) as [[tr2 st3] ok'] eqn:Hl.
    intros [= _ <- ->]. etrans; [by eapply Hmono|by eapply IH].
Qed.

Lemma redoLoop_all_skipped (m : Z) (records : list LogRecord) (st : S) :
  Forall (fun r => (redoCheck rm m r st).1 = false) records →
  redoLoop rm m records st = ([], st, true).
Proof.
  induction 1 as [|r records Hr _ IH]; simpl; [done|].
  pose proof (redoCheck_state m r st) as Hst.
  destruct (redoCheck rm m r st) as [apply st1]. simpl in *. by subst.
Qed.

Lemma redoCheck_later (r : LogRecord) (st st' : S) :
  (redoCheck rm (minRecLSN dpt) r st).1 = false →
  (cb (PageID r) st).1 <= (cb (PageID r) st').1 →
  (redoCheck rm (minRecLSN dpt) r st').1 = false.
Proof.
  intros Hc Hle.
  destruct (redoCheck rm (minRecLSN dpt) r st').1 eqn:Hc'; [|done].
  apply redoCheck_spec in Hc' as (Hty & recLSN & Hl & H1 & H2).
  assert (Hy : (redoCheck rm (minRecLSN dpt) r st).1 = true); [|congruence].
  apply redoCheck_spec. split; [done|]. exists recLSN. repeat split; [done|done|lia].
Qed.

Lemma redoLoop_covered (records : list LogRecord) (st st' st'' : S) (tr : list LogRecord) :
  redoLoop rm (minRecLSN dpt) records st = (tr, st', true) →
  (∀ pg, (cb pg st').1 <= (cb pg st'').1) →
  Forall (fun r => (redoCheck rm (minRecLSN dpt) r st'').1 = false) records.
Proof.
  revert st tr. induction records as [|r records IH]; intros st tr Hrun Hle; [constructor|].
  simpl in Hrun.
  pose proof (redoCheck_state (minRecLSN dpt) r st) as Hst.
  destruct (redoCheck rm (minRecLSN dpt) r st) as [apply st1] eqn:Hc. simpl in Hst. subst st1.
  destruct apply.
  - rewrite Hredo in Hrun. destruct (f r st) as [st2 ok] eqn:Hf. destruct ok; [|done].
    destruct (redoLoop rm (minRecLSN dpt) records st2) as [[tr2 st3] ok'] eqn:Hl.
    injection Hrun as <- <- ->.
    constructor; [|by eapply IH].
    destruct (redoCheck rm (minRecLSN dpt) r st'').1 eqn:Hc'; [|done].
    apply redoCheck_spec in Hc' as (_ & recLSN & _ & _ & Hlt).
    pose proof (Hstamps _ _ _ Hf). pose proof (redoLoop_mono _ _ _ _ _ (PageID r) Hl).
    specialize (Hle (PageID r)). lia.
  - constructor; [|by eapply IH].
    eapply redoCheck_later; [by rewrite Hc|].
    etrans; [by eapply redoLoop_mono|apply Hle].
Qed.

Lemma redoPhase_twice (records : list LogRecord) (st st' : S) (tr : list LogRecord) :
  redoPhase rm records st = (tr, st', true) →
  redoPhase rm records st' = ([], st', true).
Proof.
  unfold redoPhase. fold dpt. destruct (decide (size dpt = 0%nat)); [done|].
  intros Hrun. apply redoLoop_all_skipped. eapply redoLoop_covered; [done|]. intros; lia.
Qed.

End second_run.
End redo.

(** C2. During redo, a data-mutating record reached by the loop makes the
    redo callback run iff its page is in the dirty page table, its LSN is
    at least the page's RecLSN and greater than the page's current LSN;
    otherwise the record is skipped.  Stated on the log cut after the
    record: the list of records the callback ran on grows by that record
    exactly under the rule.  When the redo callback stamps the page with the
    record's LSN and never lowers a page LSN, a second run of redo over the
    same log invokes the callback on nothing and leaves the state as it is. *)
Theorem C2_redo_rule {S : Type} (rm : wal.RecoveryManager S)
    (f : wal.LogRecord → S → S * bool) (cb : Z → S → Z * S) :
  wal.redoCallback rm = Some f →
  wal.pageLSNCallback rm = Some cb →
  (∀ (pre : list wal.LogRecord) (r : wal.LogRecord) (st0 st : S) (tr : list wal.LogRecord),
     wal.redoPhase rm pre st0 = (tr, st, true) →
     ∃ st' ok,
       wal.redoPhase rm (pre ++ [r]) st0 =
         (tr ++ (if decide (wal.spec_redo_applies (wal.dirtyPageTable rm)
                              (cb (wal.PageID r) st).1 r)
                 then [r] else []), st', ok)) ∧
  ((∀ pg st, (cb pg st).2 = st) →
   (∀ r st st', f r st = (st', true) → wal.LSN r <= (cb (wal.PageID r) st').1) →
   (∀ r st st' pg, f r st = (st', true) → (cb pg st).1 <= (cb pg st').1) →
   ∀ (records : list wal.LogRecord) (st st' : S) (tr : list wal.LogRecord),
     wal.redoPhase rm records st = (tr, st', true) →
     wal.redoPhase rm records st' = ([], st', true)).
Proof.
  intros Hredo Hcb. split.
  - intros pre r st0 st tr. by apply (redoPhase_record rm f cb Hredo Hcb).
  - intros H1 H2 H3 records st st' tr.
    by apply (redoPhase_twice rm f cb Hredo Hcb H1 H2 H3).
Qed.

Lemma C2_redo_rule_witness :
  wal.redoCallback demo_rm = Some demo_redo ∧
  wal.pageLSNCallback demo_rm = Some demo_pageLSN ∧
  (∃ st' ok,
     wal.redoPhase demo_rm (take 2 demo_log ++ [demo_record 7 types.LogRecordUpdate 1]) ∅ =
       ([demo_record 5 types.LogRecordInsert 1] ++
        (if decide (wal.spec_redo_applies (wal.dirtyPageTable demo_rm)
                      (demo_pageLSN 1 {[ 1 := 5 ]}).1
                      (demo_record 7 types.LogRecordUpdate 1))
         then [demo_record 7 types.LogRecordUpdate 1] else []), st', ok)) ∧
  wal.redoPhase demo_rm demo_log {[ 1 := 7 ]} = ([], {[ 1 := 7 ]}, true).
Proof.
  destruct (C2_redo_rule demo_rm demo_redo demo_pageLSN eq_refl eq_refl) as [Hrule Htwice].
  split; [reflexivity|]. split; [reflexivity|]. split.
  - apply (Hrule (take 2 demo_log) (demo_record 7 types.LogRecordUpdate 1) ∅ {[ 1 := 5 ]}).
    vm_compute. reflexivity.
  - apply (Htwice (fun pg st => eq_refl)) with (st := ∅) (tr := [demo_record 5 types.LogRecordInsert 1; demo_record 7 types.LogRecordUpdate 1]).
    + intros r st st' [= <-]. unfold demo_pageLSN. simpl.
      rewrite lookup_insert_eq. simpl. lia.
    + intros r st st' pg [= <-]. unfold demo_pageLSN. simpl.
      destruct (decide (wal.PageID r = pg)) as [->|Hne].
      * rewrite lookup_insert_eq. simpl. lia.
      * rewrite lookup_insert_ne by done. lia.
    + vm_compute. reflexivity.
Defined.

(** ** Key encoding (internal/index) *)
Section key_encoding.
Import types bytes index.






(** *** A leaf of the B-tree filled with integer keys *)







Section leaf_search.
Variable keySize : Z.
Hypothesis HkeySize : 8 <= keySize.
Variable v : Z.
Hypothesis Hv : - 2 ^ 63 <= v < 2 ^ 63.





End leaf_search.




(** The keys of the specification's example, inserted out of order with
    key size 64: the scan returns the record ids by ascending key. *)
Example leaf_scan_example :
  (insertInts 64 emptyLeaf
     [(100, mkRID 0 4 1); (-1, mkRID 0 1 1); (1000, mkRID 0 5 1);
      (0, mkRID 0 2 1); (-100, mkRID 0 0 1); (1, mkRID 0 3 1)]) ≫= scanLeaf
  = Some [mkRID 0 0 1; mkRID 0 1 1; mkRID 0 2 1; mkRID 0 3 1; mkRID 0 4 1; mkRID 0 5 1].
Proof. vm_compute. reflexivity. Qed.



End key_encoding.
(** ** The WAL rule and the buffer pool (internal/storage/buffer.go) *)
Section wal_rule.
Import types bytes storage storage_io wf.

Lemma GetLSN_Serialize (p : Page) : Uint64 (Serialize p) 8 = GetLSN p.
Proof.
  unfold GetLSN, Uint64, Serialize, readAt. f_equal.
  change (Z.to_nat 8) with 8%nat.
  replace (Z.to_nat PageSize) with (8 + 4088)%nat by (unfold PageSize; lia).
  rewrite <- take_drop_commute, take_take. f_equal.
Qed.

Lemma new_images_write (dm0 dm : DiskManager.t) (p : Page) (flushed : Z) :
  new_images_covered dm0 dm flushed → GetLSN p <= flushed →
  new_images_covered dm0 (DiskManager.WritePage dm p) flushed.
Proof.
  intros Hn Hp q img. unfold DiskManager.WritePage. cbn [DiskManager.file].
  destruct (decide (ID p = q)) as [<-|Hne].
  - rewrite lookup_insert_eq. intros [= <-] _. by rewrite GetLSN_Serialize.
  - rewrite lookup_insert_ne by done. apply Hn.
Qed.

Lemma FlushPage_covered (dm0 : DiskManager.t) (bp : BufferPool.t) (id flushed : Z) :
  dirty_covered bp flushed →
  new_images_covered dm0 (BufferPool.diskManager bp) flushed →
  dirty_covered (BufferPool.FlushPage bp id) flushed ∧
  new_images_covered dm0 (BufferPool.diskManager (BufferPool.FlushPage bp id)) flushed.
Proof.
  intros Hd Hn. unfold BufferPool.FlushPage.
  destruct (BufferPool.pages bp !! id) as [page|] eqn:Hid; [|done].
  destruct (IsDirty page) eqn:Hdirty; [|done].
  split.
  - intros q p. cbn. destruct (decide (id = q)) as [<-|Hne].
    + rewrite lookup_insert_eq. by intros [= <-].
    + rewrite lookup_insert_ne by done. apply Hd.
  - cbn. apply new_images_write; [done|]. by eapply Hd.
Qed.

Lemma FlushAll_covered (dm0 : DiskManager.t) (ids : list Z) (bp : BufferPool.t) (flushed : Z) :
  dirty_covered bp flushed →
  new_images_covered dm0 (BufferPool.diskManager bp) flushed →
  new_images_covered dm0
    (BufferPool.diskManager (foldl (fun b pageID => BufferPool.FlushPage b pageID) bp ids))
    flushed.
Proof.
  revert bp. induction ids as [|id ids IH]; intros bp Hd Hn; simpl; [done|].
  destruct (FlushPage_covered dm0 bp id flushed Hd Hn) as [Hd' Hn']. by apply IH.
Qed.

(** C3, as the pool implements it. The buffer pool holds no reference to
    the log: eviction and the explicit flushes write a dirty page as it is.
    The page images they put on disk carry a pageLSN ≤ flushed-LSN provided
    every dirty cached page had pageLSN ≤ flushed-LSN when the pool was
    called; the pool does not establish this itself. *)
Theorem C3_flush_keeps_covered (bp : BufferPool.t) (w : wal.Writer) :
  dirty_covered bp (wal.flushedLSN w) →
  (∀ id, new_images_covered (BufferPool.diskManager bp)
           (BufferPool.diskManager (BufferPool.FlushPage bp id)) (wal.flushedLSN w)) ∧
  new_images_covered (BufferPool.diskManager bp)
    (BufferPool.diskManager (BufferPool.FlushAllPages bp)) (wal.flushedLSN w) ∧
  (∀ bp', BufferPool.evictOne bp = Done bp' tt →
          new_images_covered (BufferPool.diskManager bp)
            (BufferPool.diskManager bp') (wal.flushedLSN w)).
Proof.
  intros Hd.
  assert (H0 : new_images_covered (BufferPool.diskManager bp) (BufferPool.diskManager bp)
                 (wal.flushedLSN w)) by (intros q img ??; done).
  split; [|split].
  - intros id. by apply FlushPage_covered.
  - by apply FlushAll_covered.
  - intros bp' Hev. apply evictScan_Done in Hev as (v & pv & Hv & _ & -> & _).
    destruct (IsDirty pv) eqn:Hdirty; [|done].
    apply new_images_write; [done|]. by eapply Hd.
Qed.

Lemma C3_flush_keeps_covered_witness :
  dirty_covered (c3_stamped 4) (wal.flushedLSN (wal.Flush c3_writer)) ∧
  new_images_covered (BufferPool.diskManager (c3_stamped 4))
    (BufferPool.diskManager (BufferPool.FlushPage (c3_stamped 4) 0))
    (wal.flushedLSN (wal.Flush c3_writer)).
Proof.
  assert (Hd : dirty_covered (c3_stamped 4) (wal.flushedLSN (wal.Flush c3_writer))).
  { intros q p Hq _. revert Hq.
    change (BufferPool.pages (c3_stamped 4)) with
      (<[0 := withPin (withDirty (SetLSN (withPin (withDirty (NewPage 0 PageTypeData) true) 1) 1) true) 0]>
         (∅ : gmap Z Page)).
    intros [[<- <-]|[_ Hq]]%lookup_insert_Some; [|by rewrite lookup_empty in Hq].
    vm_compute. discriminate. }
  split; [exact Hd|].
  destruct (C3_flush_keeps_covered (c3_stamped 4) (wal.Flush c3_writer) Hd) as [Hflush _].
  exact (Hflush 0).
Defined.

(** C3 as stated fails: with the log holding the unflushed record of LSN 1
    (flushed-LSN 0), FlushPage and an eviction both put page 0 on disk with
    pageLSN 1. *)
Lemma C3_counterexample :
  wal.flushedLSN c3_writer = 0 ∧
  (∃ img, DiskManager.file (BufferPool.diskManager c3_flushed) !! 0 = Some img ∧
          ¬ Uint64 img 8 <= wal.flushedLSN c3_writer) ∧
  (∃ img, DiskManager.file (BufferPool.diskManager c3_evicted) !! 0 = Some img ∧
          ¬ Uint64 img 8 <= wal.flushedLSN c3_writer).
Proof.
  split; [reflexivity|]. split.
  - eexists. split; [vm_compute; reflexivity|]. vm_compute. by intros H.
  - eexists. split; [vm_compute; reflexivity|]. vm_compute. by intros H.
Qed.

End wal_rule.

(** ** The table heap (internal/storage/heap.go) *)
Section heap.
Import types bytes storage storage_io wf.













End heap.
(** ** UPDATE in the executor (internal/sql/executor.go) *)
Section executor_update.
Import types storage storage_io.

(** C4 (what executeUpdate does). Transaction 3 updates the one visible
    row of a table.  The new version (xmin = 3, xmax = 0) is inserted at a
    fresh slot, but the old version is not written back: on the page its
    xmax still is 0, not the writer's id.  executeDelete, the sibling path,
    does write the marked tuple back with heap.Update. *)
Theorem C4_update_leaves_old_xmax :
  txn.ID c4_txn = 3 ∧
  (∃ bp tuples,
     TableHeap.Scan 3 (sql.bufferPool c4_state0) (sql.heap c4_state0) = Some (Done bp tuples) ∧
     map (fun t => (TableHeap.PageID t, TableHeap.SlotNum t,
                    txn.IsVisible (txn.Snapshot_ c4_txn) (TableHeap.Tuple_ t))) tuples
       = [(0, 0, true)]) ∧
  (∃ st, c4_after_update = Some (Done st 1)) ∧
  XMax <$> c4_stored c4_after_update 0 0 = Some 0 ∧
  (fun t => (XMin t, XMax t)) <$> c4_stored c4_after_update 0 1 = Some (3, 0) ∧
  XMax <$> c4_stored c4_after_delete 0 0 = Some 3.
Proof.
  split; [reflexivity|]. split.
  { eexists _, _. split; [vm_compute; reflexivity|]. vm_compute. reflexivity. }
  split.
  { eexists. vm_compute. reflexivity. }
  split; [vm_compute; reflexivity|]. split; vm_compute; reflexivity.
Qed.

End executor_update.

(** ** Vacuum (internal/engine) *)
Section vacuum_facts.
Import types bytes storage storage_io wf engine.













End vacuum_facts.


(** ** The tuple codec (pkg/types) *)
Section tuple_codec_facts.
Import types bytes tuple_codec ranges.

Lemma readAt_app_l (a b : list Z) (n : nat) :
  n = length a → readAt (a ++ b) 0 n = a.
Proof.
  intros ->. unfold readAt. change (Z.to_nat 0) with 0%nat.
  by rewrite drop_0, take_app_length.
Qed.

Lemma readAt_app_skip (a b : list Z) (off : Z) (n : nat) :
  0 <= off → Z.of_nat (length a) <= off →
  readAt (a ++ b) off n = readAt b (off - Z.of_nat (length a)) n.
Proof.
  intros Hoff Hle. unfold readAt. f_equal.
  rewrite drop_app_ge by lia. f_equal. lia.
Qed.

Lemma leValue_leBytes_small (n : nat) (v : Z) :
  0 <= v < 256 ^ Z.of_nat n → leValue (leBytes n v) = v.
Proof. intros Hv. rewrite leValue_leBytes. by apply Z.mod_small. Qed.


(** Reading the fields of a serialized tuple. *)
Lemma Serialize_fields (t : Tuple) (rest : list Z) :
  tuple_ok t →
  let buf := Serialize t ++ rest in
  Uint64 buf 0 = XMin t ∧ Uint64 buf 8 = XMax t ∧ Uint32 buf 16 = Cid t ∧
  Uint32 buf 20 = TableID t ∧ Uint64 buf 24 = RowID t ∧
  Uint32 buf 32 = Z.of_nat (length (Data t)) ∧
  readAt buf 36 (length (Data t)) = Data t.
Proof.
  intros (H1 & H2 & H3 & H4 & H5 & H6). cbn zeta.
  unfold Serialize, Uint64, Uint32. rewrite <- !app_assoc.
  repeat split.
  - rewrite readAt_app_l by (by rewrite length_leBytes). by apply leValue_leBytes_small.
  - rewrite readAt_app_skip by (rewrite ?length_leBytes; lia). rewrite length_leBytes.
    rewrite readAt_app_l by (by rewrite length_leBytes). by apply leValue_leBytes_small.
  - rewrite !readAt_app_skip by (rewrite ?length_leBytes; lia). rewrite !length_leBytes.
    rewrite readAt_app_l by (by rewrite length_leBytes). by apply leValue_leBytes_small.
  - do 3 (rewrite readAt_app_skip by (rewrite ?length_leBytes; lia); rewrite length_leBytes).
    rewrite readAt_app_l by (by rewrite length_leBytes). by apply leValue_leBytes_small.
  - do 4 (rewrite readAt_app_skip by (rewrite ?length_leBytes; lia); rewrite length_leBytes).
    rewrite readAt_app_l by (by rewrite length_leBytes). by apply leValue_leBytes_small.
  - do 5 (rewrite readAt_app_skip by (rewrite ?length_leBytes; lia); rewrite length_leBytes).
    rewrite readAt_app_l by (by rewrite length_leBytes). apply leValue_leBytes_small. lia.
  - do 6 (rewrite readAt_app_skip by (rewrite ?length_leBytes; lia); rewrite length_leBytes).
    by rewrite readAt_app_l.
Qed.

Lemma length_Serialize (t : Tuple) :
  length (Serialize t) = (36 + length (Data t))%nat.
Proof. unfold Serialize. rewrite !length_app, !length_leBytes. lia. Qed.


Lemma DeserializeTuple_Serialize (t : Tuple) :
  tuple_ok t → DeserializeTuple (Serialize t) = Some t.
Proof.
  intros Hok. pose proof Hok as (_ & _ & _ & _ & _ & Hlen).
  destruct (Serialize_fields t [] Hok) as (F1 & F2 & F3 & F4 & F5 & F6 & F7).
  rewrite app_nil_r in *.
  unfold DeserializeTuple.
  rewrite length_Serialize, F1, F2, F3, F4, F5, F6, Nat2Z.id, F7.
  destruct (Z.ltb_spec (Z.of_nat (36 + length (Data t))) 36); [lia|].
  destruct (Z.ltb_spec (Z.of_nat (36 + length (Data t)))
              (36 + Z.of_nat (length (Data t)))); [lia|].
  by destruct t.
Qed.

End tuple_codec_facts.

(** X1. The tuple codec round-trips: for a tuple whose fields hold values
    of their Go types, DeserializeTuple of the serialized bytes returns the
    tuple, also when more bytes follow; a buffer shorter than the 36-byte
    header, and every proper prefix of a serialized tuple, is rejected. *)
Theorem X1_tuple_codec_round_trip (t : types.Tuple) :
  ranges.tuple_ok t →
  (∀ rest, tuple_codec.DeserializeTuple (tuple_codec.Serialize t ++ rest) = Some t) ∧
  (∀ buf, (length buf < 36)%nat → tuple_codec.DeserializeTuple buf = None) ∧
  (∀ n, (n < length (tuple_codec.Serialize t))%nat →
        tuple_codec.DeserializeTuple (take n (tuple_codec.Serialize t)) = None).
Proof.
  intros Hok. pose proof Hok as (_ & _ & _ & _ & _ & Hlen).
  assert (Hshort : ∀ buf, (length buf < 36)%nat → tuple_codec.DeserializeTuple buf = None).
  { intros buf Hb. unfold tuple_codec.DeserializeTuple.
    destruct (Z.ltb_spec (Z.of_nat (length buf)) 36); [done|lia]. }
  split; [|split; [exact Hshort|]].
  - intros rest.
    destruct (Serialize_fields t rest Hok) as (F1 & F2 & F3 & F4 & F5 & F6 & F7).
    unfold tuple_codec.DeserializeTuple.
    rewrite length_app, length_Serialize, F1, F2, F3, F4, F5, F6, Nat2Z.id, F7.
    destruct (Z.ltb_spec (Z.of_nat (36 + length (types.Data t) + length rest)) 36); [lia|].
    destruct (Z.ltb_spec (Z.of_nat (36 + length (types.Data t) + length rest))
                (36 + Z.of_nat (length (types.Data t)))); [lia|].
    by destruct t.
  - intros n Hn. rewrite length_Serialize in Hn.
    destruct (decide (n < 36)%nat) as [Hs|Hs].
    { apply Hshort. rewrite length_take. lia. }
    unfold tuple_codec.DeserializeTuple.
    rewrite length_take, length_Serialize.
    replace (n `min` (36 + length (types.Data t)))%nat with n by lia.
    destruct (Z.ltb_spec (Z.of_nat n) 36); [done|].
    assert (Hd : bytes.Uint32 (take n (tuple_codec.Serialize t)) 32
                 = Z.of_nat (length (types.Data t))).
    { destruct (Serialize_fields t [] Hok) as (_ & _ & _ & _ & _ & F6 & _).
      rewrite app_nil_r in F6. rewrite <- F6. unfold bytes.Uint32, bytes.readAt.
      rewrite !take_drop_commute. rewrite take_take. f_equal. f_equal. f_equal. lia. }
    rewrite Hd.
    destruct (Z.ltb_spec (Z.of_nat n) (36 + Z.of_nat (length (types.Data t)))); [done|lia].
Qed.

(** A row version written by transaction 7 and deleted by transaction 9. *)
Lemma X1_tuple_codec_round_trip_witness :
  ranges.tuple_ok (types.mkTuple 7 9 1 3 42 [104; 105]) ∧
  tuple_codec.DeserializeTuple
    (tuple_codec.Serialize (types.mkTuple 7 9 1 3 42 [104; 105]) ++ [0; 0])
  = Some (types.mkTuple 7 9 1 3 42 [104; 105]).
Proof.
  assert (Hok : ranges.tuple_ok (types.mkTuple 7 9 1 3 42 [104; 105])).
  { apply (bool_decide_unpack _). vm_compute. exact I. }
  split; [exact Hok|].
  destruct (X1_tuple_codec_round_trip _ Hok) as [Hrt _]. exact (Hrt [0; 0]).
Defined.
(** ** Slotted pages: lookups after insert, delete and update *)
Section page_round_trips.
Import types bytes storage wf layout.

Lemma readAt_writeAt_disjoint (d : list Z) (off : Z) (src : list Z) (off' : Z) (n : nat) :
  0 <= off → 0 <= off' → off + Z.of_nat (length src) <= Z.of_nat (length d) →
  off' + Z.of_nat n <= off ∨ off + Z.of_nat (length src) <= off' →
  readAt (writeAt d off src) off' n = readAt d off' n.
Proof.
  intros Hoff Hoff' Hfit [Hb|Ha].
  - by apply readAt_writeAt_before.
  - by apply readAt_writeAt_after.
Qed.

Lemma readAt_PutUint16_disjoint (d : list Z) (off v off' : Z) (n : nat) :
  0 <= off → 0 <= off' → off + 2 <= Z.of_nat (length d) →
  off' + Z.of_nat n <= off ∨ off + 2 <= off' →
  readAt (PutUint16 d off v) off' n = readAt d off' n.
Proof.
  intros. unfold PutUint16. apply readAt_writeAt_disjoint; rewrite ?length_leBytes; try done.
Qed.

(** GetTuple in terms of the slot entry. *)
Lemma GetTuple_Ok (p : Page) (s : Z) :
  s < GetSlotCount p → 0 <= slotPos s →
  0 < (getSlot p s).2 → (getSlot p s).1 + (getSlot p s).2 <= PageSize →
  GetTuple p s = Ok (readAt (Data p) (getSlot p s).1 (Z.to_nat (getSlot p s).2)).
Proof.
  intros Hs Hpos Hlen Hfit. unfold GetTuple.
  destruct (Z.leb_spec (GetSlotCount p) s); [lia|].
  destruct (Z.ltb_spec (slotPos s) 0); [lia|].
  destruct (getSlot p s) as [off len]. cbn [fst snd] in *.
  destruct (Z.eqb_spec len 0); [lia|].
  destruct (Z.ltb_spec PageSize (off + len)); [lia|done].
Qed.

Lemma GetTuple_Ok_inv (p : Page) (s : Z) (d : list Z) :
  GetTuple p s = Ok d →
  s < GetSlotCount p ∧ 0 <= slotPos s ∧ (getSlot p s).2 ≠ 0 ∧
  (getSlot p s).1 + (getSlot p s).2 <= PageSize ∧
  d = readAt (Data p) (getSlot p s).1 (Z.to_nat (getSlot p s).2).
Proof.
  unfold GetTuple.
  destruct (Z.leb_spec (GetSlotCount p) s); [done|].
  destruct (Z.ltb_spec (slotPos s) 0); [done|].
  destruct (getSlot p s) as [off len]. cbn [fst snd].
  destruct (Z.eqb_spec len 0); [done|].
  destruct (Z.ltb_spec PageSize (off + len)); [done|].
  intros [= <-]. done.
Qed.


(** What a successful insert leaves of the page, when the free area ends
    below the slot directory: the new payload is stored whole, the entries
    of the other slots are as before, and so are the bytes at or above the
    old free-end other than the four of the new entry. *)
Lemma InsertTuple_clear (p : Page) (data : list Z) :
  header_ok p → dir_below p →
  1 <= Z.of_nat (length data) <= FreeSpace p →
  let n := GetSlotCount p in
  ∃ p', InsertTuple p data = Ok (p', n) ∧
    GetSlotCount p' = n + 1 ∧
    getSlot p' n = (GetFreeSpaceEnd p - Z.of_nat (length data), Z.of_nat (length data)) ∧
    readAt (Data p') (GetFreeSpaceEnd p - Z.of_nat (length data)) (length data) = data ∧
    (∀ s, 0 <= s < n → getSlot p' s = getSlot p s) ∧
    (∀ off k, GetFreeSpaceEnd p <= off → off + Z.of_nat k <= PageSize →
       off + Z.of_nat k <= slotPos n ∨ slotPos n + slotSize <= off →
       readAt (Data p') off k = readAt (Data p) off k).
Proof.
  intros Hok Hdir [Hlen1 Hfit] n.
  destruct (InsertTuple_effect p data Hok Hfit)
    as (p' & Hins & HData & Hlen' & _ & _ & Hcnt & Hslot & _).
  fold n in Hins, HData, Hcnt, Hslot.
  destruct Hok as (Hlen & Hoff & Hend & Hn0 & Hsp). fold n in Hn0, Hsp.
  unfold dir_below in Hdir. fold n in Hdir.
  unfold FreeSpace, slotSize in Hfit. unfold PageHeaderSize in *.
  set (len := Z.of_nat (length data)) in *.
  set (fe := GetFreeSpaceEnd p) in *.
  set (newEnd := fe - len) in *.
  set (sp := slotPos n) in *.
  assert (Hsp' : sp <= 4092).
  { unfold sp, slotPos, PageSize, slotSize. lia. }
  unfold PageSize in *.
  set (d1 := PutUint16 (Data p) 20 newEnd) in *.
  set (d2 := writeAt d1 newEnd data) in *.
  set (d3 := PutUint16 d2 sp newEnd) in *.
  set (d4 := PutUint16 d3 (sp + 2) len) in *.
  assert (Hl1 : length d1 = Z.to_nat 4096) by (apply length_PutUint16; lia).
  assert (Hl2 : length d2 = Z.to_nat 4096).
  { apply length_writeAt'; [done|lia|]. fold len. lia. }
  assert (Hl3 : length d3 = Z.to_nat 4096) by (apply length_PutUint16; lia).
  assert (Hl4 : length d4 = Z.to_nat 4096) by (apply length_PutUint16; lia).
  exists p'. split; [done|]. split; [done|]. split; [done|].
  assert (Hregion : ∀ off k, 22 <= off → off + Z.of_nat k <= 4096 →
            off + Z.of_nat k <= sp ∨ sp + 4 <= off →
            readAt (Data p') off k = readAt d2 off k).
  { intros off k H1 H2 H3. rewrite HData.
    rewrite readAt_PutUint16_disjoint by lia.
    unfold d4. rewrite readAt_PutUint16_disjoint by lia.
    unfold d3. rewrite readAt_PutUint16_disjoint by lia. done. }
  split; [|split].
  - rewrite Hregion by (fold len; lia). unfold d2.
    apply readAt_writeAt_eq; [lia|]. fold len. lia.
  - intros s Hs.
    assert (Hps : sp + 4 <= slotPos s <= 4092).
    { unfold sp, slotPos, PageSize, slotSize. lia. }
    unfold getSlot, Uint16.
    rewrite !(Hregion _ 2%nat) by lia. unfold d2.
    rewrite !readAt_writeAt_disjoint by (fold len; lia).
    unfold d1. by rewrite !readAt_PutUint16_disjoint by lia.
  - intros off k H1 H2 H3. unfold slotSize in H3.
    rewrite Hregion by lia. unfold d2.
    rewrite readAt_writeAt_disjoint by (fold len; lia).
    unfold d1. by rewrite readAt_PutUint16_disjoint by lia.
Qed.

End page_round_trips.

(** X2. Insert then lookup on a slotted page.  When the page's free area
    ends at or below the place of the next slot entry, a successful
    InsertTuple of a non-empty payload returns the old slot count as slot
    number and GetTuple of that slot returns the payload unchanged; the
    entries of the other slots are untouched, and GetTuple of another slot
    returns what it did before whenever that slot's bytes lie at or above
    the old free-end and outside the four bytes of the new entry. *)
Theorem X2_insert_then_get (p : storage.Page) (data : list Z) :
  wf.header_ok p → layout.dir_below p →
  1 <= Z.of_nat (length data) <= storage.FreeSpace p →
  ∃ p', storage.InsertTuple p data = storage.Ok (p', storage.GetSlotCount p) ∧
    storage.GetTuple p' (storage.GetSlotCount p) = storage.Ok data ∧
    (∀ s, 0 <= s < storage.GetSlotCount p → storage.getSlot p' s = storage.getSlot p s) ∧
    (∀ s, 0 <= s < storage.GetSlotCount p →
       0 < (storage.getSlot p s).2 →
       (storage.getSlot p s).1 + (storage.getSlot p s).2 <= storage.PageSize →
       layout.clear_of (storage.GetFreeSpaceEnd p) (storage.getSlot p s).1
         (storage.getSlot p s).2 (storage.GetSlotCount p) →
       storage.GetTuple p' s = storage.GetTuple p s).
Proof.
  intros Hok Hdir Hlen.
  destruct (InsertTuple_clear p data Hok Hdir Hlen)
    as (p' & Hins & Hcnt & Hslot & Hread & Hentries & Hbytes).
  pose proof Hok as (Hl & Hoff & Hend & Hn0 & Hsp).
  assert (Hpos : ∀ s, 0 <= s <= storage.GetSlotCount p → 0 <= storage.slotPos s).
  { intros s Hs. unfold storage.slotPos, storage.PageSize, storage.slotSize in *.
    unfold storage.PageHeaderSize in Hsp. lia. }
  exists p'. split; [done|]. split; [|split; [done|]].
  - assert (Hg := GetTuple_Ok p' (storage.GetSlotCount p)).
    rewrite Hslot, Hcnt in Hg. cbn [fst snd] in Hg.
    rewrite Hg, Nat2Z.id, ?Hread; try done; try lia; try (apply Hpos; lia).
  - intros s Hs Hlive Hfit [Hlo Hclear].
    assert (Hg := GetTuple_Ok p s). assert (Hg' := GetTuple_Ok p' s).
    rewrite Hentries, Hcnt in Hg' by done.
    rewrite Hg, Hg'; try done; try lia; try (apply Hpos; lia).
    f_equal. apply Hbytes; [done|lia|]. rewrite Z2Nat.id by lia. done.
Qed.

(** A page holding one eight-byte payload takes a second one: both read
    back as stored. *)
Lemma X2_insert_then_get_witness :
  wf.header_ok x_page1 ∧ layout.dir_below x_page1 ∧
  1 <= Z.of_nat (length [97; 98; 99]) <= storage.FreeSpace x_page1 ∧
  ∃ p', storage.InsertTuple x_page1 [97; 98; 99] = storage.Ok (p', storage.GetSlotCount x_page1) ∧
        storage.GetTuple p' (storage.GetSlotCount x_page1) = storage.Ok [97; 98; 99].
Proof.
  assert (H1 : wf.header_ok x_page1) by (apply (bool_decide_unpack _); vm_compute; exact I).
  assert (H2 : layout.dir_below x_page1) by (apply (bool_decide_unpack _); vm_compute; exact I).
  assert (H3 : 1 <= Z.of_nat (length [97; 98; 99]) <= storage.FreeSpace x_page1)
    by (vm_compute; split; discriminate).
  split; [exact H1|]. split; [exact H2|]. split; [exact H3|].
  destruct (X2_insert_then_get x_page1 [97; 98; 99] H1 H2 H3) as (p' & Hi & Hg & _).
  exists p'. split; [exact Hi | exact Hg].
Defined.

Section page_delete.
Import types bytes storage wf layout.

(** DeleteTuple rewrites the four bytes of the slot's entry and nothing
    else. *)
Lemma DeleteTuple_frame (p : Page) (s : Z) :
  length (Data p) = Z.to_nat PageSize → 0 <= s < GetSlotCount p →
  PageHeaderSize <= slotPos s →
  ∃ p', DeleteTuple p s = Ok p' ∧
    length (Data p') = Z.to_nat PageSize ∧
    (getSlot p' s).2 = 0 ∧
    (∀ off k, 0 <= off → off + Z.of_nat k <= PageSize →
       off + Z.of_nat k <= slotPos s ∨ slotPos s + slotSize <= off →
       readAt (Data p') off k = readAt (Data p) off k).
Proof.
  intros Hlen [Hs0 Hs] Hsp. unfold DeleteTuple.
  destruct (Z.leb_spec (GetSlotCount p) s); [lia|].
  destruct (Z.ltb_spec (slotPos s) 0); [unfold PageHeaderSize in Hsp; lia|].
  destruct (getSlot p s) as [offset len0] eqn:Hg.
  eexists. split; [reflexivity|].
  unfold setSlot, withDirty, withData, getSlot. cbn [Data snd].
  assert (Hsp' : slotPos s <= 4092) by (unfold slotPos, PageSize, slotSize; lia).
  unfold PageHeaderSize, PageSize, slotSize in *.
  set (sp := slotPos s) in *.
  set (d1 := PutUint16 (Data p) sp offset).
  assert (Hl1 : length d1 = Z.to_nat 4096) by (apply length_PutUint16; lia).
  split; [apply length_PutUint16; lia|]. split.
  - rewrite Uint16_writeAt_eq; lia.
  - intros off k H1 H2 H3.
    rewrite readAt_PutUint16_disjoint by lia. unfold d1.
    by rewrite readAt_PutUint16_disjoint by lia.
Qed.

(** The slots GetAllTuples lists after a slot's entry got length 0. *)
Lemma allTuplesFrom_delete (p p' : Page) (s i : Z) (k : nat) (l : list (Z * list Z)) :
  (∀ s', 0 <= s' → 0 <= slotPos s' → s' ≠ s → getSlot p' s' = getSlot p s') →
  (getSlot p' s).2 = 0 → 0 <= i →
  allTuplesFrom p i k = Ok l →
  ∃ l', allTuplesFrom p' i k = Ok l' ∧ l'.*1 = filter (fun x => x ≠ s) l.*1.
Proof.
  intros Hframe Hdead. revert i l.
  induction k as [|k IH]; intros i l Hi; cbn [allTuplesFrom].
  - intros [= <-]. by exists [].
  - destruct (Z.ltb_spec (slotPos i) 0) as [|Hpos]; [done|].
    destruct (decide (i = s)) as [->|Hne].
    + destruct (getSlot p' s) as [off' len'] eqn:Hg'. cbn [snd] in Hdead. subst len'.
      change (0 <? 0) with false. cbn match.
      destruct (getSlot p s) as [off len]. destruct (0 <? len).
      * destruct (PageSize <? off + len); [done|].
        destruct (allTuplesFrom p (s + 1) k) as [rest| |] eqn:Hrest; [|done|done].
        intros [= <-]. destruct (IH (s + 1) rest ltac:(lia) Hrest) as (l' & -> & Hl').
        exists l'. split; [done|]. cbn [fmap list_fmap fst].
        rewrite filter_cons, decide_False by (intros H; by apply H). done.
      * intros Hrest. by apply IH; [lia|].
    + rewrite (Hframe i Hi Hpos Hne).
      destruct (getSlot p i) as [off len]. destruct (0 <? len).
      * destruct (PageSize <? off + len); [done|].
        destruct (allTuplesFrom p (i + 1) k) as [rest| |] eqn:Hrest; [|done|done].
        intros [= <-]. destruct (IH (i + 1) rest ltac:(lia) Hrest) as (l' & -> & Hl').
        eexists. split; [reflexivity|]. cbn [fmap list_fmap fst].
        rewrite filter_cons, decide_True by done. by rewrite <- Hl'.
      * intros Hrest. by apply IH; [lia|].
Qed.

End page_delete.

(** X3. Delete then lookup on a slotted page.  For a slot below the slot
    count (of a page with at most 1017 slots, so that the entry lies outside
    the header) DeleteTuple succeeds; afterwards GetTuple of the slot
    reports ErrSlotNotFound and GetAllTuples lists the slots it listed
    before, without the deleted one.  The slot count, the free-space bounds
    and the entries of all other slots are unchanged: the slot number is not
    reused and no space is given back. *)
Theorem X3_delete_then_get (p : storage.Page) (s : Z) :
  length (storage.Data p) = Z.to_nat storage.PageSize →
  0 <= s < storage.GetSlotCount p → storage.GetSlotCount p <= 1017 →
  ∃ p', storage.DeleteTuple p s = storage.Ok p' ∧
    storage.GetTuple p' s = storage.Err storage.ErrSlotNotFound ∧
    storage.GetSlotCount p' = storage.GetSlotCount p ∧
    storage.GetFreeSpaceOffset p' = storage.GetFreeSpaceOffset p ∧
    storage.GetFreeSpaceEnd p' = storage.GetFreeSpaceEnd p ∧
    (∀ s', 0 <= s' < storage.GetSlotCount p → s' ≠ s →
           storage.getSlot p' s' = storage.getSlot p s') ∧
    (∀ l, storage.GetAllTuples p = storage.Ok l →
          ∃ l', storage.GetAllTuples p' = storage.Ok l' ∧
                l'.*1 = filter (fun x => x ≠ s) l.*1).
Proof.
  intros Hlen Hs Hcount.
  assert (Hsp : ∀ s', 0 <= s' < storage.GetSlotCount p →
                      storage.PageHeaderSize <= storage.slotPos s' <= 4092).
  { intros s' Hs'. unfold storage.slotPos, storage.PageSize, storage.slotSize,
      storage.PageHeaderSize. lia. }
  destruct (DeleteTuple_frame p s Hlen Hs (proj1 (Hsp s Hs)))
    as (p' & Hdel & Hlen' & Hdead & Hbytes).
  pose proof (Hsp s Hs) as Hsps.
  unfold storage.PageHeaderSize, storage.PageSize, storage.slotSize in *.
  assert (Hhdr : ∀ off, 0 <= off → off + 2 <= 28 →
                        bytes.Uint16 (storage.Data p') off = bytes.Uint16 (storage.Data p) off).
  { intros off H1 H2. unfold bytes.Uint16. rewrite Hbytes; [done|lia|lia|lia]. }
  assert (Hentries : ∀ s', 0 <= s' → 0 <= storage.slotPos s' → s' ≠ s →
                           storage.getSlot p' s' = storage.getSlot p s').
  { intros s' Hs' Hpos Hne. unfold storage.getSlot, bytes.Uint16.
    assert (storage.slotPos s' <= 4092 ∧
            (storage.slotPos s' + 4 <= storage.slotPos s ∨
             storage.slotPos s + 4 <= storage.slotPos s'))
      by (unfold storage.slotPos, storage.PageSize, storage.slotSize in *; lia).
    rewrite !Hbytes; [done|lia..]. }
  assert (Hcnt : storage.GetSlotCount p' = storage.GetSlotCount p) by (by apply Hhdr).
  exists p'. split; [done|]. split; [|split; [done|]].
  - unfold storage.GetTuple. rewrite Hcnt.
    destruct (Z.leb_spec (storage.GetSlotCount p) s); [lia|].
    destruct (Z.ltb_spec (storage.slotPos s) 0); [lia|].
    destruct (storage.getSlot p' s) as [off len]. cbn [snd] in Hdead. by subst len.
  - split; [by apply Hhdr|]. split; [by apply Hhdr|]. split.
    + intros s' Hs' Hne. apply Hentries; [lia| |done].
      pose proof (Hsp s' Hs'). lia.
    + intros l Hl. unfold storage.GetAllTuples in *. rewrite Hcnt.
      by apply (allTuplesFrom_delete p p' s 0 _ l).
Qed.

(** The two-payload page: deleting slot 0 leaves slot 1 alone. *)
Lemma X3_delete_then_get_witness :
  length (storage.Data x_page2) = Z.to_nat storage.PageSize ∧
  0 <= 0 < storage.GetSlotCount x_page2 ∧ storage.GetSlotCount x_page2 <= 1017 ∧
  ∃ p', storage.DeleteTuple x_page2 0 = storage.Ok p' ∧
        storage.GetTuple p' 0 = storage.Err storage.ErrSlotNotFound ∧
        storage.GetSlotCount p' = storage.GetSlotCount x_page2.
Proof.
  assert (H1 : length (storage.Data x_page2) = Z.to_nat storage.PageSize)
    by (vm_compute; reflexivity).
  assert (H2 : 0 <= 0 < storage.GetSlotCount x_page2)
    by (vm_compute; split; [discriminate|reflexivity]).
  assert (H3 : storage.GetSlotCount x_page2 <= 1017) by (vm_compute; discriminate).
  split; [exact H1|]. split; [exact H2|]. split; [exact H3|].
  destruct (X3_delete_then_get x_page2 0 H1 H2 H3) as (p' & Hd & Hg & Hc & _).
  exists p'. split; [exact Hd|]. split; [exact Hg | exact Hc].
Defined.

Section page_update.
Import types bytes storage wf layout.





End page_update.


(** ** The page file and the buffer pool *)
Section disk_facts.
Import types bytes storage storage_io wf.

Lemma Deserialize_fields (img : list Z) :
  length img = Z.to_nat PageSize →
  let p := Deserialize img in
  Data p = img ∧ ID p = Uint32 img 0 ∧ LSN p = Uint64 img 8 ∧
  NextPageID p = Uint32 img 22 ∧ IsDirty p = false ∧ PinCount p = 0.
Proof.
  intros Hlen. cbn zeta. pose proof (Deserialize_Data img Hlen) as HD.
  unfold Deserialize in *. cbn [Data ID LSN NextPageID IsDirty PinCount] in *.
  rewrite HD. done.
Qed.

End disk_facts.

(** X5. The page file round-trips pages.  WritePage followed by ReadPage
    of the same id returns the 4096 bytes that were written, as a clean,
    unpinned page whose id, LSN and next-page-id are read from those bytes;
    every other page reads as before.  AllocatePage hands out the page
    count as the new id, and the new page reads back as a freshly
    initialised data page; before the allocation ReadPage of that id fails. *)
Theorem X5_disk_round_trip (dm : storage_io.DiskManager.t) (p : storage.Page) :
  length (storage.Data p) = Z.to_nat storage.PageSize →
  0 <= storage.ID p < storage_io.DiskManager.numPages dm →
  storage_io.DiskManager.numPages dm < 2 ^ 32 - 1 →
  (∃ p', storage_io.DiskManager.ReadPage (storage_io.DiskManager.WritePage dm p) (storage.ID p)
           = Some p' ∧
         storage.Data p' = storage.Data p ∧
         storage.ID p' = bytes.Uint32 (storage.Data p) 0 ∧
         storage.LSN p' = storage.GetLSN p ∧
         storage.NextPageID p' = storage.GetNextPageID p ∧
         storage.IsDirty p' = false ∧ storage.PinCount p' = 0) ∧
  (∀ q, q ≠ storage.ID p →
        storage_io.DiskManager.ReadPage (storage_io.DiskManager.WritePage dm p) q
        = storage_io.DiskManager.ReadPage dm q) ∧
  (let '(dm', id) := storage_io.DiskManager.AllocatePage dm in
   id = storage_io.DiskManager.numPages dm ∧
   storage_io.DiskManager.numPages dm' = id + 1 ∧
   storage_io.DiskManager.ReadPage dm id = None ∧
   ∃ p0, storage_io.DiskManager.ReadPage dm' id = Some p0 ∧
         storage.Data p0 = storage.Data (storage.NewPage id storage.PageTypeData) ∧
         storage.GetSlotCount p0 = 0 ∧
         (∀ q, q ≠ id → q < id →
               storage_io.DiskManager.ReadPage dm' q = storage_io.DiskManager.ReadPage dm q)).
Proof.
  intros Hlen Hid Hn. split; [|split].
  - unfold storage_io.DiskManager.ReadPage, storage_io.DiskManager.WritePage.
    cbn [storage_io.DiskManager.numPages storage_io.DiskManager.file].
    destruct (Z.leb_spec (storage_io.DiskManager.numPages dm) (storage.ID p)); [lia|].
    rewrite lookup_insert_eq. cbv [from_option id].
    rewrite Serialize_full by done.
    destruct (Deserialize_fields (storage.Data p) Hlen) as (F1 & F2 & F3 & F4 & F5 & F6).
    eexists. split; [reflexivity|]. done.
  - intros q Hq. unfold storage_io.DiskManager.ReadPage, storage_io.DiskManager.WritePage.
    cbn [storage_io.DiskManager.numPages storage_io.DiskManager.file].
    by rewrite lookup_insert_ne.
  - unfold storage_io.DiskManager.AllocatePage.
    set (pid := storage_io.DiskManager.numPages dm).
    split; [done|]. cbn [storage_io.DiskManager.numPages].
    split; [rewrite Z.mod_small; lia|]. split.
    { unfold storage_io.DiskManager.ReadPage. fold pid.
      destruct (Z.leb_spec pid pid); [done|lia]. }
    unfold storage_io.DiskManager.ReadPage.
    cbn [storage_io.DiskManager.numPages storage_io.DiskManager.file].
    rewrite (Z.mod_small (pid + 1)) by lia.
    destruct (Z.leb_spec (pid + 1) pid); [lia|].
    rewrite lookup_insert_eq. cbv [from_option id].
    pose proof (NewPage_length pid storage.PageTypeData) as Hl.
    rewrite Serialize_full by done.
    destruct (Deserialize_fields _ Hl) as (F1 & _).
    eexists. split; [reflexivity|]. split; [done|]. split.
    + unfold storage.GetSlotCount. rewrite F1.
      apply (NewPage_header pid storage.PageTypeData).
    + intros q Hq Hlt. fold pid.
      destruct (Z.leb_spec (pid + 1) q); [lia|].
      destruct (Z.leb_spec pid q); [lia|]. by rewrite lookup_insert_ne.
Qed.

(** The one-payload page written to a file of one page. *)
Lemma X5_disk_round_trip_witness :
  length (storage.Data x_page1) = Z.to_nat storage.PageSize ∧
  0 <= storage.ID x_page1
    < storage_io.DiskManager.numPages (storage_io.BufferPool.diskManager c9_state1.1) ∧
  storage_io.DiskManager.numPages (storage_io.BufferPool.diskManager c9_state1.1) < 2 ^ 32 - 1 ∧
  ∃ p', storage_io.DiskManager.ReadPage
          (storage_io.DiskManager.WritePage
             (storage_io.BufferPool.diskManager c9_state1.1) x_page1) (storage.ID x_page1)
        = Some p' ∧
        storage.Data p' = storage.Data x_page1.
Proof.
  assert (H1 : length (storage.Data x_page1) = Z.to_nat storage.PageSize)
    by (vm_compute; reflexivity).
  assert (H2 : 0 <= storage.ID x_page1
               < storage_io.DiskManager.numPages (storage_io.BufferPool.diskManager c9_state1.1))
    by (vm_compute; split; [discriminate|reflexivity]).
  assert (H3 : storage_io.DiskManager.numPages (storage_io.BufferPool.diskManager c9_state1.1)
               < 2 ^ 32 - 1) by (vm_compute; reflexivity).
  split; [exact H1|]. split; [exact H2|]. split; [exact H3|].
  destruct (X5_disk_round_trip _ x_page1 H1 H2 H3) as [(p' & Hr & Hd & _) _].
  exists p'. split; [exact Hr | exact Hd].
Defined.

Section eviction.
Import types bytes storage storage_io wf pool.

Lemma elem_of_rev {A} (x : A) (l : list A) : x ∈ rev l ↔ x ∈ l.
Proof. rewrite !list_elem_of_In. symmetry. apply in_rev. Qed.

(** The scan of evictOne over the candidates: it passes the pinned pages
    and takes the first page with pin count 0. *)
Lemma evictScan_spec (bp : BufferPool.t) (cands : list Z) :
  match BufferPool.evictScan bp cands with
  | Done bp' _ =>
    ∃ c1 v c2 pv, cands = c1 ++ v :: c2 ∧ Forall (pinned bp) c1 ∧
      BufferPool.pages bp !! v = Some pv ∧ PinCount pv = 0 ∧
      bp' = {| BufferPool.diskManager :=
                 (if IsDirty pv then DiskManager.WritePage (BufferPool.diskManager bp) pv
                  else BufferPool.diskManager bp);
               BufferPool.pages := delete v (BufferPool.pages bp);
               BufferPool.capacity := BufferPool.capacity bp;
               BufferPool.lruList := BufferPool.removeLRU (BufferPool.lruList bp) v;
               BufferPool.hits := BufferPool.hits bp;
               BufferPool.misses := BufferPool.misses bp |}
  | Fail bp' => bp' = bp ∧ Forall (pinned bp) cands
  | Crash => ∃ q, q ∈ cands ∧ BufferPool.pages bp !! q = None
  end.
Proof.
  induction cands as [|q rest IH]; cbn [BufferPool.evictScan]; [done|].
  destruct (BufferPool.pages bp !! q) as [pg|] eqn:Hq.
  - destruct (Z.eqb_spec (PinCount pg) 0) as [Hz|Hnz].
    + exists [], q, rest, pg. done.
    + assert (Hp : pinned bp q) by (unfold pinned; by rewrite Hq).
      destruct (BufferPool.evictScan bp rest) as [bp' []| bp' |].
      * destruct IH as (c1 & v & c2 & pv & -> & Hc1 & Hv & Hpin & ->).
        exists (q :: c1), v, c2, pv. split; [done|]. split; [by constructor|]. done.
      * destruct IH as [-> Hall]. split; [done|by constructor].
      * destruct IH as (q' & Hin & Hnone). exists q'. split; [by right|done].
  - exists q. split; [by left|done].
Qed.

End eviction.

(** X6. The eviction policy of the buffer pool.  evictOne removes the
    least recently used page whose pin count is 0: every page behind it in
    the LRU order is pinned.  A dirty victim is written to the page file
    first, a clean one is dropped without a write.  evictOne fails, and
    changes nothing, exactly when every page of the LRU list is pinned. *)
Theorem X6_evict_least_recent_unpinned (bp : storage_io.BufferPool.t) :
  (∀ bp', storage_io.BufferPool.evictOne bp = storage_io.Done bp' tt →
     ∃ front v back pv,
       storage_io.BufferPool.lruList bp = front ++ v :: back ∧
       Forall (pool.pinned bp) back ∧
       storage_io.BufferPool.pages bp !! v = Some pv ∧ storage.PinCount pv = 0 ∧
       storage_io.BufferPool.pages bp' = delete v (storage_io.BufferPool.pages bp) ∧
       storage_io.BufferPool.lruList bp' =
         storage_io.BufferPool.removeLRU (storage_io.BufferPool.lruList bp) v ∧
       storage_io.BufferPool.diskManager bp' =
         (if storage.IsDirty pv
          then storage_io.DiskManager.WritePage (storage_io.BufferPool.diskManager bp) pv
          else storage_io.BufferPool.diskManager bp)) ∧
  (∀ bp', storage_io.BufferPool.evictOne bp = storage_io.Fail bp' →
     bp' = bp ∧ Forall (pool.pinned bp) (storage_io.BufferPool.lruList bp)) ∧
  (Forall (pool.pinned bp) (storage_io.BufferPool.lruList bp) →
   storage_io.BufferPool.evictOne bp = storage_io.Fail bp).
Proof.
  unfold storage_io.BufferPool.evictOne.
  pose proof (evictScan_spec bp (rev (storage_io.BufferPool.lruList bp))) as Hspec.
  split; [|split].
  - intros bp' Hev. rewrite Hev in Hspec.
    destruct Hspec as (c1 & v & c2 & pv & Hrev & Hc1 & Hv & Hpin & ->).
    exists (rev c2), v, (rev c1), pv.
    split.
    { rewrite <- (rev_involutive (storage_io.BufferPool.lruList bp)), Hrev.
      rewrite rev_app_distr. cbn [rev]. by rewrite <- app_assoc. }
    split; [by apply Forall_rev|]. done.
  - intros bp' Hev. rewrite Hev in Hspec. destruct Hspec as [-> Hall].
    split; [done|]. rewrite <- (rev_involutive (storage_io.BufferPool.lruList bp)).
    by apply Forall_rev.
  - intros Hall.
    destruct (storage_io.BufferPool.evictScan bp (rev (storage_io.BufferPool.lruList bp)))
      as [bp' []| bp' |].
    + destruct Hspec as (c1 & v & c2 & pv & Hrev & _ & Hv & Hpin & _).
      exfalso. rewrite Forall_forall in Hall.
      assert (Hin : v ∈ storage_io.BufferPool.lruList bp).
      { apply elem_of_rev. rewrite Hrev. apply elem_of_app. right. by left. }
      specialize (Hall v Hin). unfold pool.pinned in Hall. rewrite Hv in Hall. done.
    + by destruct Hspec as [-> _].
    + destruct Hspec as (q & Hin & Hnone). exfalso. rewrite Forall_forall in Hall.
      apply (proj1 (elem_of_rev _ _)) in Hin. specialize (Hall q Hin).
      unfold pool.pinned in Hall. by rewrite Hnone in Hall.
Qed.

Section pool_capacity.
Import types bytes storage storage_io wf pool.

Lemma touchLRU_pages (bp : BufferPool.t) (q : Z) :
  BufferPool.pages (BufferPool.touchLRU bp q) = BufferPool.pages bp ∧
  BufferPool.capacity (BufferPool.touchLRU bp q) = BufferPool.capacity bp ∧
  BufferPool.diskManager (BufferPool.touchLRU bp q) = BufferPool.diskManager bp.
Proof. unfold BufferPool.touchLRU. by destruct (decide (q ∈ BufferPool.lruList bp)). Qed.

(** makeRoom: below capacity nothing happens; at capacity one unpinned
    page leaves the cache. *)
Lemma makeRoom_spec (bp bp' : BufferPool.t) :
  within_capacity bp → BufferPool.makeRoom bp = Done bp' tt →
  Z.of_nat (size (BufferPool.pages bp')) < BufferPool.capacity bp ∧
  BufferPool.capacity bp' = BufferPool.capacity bp ∧
  (∀ q, pinned bp q → BufferPool.pages bp' !! q = BufferPool.pages bp !! q) ∧
  (∀ q pg, BufferPool.pages bp' !! q = Some pg → BufferPool.pages bp !! q = Some pg).
Proof.
  unfold within_capacity, BufferPool.makeRoom. intros Hcap.
  destruct (Z.leb_spec (BufferPool.capacity bp) (Z.of_nat (size (BufferPool.pages bp)))) as [Hfull|Hroom].
  - intros Hev. pose proof (evictScan_spec bp (rev (BufferPool.lruList bp))) as Hspec.
    unfold BufferPool.evictOne in Hev. rewrite Hev in Hspec.
    destruct Hspec as (c1 & v & c2 & pv & _ & _ & Hv & Hpin & ->).
    cbn [BufferPool.pages BufferPool.capacity].
    split.
    { rewrite map_size_delete, Hv.
      assert (size (BufferPool.pages bp) ≠ 0%nat).
      { apply map_size_ne_0_lookup_2 with v. by rewrite Hv. }
      lia. }
    split; [done|]. split.
    + intros q Hq. apply lookup_delete_ne. intros <-.
      unfold pinned in Hq. rewrite Hv in Hq. done.
    + intros q pg Hq. apply lookup_delete_Some in Hq. tauto.
  - intros [= <-]. split; [lia|]. done.
Qed.

End pool_capacity.

(** X7. The buffer pool keeps within its capacity and keeps pinned pages.
    If the cache holds at most capacity pages, it still does after a
    successful FetchPage or NewPage; the page returned is cached under its
    id with the pin count raised by one (1 for a page that was not cached);
    every other page that was pinned is still cached, unchanged.  FetchPage
    fails, leaving the cache as it was, only when the page file has no such
    page or the pool is full and every page of the LRU list is pinned. *)
Theorem X7_pool_capacity_and_pins (bp : storage_io.BufferPool.t) (q : Z) :
  pool.within_capacity bp →
  (∀ bp' p, storage_io.BufferPool.FetchPage bp q = storage_io.Done bp' p →
     pool.within_capacity bp' ∧
     storage_io.BufferPool.capacity bp' = storage_io.BufferPool.capacity bp ∧
     storage_io.BufferPool.pages bp' !! q = Some p ∧
     storage.PinCount p =
       match storage_io.BufferPool.pages bp !! q with
       | Some pg => storage.PinCount pg + 1
       | None => 1
       end ∧
     (∀ q', q' ≠ q → pool.pinned bp q' →
            storage_io.BufferPool.pages bp' !! q' = storage_io.BufferPool.pages bp !! q')) ∧
  (∀ bp' p ty, storage_io.BufferPool.NewPage bp ty = storage_io.Done bp' p →
     pool.within_capacity bp' ∧
     storage_io.BufferPool.capacity bp' = storage_io.BufferPool.capacity bp ∧
     storage.ID p = storage_io.DiskManager.numPages (storage_io.BufferPool.diskManager bp) ∧
     storage_io.BufferPool.pages bp' !! storage.ID p = Some p ∧
     storage.PinCount p = 1 ∧ storage.IsDirty p = true ∧
     (∀ q', q' ≠ storage.ID p → pool.pinned bp q' →
            storage_io.BufferPool.pages bp' !! q' = storage_io.BufferPool.pages bp !! q')) ∧
  (∀ bp', storage_io.BufferPool.FetchPage bp q = storage_io.Fail bp' →
     storage_io.BufferPool.pages bp' = storage_io.BufferPool.pages bp ∧
     storage_io.BufferPool.diskManager bp' = storage_io.BufferPool.diskManager bp ∧
     (storage_io.DiskManager.numPages (storage_io.BufferPool.diskManager bp) <= q ∨
      (storage_io.BufferPool.capacity bp
         <= Z.of_nat (size (storage_io.BufferPool.pages bp)) ∧
       Forall (pool.pinned bp) (storage_io.BufferPool.lruList bp)))).
Proof.
  intros Hcap. split; [|split].
  - intros bp' p. unfold storage_io.BufferPool.FetchPage.
    destruct (storage_io.BufferPool.pages bp !! q) as [pg|] eqn:Hq.
    + intros [= <- <-]. unfold pool.within_capacity, storage_io.BufferPool.setPage,
        storage_io.BufferPool.withPages in *.
      cbn [storage_io.BufferPool.pages storage_io.BufferPool.capacity].
      match goal with |- context [storage_io.BufferPool.touchLRU ?b q] =>
        destruct (touchLRU_pages b q) as (Hp & Hc & _) end.
      rewrite Hp, Hc. cbn [storage_io.BufferPool.pages storage_io.BufferPool.capacity].
      split; [by rewrite map_size_insert_Some|]. split; [done|].
      split; [by rewrite lookup_insert_eq|]. split; [done|].
      intros q' Hne _. by rewrite lookup_insert_ne.
    + destruct (storage_io.DiskManager.ReadPage _ q) as [page|]; [|done].
      match goal with |- context [storage_io.BufferPool.makeRoom ?b] =>
        set (bp1 := b) end.
      destruct (storage_io.BufferPool.makeRoom bp1) as [bp2 []| |] eqn:Hroom; [|done|done].
      destruct (makeRoom_spec bp1 bp2 Hcap Hroom) as (Hsz & Hc & Hpinned & Hsub).
      intros [= <- <-]. unfold pool.within_capacity, storage_io.BufferPool.addToLRU,
        storage_io.BufferPool.setPage, storage_io.BufferPool.withPages.
      cbn [storage_io.BufferPool.pages storage_io.BufferPool.capacity].
      change (storage_io.BufferPool.capacity bp1) with (storage_io.BufferPool.capacity bp) in *.
      split.
      { rewrite map_size_insert. destruct (storage_io.BufferPool.pages bp2 !! q); cbn; lia. }
      split; [done|]. split; [by rewrite lookup_insert_eq|]. split; [done|].
      intros q' Hne Hpin. rewrite lookup_insert_ne by done. by apply Hpinned.
  - intros bp' p ty. unfold storage_io.BufferPool.NewPage.
    destruct (storage_io.DiskManager.AllocatePage _) as [dm pid] eqn:Ha.
    match goal with |- context [storage_io.BufferPool.makeRoom ?b] =>
      set (bp1 := b) end.
    destruct (storage_io.BufferPool.makeRoom bp1) as [bp2 []| |] eqn:Hroom; [|done|done].
    destruct (makeRoom_spec bp1 bp2 Hcap Hroom) as (Hsz & Hc & Hpinned & Hsub).
    unfold storage_io.DiskManager.AllocatePage in Ha. injection Ha as <- <-.
    intros [= <- <-]. unfold pool.within_capacity, storage_io.BufferPool.addToLRU,
      storage_io.BufferPool.setPage, storage_io.BufferPool.withPages.
    cbn [storage_io.BufferPool.pages storage_io.BufferPool.capacity storage.ID
         storage.PinCount storage.IsDirty storage.withPin storage.withDirty].
    change (storage_io.BufferPool.capacity bp1) with (storage_io.BufferPool.capacity bp) in *.
    rewrite NewPage_ID.
    split.
    { rewrite map_size_insert.
      destruct (storage_io.BufferPool.pages bp2 !! _); cbn; lia. }
    split; [done|]. split; [done|]. split; [by rewrite lookup_insert_eq|].
    split; [done|]. split; [done|].
    intros q' Hne Hpin. rewrite lookup_insert_ne by done. by apply Hpinned.
  - intros bp'. unfold storage_io.BufferPool.FetchPage.
    destruct (storage_io.BufferPool.pages bp !! q) as [pg|] eqn:Hq; [done|].
    unfold storage_io.DiskManager.ReadPage.
    cbn [storage_io.BufferPool.diskManager].
    destruct (Z.leb_spec (storage_io.DiskManager.numPages (storage_io.BufferPool.diskManager bp)) q)
      as [Hout|Hin].
    + intros [= <-]. split; [done|]. split; [done|]. by left.
    + match goal with |- context [storage_io.BufferPool.makeRoom ?b] =>
        set (bp1 := b) end.
      destruct (storage_io.BufferPool.makeRoom bp1) as [bp2 []| bp2 |] eqn:Hroom; [done| |done].
      intros [= <-]. unfold storage_io.BufferPool.makeRoom in Hroom.
      change (storage_io.BufferPool.capacity bp1) with (storage_io.BufferPool.capacity bp) in *.
      change (storage_io.BufferPool.pages bp1) with (storage_io.BufferPool.pages bp) in *.
      destruct (Z.leb_spec (storage_io.BufferPool.capacity bp)
                  (Z.of_nat (size (storage_io.BufferPool.pages bp)))) as [Hfull|]; [|done].
      pose proof (evictScan_spec bp1 (rev (storage_io.BufferPool.lruList bp1))) as Hspec.
      unfold storage_io.BufferPool.evictOne in Hroom. rewrite Hroom in Hspec.
      destruct Hspec as [-> Hall]. split; [done|]. split; [done|]. right.
      split; [done|]. apply Forall_rev in Hall. rewrite rev_involutive in Hall.
      exact Hall.
Qed.

(** The pool of four frames that caches one heap page. *)
Lemma X7_pool_capacity_and_pins_witness :
  pool.within_capacity c9_state1.1 ∧
  ∀ bp' p, storage_io.BufferPool.FetchPage c9_state1.1 0 = storage_io.Done bp' p →
           pool.within_capacity bp' ∧ storage_io.BufferPool.pages bp' !! 0 = Some p.
Proof.
  assert (H1 : pool.within_capacity c9_state1.1)
    by (apply (bool_decide_unpack _); vm_compute; exact I).
  split; [exact H1|].
  intros bp' p Hf.
  destruct (X7_pool_capacity_and_pins c9_state1.1 0 H1) as [Hfetch _].
  destruct (Hfetch bp' p Hf) as (Hc & _ & Hp & _). split; [exact Hc | exact Hp].
Defined.

(** X8. The buffer pool is a transparent cache.  On a pool whose cached
    pages agree with the page file (each clean cached page equals its disk
    image, every page of the file has a full image), FetchPage returns the
    current bytes of the page, cached or read from the file, and changes
    the bytes of no page, also when it evicts and writes back a dirty page
    on the way; a failed FetchPage and UnpinPage change no page either; a
    new page starts as an initialised page and leaves the others alone.
    The agreement with the file holds for a new pool on an empty file and
    is kept by all these operations. *)
Theorem X8_pool_transparent (bp : storage_io.BufferPool.t) (q : Z) :
  wf.coherent bp → 0 <= q →
  0 <= storage_io.DiskManager.numPages (storage_io.BufferPool.diskManager bp) < 2 ^ 32 - 1 →
  (∀ bp' p, storage_io.BufferPool.FetchPage bp q = storage_io.Done bp' p →
     wf.coherent bp' ∧ wf.content bp q = Some (storage.Data p) ∧ storage.ID p = q ∧
     ∀ q', wf.content bp' q' = wf.content bp q') ∧
  (∀ bp', storage_io.BufferPool.FetchPage bp q = storage_io.Fail bp' →
     wf.coherent bp' ∧ ∀ q', wf.content bp' q' = wf.content bp q') ∧
  (∀ d, wf.coherent (storage_io.BufferPool.UnpinPage bp q d) ∧
        ∀ q', wf.content (storage_io.BufferPool.UnpinPage bp q d) q' = wf.content bp q') ∧
  (∀ bp' p ty, storage_io.BufferPool.NewPage bp ty = storage_io.Done bp' p →
     wf.coherent bp' ∧
     wf.content bp (storage.ID p) = None ∧
     wf.content bp' (storage.ID p)
       = Some (storage.Data (storage.NewPage (storage.ID p) ty)) ∧
     ∀ q', q' ≠ storage.ID p → wf.content bp' q' = wf.content bp q') ∧
  (∀ cap, wf.coherent
            (storage_io.BufferPool.NewBufferPool
               {| storage_io.DiskManager.numPages := 0;
                  storage_io.DiskManager.file := ∅ |} cap)).
Proof.
  intros Hc Hq Hn. split; [|split; [|split; [|split]]].
  - intros bp' p Hf.
    destruct (FetchPage_coherent bp bp' q p Hc Hq Hf) as (Hc' & Hcont & _ & Hcq & HID & _).
    done.
  - intros bp' Hf. by apply (FetchPage_Fail_coherent bp bp' q).
  - intros d. destruct (UnpinPage_coherent bp q d Hc) as (Hc' & Hcont & _). done.
  - intros bp' p ty Hnew.
    destruct (NewPage_coherent bp bp' ty p Hc Hn Hnew) as (HID & HD & Hc' & Hp & Hnone & Hfr & _).
    rewrite HID. split; [done|]. split; [done|]. split; [|done].
    unfold wf.content. by rewrite Hp, HD.
  - intros cap. split.
    + apply map_Forall_empty.
    + cbn. constructor.
Qed.

(** The pool that caches one heap page: fetching page 0 returns its bytes. *)
Lemma X8_pool_transparent_witness :
  wf.coherent c9_state1.1 ∧ 0 <= 0 ∧
  0 <= storage_io.DiskManager.numPages (storage_io.BufferPool.diskManager c9_state1.1)
    < 2 ^ 32 - 1 ∧
  ∀ bp' p, storage_io.BufferPool.FetchPage c9_state1.1 0 = storage_io.Done bp' p →
           wf.content c9_state1.1 0 = Some (storage.Data p).
Proof.
  assert (H1 : wf.coherent c9_state1.1) by (apply (bool_decide_unpack _); vm_compute; exact I).
  assert (H2 : 0 <= 0) by lia.
  assert (H3 : 0 <= storage_io.DiskManager.numPages (storage_io.BufferPool.diskManager c9_state1.1)
               < 2 ^ 32 - 1) by (vm_compute; split; [discriminate|reflexivity]).
  split; [exact H1|]. split; [exact H2|]. split; [exact H3|].
  intros bp' p Hf.
  destruct (X8_pool_transparent c9_state1.1 0 H1 H2 H3) as [Hfetch _].
  destruct (Hfetch bp' p Hf) as (_ & Hcont & _). exact Hcont.
Defined.

Section pool_flush.
Import types bytes storage storage_io wf pool.

Lemma withDirty_clean (p : Page) : IsDirty p = false → withDirty p false = p.
Proof. destruct p. cbn. by intros ->. Qed.

(** FlushPage writes the cached page if it is dirty and marks it clean. *)
Lemma FlushPage_spec (bp : BufferPool.t) (id : Z) :
  coherent bp →
  coherent (BufferPool.FlushPage bp id) ∧
  (∀ q, content (BufferPool.FlushPage bp id) q = content bp q) ∧
  (∀ q, BufferPool.pages (BufferPool.FlushPage bp id) !! q =
        if decide (q = id) then (fun p => withDirty p false) <$> BufferPool.pages bp !! q
        else BufferPool.pages bp !! q).
Proof.
  intros Hc. unfold BufferPool.FlushPage.
  destruct (BufferPool.pages bp !! id) as [p|] eqn:Hp.
  2:{ split; [done|]. split; [done|]. intros q.
      destruct (decide (q = id)) as [->|]; [by rewrite Hp|done]. }
  destruct (IsDirty p) eqn:Hdirty.
  2:{ split; [done|]. split; [done|]. intros q.
      destruct (decide (q = id)) as [->|]; [|done].
      rewrite Hp. cbn. by rewrite withDirty_clean. }
  destruct (coherent_cached bp id p Hc Hp) as (Hlen & Hid & Hu & Hrange & _).
  unfold BufferPool.setPage, BufferPool.withPages.
  cbn [BufferPool.pages BufferPool.diskManager BufferPool.capacity BufferPool.lruList
       BufferPool.hits BufferPool.misses].
  unfold DiskManager.WritePage. rewrite Hid, Serialize_full by done.
  split; [|split].
  - split.
    + cbn [BufferPool.pages BufferPool.diskManager].
      apply map_Forall_lookup. intros q pg Hq.
      destruct (decide (q = id)) as [->|Hne].
      * rewrite lookup_insert_eq in Hq. injection Hq as <-.
        unfold cached_ok. cbn [Data ID IsDirty withDirty DiskManager.numPages DiskManager.file].
        rewrite lookup_insert_eq. done.
      * rewrite lookup_insert_ne in Hq by done.
        destruct (coherent_cached bp q pg Hc Hq) as (? & ? & ? & ? & Hcl).
        unfold cached_ok. cbn [DiskManager.numPages DiskManager.file].
        rewrite lookup_insert_ne by done. done.
    + cbn [BufferPool.diskManager DiskManager.numPages].
      apply Forall_forall. intros q Hq. unfold image_ok. cbn [DiskManager.file].
      destruct (decide (q = id)) as [->|Hne].
      * by rewrite lookup_insert_eq.
      * rewrite lookup_insert_ne by done. destruct Hc as [_ Hi].
        rewrite Forall_forall in Hi. by apply Hi.
  - intros q. unfold content. cbn [BufferPool.pages BufferPool.diskManager].
    destruct (decide (q = id)) as [->|Hne].
    + by rewrite lookup_insert_eq, Hp.
    + rewrite lookup_insert_ne by done.
      destruct (BufferPool.pages bp !! q); [done|].
      unfold DiskManager.ReadPage. cbn [DiskManager.numPages DiskManager.file].
      by rewrite lookup_insert_ne.
  - intros q. cbn [BufferPool.pages].
    destruct (decide (q = id)) as [->|Hne].
    + by rewrite lookup_insert_eq, Hp.
    + by rewrite lookup_insert_ne.
Qed.

Lemma FlushAll_spec (l : list Z) (bp : BufferPool.t) :
  coherent bp →
  let bp' := foldl (fun b pageID => BufferPool.FlushPage b pageID) bp l in
  coherent bp' ∧ (∀ q, content bp' q = content bp q) ∧
  (∀ q, BufferPool.pages bp' !! q =
        if decide (q ∈ l) then (fun p => withDirty p false) <$> BufferPool.pages bp !! q
        else BufferPool.pages bp !! q).
Proof.
  revert bp. induction l as [|id l IH]; intros bp Hc; cbn [foldl].
  - split; [done|]. split; [done|]. intros q. rewrite decide_False; [done|].
    by intros ?%elem_of_nil.
  - destruct (FlushPage_spec bp id Hc) as (Hc1 & Hcont1 & Hp1).
    destruct (IH _ Hc1) as (Hc2 & Hcont2 & Hp2).
    split; [done|]. split; [intros q; by rewrite Hcont2|].
    intros q. rewrite Hp2, Hp1.
    destruct (decide (q ∈ l)) as [Hin|Hnin]; destruct (decide (q = id)) as [->|Hne].
    + rewrite decide_True by (by left). by destruct (BufferPool.pages bp !! id).
    + rewrite decide_True by (by right). done.
    + rewrite decide_True by (by left). done.
    + rewrite decide_False; [done|]. by intros [?|?]%elem_of_cons.
Qed.

End pool_flush.

(** X9. FlushAllPages leaves no dirty page.  On a pool that agrees with
    the page file, after FlushAllPages every cached page is marked clean
    and equals its image in the file, GetDirtyPages is empty, the same
    pages are cached with the same bytes and pin counts, and no page's
    bytes have changed. *)
Theorem X9_flush_all_cleans (bp : storage_io.BufferPool.t) :
  wf.coherent bp →
  let bp' := storage_io.BufferPool.FlushAllPages bp in
  wf.coherent bp' ∧
  storage_io.BufferPool.GetDirtyPages bp' = ∅ ∧
  (∀ q, storage_io.BufferPool.pages bp' !! q =
        (fun p => storage.withDirty p false) <$> storage_io.BufferPool.pages bp !! q) ∧
  (∀ q p, storage_io.BufferPool.pages bp' !! q = Some p →
          storage_io.DiskManager.file (storage_io.BufferPool.diskManager bp') !! q
          = Some (storage.Data p)) ∧
  (∀ q, wf.content bp' q = wf.content bp q).
Proof.
  intros Hc bp'. unfold storage_io.BufferPool.FlushAllPages in bp'.
  destruct (FlushAll_spec (map_to_list (storage_io.BufferPool.pages bp)).*1 bp Hc)
    as (Hc' & Hcont & Hp). fold bp' in Hc', Hcont, Hp.
  assert (Hpages : ∀ q, storage_io.BufferPool.pages bp' !! q =
            (fun p => storage.withDirty p false) <$> storage_io.BufferPool.pages bp !! q).
  { intros q. rewrite Hp.
    destruct (decide (q ∈ (map_to_list (storage_io.BufferPool.pages bp)).*1)) as [|Hnin];
      [done|].
    destruct (storage_io.BufferPool.pages bp !! q) as [pg|] eqn:Hq; [|done].
    exfalso. apply Hnin. apply list_elem_of_fmap. exists (q, pg).
    split; [done|]. by apply elem_of_map_to_list. }
  assert (Hclean : ∀ q p, storage_io.BufferPool.pages bp' !! q = Some p →
                          storage.IsDirty p = false).
  { intros q p Hq. rewrite Hpages in Hq.
    destruct (storage_io.BufferPool.pages bp !! q); [|done]. by injection Hq as <-. }
  split; [done|]. split; [|split; [done|split; [|done]]].
  - unfold storage_io.BufferPool.GetDirtyPages.
    replace (filter _ (storage_io.BufferPool.pages bp')) with (∅ : gmap Z storage.Page);
      [apply fmap_empty|].
    symmetry. apply map_empty_filter_2. intros q p Hq. cbn.
    rewrite (Hclean q p Hq). done.
  - intros q p Hq.
    destruct (coherent_cached bp' q p Hc' Hq) as (_ & _ & _ & _ & Hcl).
    apply Hcl. by apply (Hclean q).
Qed.

(** The pool whose one cached heap page is dirty. *)
Lemma X9_flush_all_cleans_witness :
  wf.coherent c9_state1.1 ∧
  storage_io.BufferPool.GetDirtyPages (storage_io.BufferPool.FlushAllPages c9_state1.1) = ∅.
Proof.
  assert (H1 : wf.coherent c9_state1.1) by (apply (bool_decide_unpack _); vm_compute; exact I).
  split; [exact H1|].
  destruct (X9_flush_all_cleans c9_state1.1 H1) as (_ & Hd & _). exact Hd.
Defined.
(** ** The table heap: lookups after insert *)
Section heap_round_trip.
Import types bytes storage storage_io wf layout ranges.

Lemma GetTuple_Data (p p' : Page) (s : Z) :
  Data p' = Data p → GetTuple p' s = GetTuple p s.
Proof.
  intros HD. unfold GetTuple, GetSlotCount, getSlot. by rewrite HD.
Qed.

Lemma UnpinPage_lookup (bp : BufferPool.t) (q : Z) (d : bool) (pg : Page) :
  BufferPool.pages bp !! q = Some pg →
  ∃ pg', BufferPool.pages (BufferPool.UnpinPage bp q d) !! q = Some pg' ∧
         Data pg' = Data pg ∧ ID pg' = ID pg.
Proof.
  intros Hq. unfold BufferPool.UnpinPage. rewrite Hq.
  unfold BufferPool.setPage, BufferPool.withPages. cbn [BufferPool.pages].
  rewrite lookup_insert_eq. eexists. split; [reflexivity|].
  destruct d; cbn; destruct (0 <? _); done.
Qed.

(** Insert into the heap's last page when the payload fits there. *)
Lemma Insert_fits (bp bp1 : BufferPool.t) (th : TableHeap.t) (tuple : Tuple) (page : Page) :
  coherent bp → 0 <= TableHeap.lastPage th →
  BufferPool.FetchPage bp (TableHeap.lastPage th) = Done bp1 page →
  header_ok page → dir_below page →
  Z.of_nat (length (tuple_codec.Serialize tuple)) <= FreeSpace page →
  ∃ bp' pg,
    TableHeap.Insert bp th tuple
      = Done (bp', th) (TableHeap.lastPage th, GetSlotCount page) ∧
    coherent bp' ∧
    BufferPool.pages bp' !! TableHeap.lastPage th = Some pg ∧
    GetTuple pg (GetSlotCount page) = Ok (tuple_codec.Serialize tuple) ∧
    (∀ q, q ≠ TableHeap.lastPage th → content bp' q = content bp q).
Proof.
  intros Hc Hlast Hf Hok Hdir Hfit.
  destruct (FetchPage_coherent bp bp1 _ page Hc Hlast Hf)
    as (Hc1 & Hcont1 & Hq1 & _ & HID & Hlen & Hn1).
  destruct (coherent_cached bp1 _ page Hc1 Hq1) as (_ & _ & Hu & Hrange & _).
  assert (Hlen1 : 1 <= Z.of_nat (length (tuple_codec.Serialize tuple)) <= FreeSpace page).
  { split; [|done]. rewrite length_Serialize. lia. }
  destruct (InsertTuple_clear page _ Hok Hdir Hlen1)
    as (p' & Hins & Hcnt & Hslot & Hread & _ & _).
  destruct (InsertTuple_frame page p' _ _ Hok Hins) as (Hlen' & HID' & Hdirty' & Hu' & _).
  unfold TableHeap.Insert. rewrite Hf, Hins. rewrite HID', HID.
  set (bp2 := BufferPool.setPage bp1 (TableHeap.lastPage th) p').
  assert (Hcached : cached_ok (BufferPool.diskManager bp1) (TableHeap.lastPage th) p').
  { unfold cached_ok. rewrite Hlen', HID', HID, Hu', Hu, Hdirty'. done. }
  destruct (setPage_coherent bp1 _ p' Hc1 Hcached) as (Hc2 & Hcont2 & Hfr2). fold bp2 in Hc2, Hcont2, Hfr2.
  destruct (UnpinPage_coherent bp2 (TableHeap.lastPage th) true Hc2) as (Hc3 & Hcont3 & _).
  assert (Hp2 : BufferPool.pages bp2 !! TableHeap.lastPage th = Some p').
  { unfold bp2, BufferPool.setPage, BufferPool.withPages. cbn [BufferPool.pages].
    by rewrite lookup_insert_eq. }
  destruct (UnpinPage_lookup bp2 _ true p' Hp2) as (pg & Hpg & HDpg & _).
  eexists _, pg. split; [reflexivity|]. split; [done|]. split; [done|]. split.
  - rewrite (GetTuple_Data p' pg) by done.
    assert (Hg := GetTuple_Ok p' (GetSlotCount page)).
    rewrite Hslot, Hcnt in Hg. cbn [fst snd] in Hg.
    destruct Hok as (_ & Hoff & Hend & Hn0 & Hsp).
    rewrite Hg, Nat2Z.id, Hread; [done|lia| | |].
    + unfold PageHeaderSize in Hsp. lia.
    + lia.
    + lia.
  - intros q Hq. rewrite Hcont3, Hfr2 by done. apply Hcont1.
Qed.


(** Get of a tuple stored on a cached page. *)
Lemma Get_cached (bp : BufferPool.t) (q s : Z) (pg : Page) (tuple : Tuple) :
  BufferPool.pages bp !! q = Some pg →
  GetTuple pg s = Ok (tuple_codec.Serialize tuple) → tuple_ok tuple →
  ∃ bp', TableHeap.Get bp q s = Done bp' tuple.
Proof.
  intros Hq Hg Hok. unfold TableHeap.Get, BufferPool.FetchPage. rewrite Hq.
  rewrite (GetTuple_Data pg (withPin pg (PinCount pg + 1))) by done.
  rewrite Hg, DeserializeTuple_Serialize by done. by eexists.
Qed.

End heap_round_trip.

(** X10. Insert then Get on the table heap.  When the heap's last page
    can be fetched, has a sound header, a free area that ends below its
    slot directory, and room for the serialized tuple, Insert stores the
    tuple on that page under the page's old slot count, without touching
    any other page, and Get with the returned page id and slot number
    returns the tuple that was inserted. *)
Theorem X10_heap_insert_then_get (bp bp1 : storage_io.BufferPool.t)
    (th : storage_io.TableHeap.t) (tuple : types.Tuple) (page : storage.Page) :
  wf.coherent bp → 0 <= storage_io.TableHeap.lastPage th → ranges.tuple_ok tuple →
  storage_io.BufferPool.FetchPage bp (storage_io.TableHeap.lastPage th)
    = storage_io.Done bp1 page →
  wf.header_ok page → layout.dir_below page →
  Z.of_nat (length (tuple_codec.Serialize tuple)) <= storage.FreeSpace page →
  ∃ bp' bp'',
    storage_io.TableHeap.Insert bp th tuple
      = storage_io.Done (bp', th)
          (storage_io.TableHeap.lastPage th, storage.GetSlotCount page) ∧
    storage_io.TableHeap.Get bp' (storage_io.TableHeap.lastPage th)
        (storage.GetSlotCount page)
      = storage_io.Done bp'' tuple ∧
    wf.coherent bp' ∧
    (∀ q, q ≠ storage_io.TableHeap.lastPage th → wf.content bp' q = wf.content bp q).
Proof.
  intros Hc Hlast Htuple Hf Hok Hdir Hfit.
  destruct (Insert_fits bp bp1 th tuple page Hc Hlast Hf Hok Hdir Hfit)
    as (bp' & pg & Hins & Hc' & Hpg & Hget & Hframe).
  destruct (Get_cached bp' _ _ pg tuple Hpg Hget Htuple) as (bp'' & Hg).
  by exists bp', bp''.
Qed.

(** The heap that holds one tuple takes a second, smaller one. *)
Lemma X10_heap_insert_then_get_witness :
  wf.coherent c9_state1.1 ∧ 0 <= storage_io.TableHeap.lastPage c9_state1.2 ∧
  ranges.tuple_ok (c5_row 0 1) ∧
  storage_io.BufferPool.FetchPage c9_state1.1 (storage_io.TableHeap.lastPage c9_state1.2)
    = storage_io.Done x_fetched.1 x_fetched.2 ∧
  wf.header_ok x_fetched.2 ∧ layout.dir_below x_fetched.2 ∧
  Z.of_nat (length (tuple_codec.Serialize (c5_row 0 1))) <= storage.FreeSpace x_fetched.2 ∧
  ∃ bp' bp'',
    storage_io.TableHeap.Insert c9_state1.1 c9_state1.2 (c5_row 0 1)
      = storage_io.Done (bp', c9_state1.2)
          (storage_io.TableHeap.lastPage c9_state1.2, storage.GetSlotCount x_fetched.2) ∧
    storage_io.TableHeap.Get bp' (storage_io.TableHeap.lastPage c9_state1.2)
        (storage.GetSlotCount x_fetched.2)
      = storage_io.Done bp'' (c5_row 0 1).
Proof.
  assert (H1 : wf.coherent c9_state1.1) by (apply (bool_decide_unpack _); vm_compute; exact I).
  assert (H2 : 0 <= storage_io.TableHeap.lastPage c9_state1.2) by (vm_compute; discriminate).
  assert (H3 : ranges.tuple_ok (c5_row 0 1)) by (apply (bool_decide_unpack _); vm_compute; exact I).
  assert (H4 : storage_io.BufferPool.FetchPage c9_state1.1
                 (storage_io.TableHeap.lastPage c9_state1.2)
               = storage_io.Done x_fetched.1 x_fetched.2) by (vm_compute; reflexivity).
  assert (H5 : wf.header_ok x_fetched.2) by (apply (bool_decide_unpack _); vm_compute; exact I).
  assert (H6 : layout.dir_below x_fetched.2) by (apply (bool_decide_unpack _); vm_compute; exact I).
  assert (H7 : Z.of_nat (length (tuple_codec.Serialize (c5_row 0 1)))
               <= storage.FreeSpace x_fetched.2) by (vm_compute; discriminate).
  split; [exact H1|]. split; [exact H2|]. split; [exact H3|]. split; [exact H4|].
  split; [exact H5|]. split; [exact H6|]. split; [exact H7|].
  destruct (X10_heap_insert_then_get _ _ _ _ _ H1 H2 H3 H4 H5 H6 H7)
    as (bp' & bp'' & Hi & Hg & _).
  exists bp', bp''. split; [exact Hi | exact Hg].
Defined.
(** ** The log writer (internal/wal) *)
Section writer_facts.
Import types wal wal_inv.

Lemma log_ok_lengths (w : Writer) :
  log_ok w →
  Z.of_nat (length (file w)) + Z.of_nat (length (buffer w)) = currentLSN w - 1.
Proof.
  intros (H1 & H2 & _). apply (f_equal length) in H2.
  rewrite length_fmap, length_app, length_seqZ in H2. lia.
Qed.

Lemma flushLocked_ok (w : Writer) :
  log_ok w → currentLSN w < 2 ^ 64 →
  log_ok (flushLocked w) ∧
  currentLSN (flushLocked w) = currentLSN w ∧
  flushedLSN (flushLocked w) = currentLSN w - 1 ∧
  buffer (flushLocked w) = [] ∧
  file (flushLocked w) = file w ++ buffer w ∧
  txnLastLSN (flushLocked w) = txnLastLSN w.
Proof.
  intros Hok Hlt. pose proof (log_ok_lengths w Hok) as Hl.
  destruct Hok as (H1 & H2 & H3 & H4). unfold flushLocked.
  destruct (buffer w) as [|r b] eqn:Hb.
  - cbn [length] in Hl. rewrite app_nil_r.
    split; [unfold log_ok; by rewrite Hb|]. split; [done|]. split; [lia|]. done.
  - cbn [currentLSN flushedLSN buffer file bufferLSN txnLastLSN].
    rewrite Z.mod_small by lia.
    split; [|done]. unfold log_ok. cbn [currentLSN flushedLSN buffer file bufferLSN].
    rewrite ?Z.mod_small by lia.
    rewrite app_nil_r. split; [done|]. split; [done|]. split; [|done].
    rewrite length_app. cbn [length] in *. lia.
Qed.

Lemma Append_ok (w : Writer) (record : LogRecord) :
  log_ok w → currentLSN w < 2 ^ 64 - 1 →
  let w' := (Append w record).1 in
  log_ok w' ∧ (Append w record).2 = currentLSN w ∧
  currentLSN w' = currentLSN w + 1 ∧
  flushedLSN w <= flushedLSN w' ∧
  ∃ r, file w' ++ buffer w' = file w ++ buffer w ++ [r] ∧
       LSN r = currentLSN w ∧ TxnID r = TxnID record ∧ Type_ r = Type_ record ∧
       PrevLSN r = default InvalidLSN (txnLastLSN w !! TxnID record) ∧
       BeforeImage r = BeforeImage record ∧ AfterImage r = AfterImage record ∧
       PageID r = PageID record ∧ SlotNum r = SlotNum record.
Proof.
  intros Hok Hlt. pose proof (log_ok_lengths w Hok) as Hl.
  pose proof Hok as (H1 & H2 & H3 & H4).
  unfold Append.
  match goal with |- context [if ?c then flushLocked ?x else _] => set (w1 := x) end.
  assert (Hok1 : log_ok w1).
  { unfold log_ok, w1. cbn [currentLSN flushedLSN buffer file bufferLSN].
    rewrite Z.mod_small by lia. split; [lia|]. split; [|split; [done|]].
    - rewrite app_assoc, fmap_app, H2. cbn [fmap list_fmap LSN].
      replace (currentLSN w + 1 - 1) with (currentLSN w - 1 + 1) by lia.
      rewrite seqZ_app by lia. f_equal.
      rewrite seqZ_cons by lia. rewrite seqZ_nil by lia. f_equal. lia.
    - intros _. destruct (buffer w) as [|r0 b0] eqn:Hb.
      + cbn [length] in Hl. lia.
      + apply H4. done. }
  assert (Hcur1 : currentLSN w1 = currentLSN w + 1).
  { unfold w1. cbn [currentLSN]. rewrite Z.mod_small; lia. }
  cbn zeta. cbn [fst snd].
  destruct (walBufferSize <=? bufferLen (buffer w1)).
  - destruct (flushLocked_ok w1 Hok1 ltac:(lia)) as (Hok2 & Hc2 & Hf2 & Hb2 & Hfile2 & _).
    split; [done|]. split; [done|]. split; [by rewrite Hc2|].
    split; [rewrite Hf2, H3; lia|].
    eexists. rewrite Hb2, app_nil_r, Hfile2. unfold w1. cbn [file buffer].
    split; [reflexivity|]. done.
  - split; [done|]. split; [done|]. split; [done|]. split; [unfold w1; cbn; lia|].
    eexists. unfold w1. cbn [file buffer]. split; [reflexivity|]. done.
Qed.

Lemma Force_ok (w : Writer) (lsn : Z) :
  log_ok w → currentLSN w < 2 ^ 64 →
  log_ok (Force w lsn) ∧
  currentLSN (Force w lsn) = currentLSN w ∧
  flushedLSN w <= flushedLSN (Force w lsn) ∧
  file (Force w lsn) ++ buffer (Force w lsn) = file w ++ buffer w ∧
  txnLastLSN (Force w lsn) = txnLastLSN w ∧
  (lsn < currentLSN w → lsn <= flushedLSN (Force w lsn)) ∧
  (flushedLSN w < lsn → buffer (Force w lsn) = []).
Proof.
  intros Hok Hlt. pose proof (log_ok_lengths w Hok) as Hl.
  pose proof Hok as (H1 & H2 & H3 & H4). unfold Force.
  destruct (Z.leb_spec lsn (flushedLSN w)) as [Hle|Hgt].
  - split; [done|]. split; [done|]. split; [lia|]. split; [done|]. split; [done|].
    split; [lia|]. intros ?. lia.
  - destruct (flushLocked_ok w Hok Hlt) as (Hok2 & Hc2 & Hf2 & Hb2 & Hfile2 & Hl2).
    rewrite Hb2, app_nil_r, Hfile2, Hf2.
    split; [done|]. split; [done|]. split; [lia|]. split; [done|]. split; [done|].
    split; [lia|]. done.
Qed.

Lemma dropTxn_ok (w : Writer) (txnID : Z) : log_ok w → log_ok (dropTxn w txnID).
Proof. done. Qed.

Lemma seqZ_split (m : Z) (a b : nat) :
  seqZ m (Z.of_nat a + Z.of_nat b) = seqZ m (Z.of_nat a) ++ seqZ (m + Z.of_nat a) (Z.of_nat b).
Proof. apply seqZ_app; lia. Qed.

(** The file holds the LSNs up to flushed-LSN, the buffer the ones after it. *)
Lemma log_ok_split (w : Writer) :
  log_ok w →
  LSN <$> file w = seqZ 1 (flushedLSN w) ∧
  LSN <$> buffer w = seqZ (flushedLSN w + 1) (currentLSN w - 1 - flushedLSN w).
Proof.
  intros Hok. pose proof (log_ok_lengths w Hok) as Hl.
  destruct Hok as (H1 & H2 & H3 & H4).
  rewrite <- Hl, seqZ_split, fmap_app in H2.
  apply app_inj_1 in H2; [|by rewrite !length_fmap, length_seqZ, Nat2Z.id].
  destruct H2 as [Hf Hb]. rewrite H3. split; [done|].
  rewrite Hb. f_equal; lia.
Qed.

Lemma log_ok_file_LSN (w : Writer) (r : LogRecord) :
  log_ok w → r ∈ file w → 1 <= LSN r <= flushedLSN w.
Proof.
  intros Hok Hin. destruct (log_ok_split w Hok) as [Hf _].
  assert (Hin' : LSN r ∈ LSN <$> file w) by (apply list_elem_of_fmap; eauto).
  rewrite Hf in Hin'. apply elem_of_seqZ in Hin'. lia.
Qed.

Lemma log_ok_buffer_LSN (w : Writer) (r : LogRecord) :
  log_ok w → r ∈ buffer w → flushedLSN w < LSN r < currentLSN w.
Proof.
  intros Hok Hin. destruct (log_ok_split w Hok) as [_ Hb].
  assert (Hin' : LSN r ∈ LSN <$> buffer w) by (apply list_elem_of_fmap; eauto).
  rewrite Hb in Hin'. apply elem_of_seqZ in Hin'. lia.
Qed.

Lemma bufferLen_app (a b : list LogRecord) : bufferLen (a ++ b) = bufferLen a + bufferLen b.
Proof. induction a as [|r a IH]; cbn [bufferLen foldr app]; [done|]. fold (bufferLen (a ++ b)) (bufferLen a). lia. Qed.

End writer_facts.

Lemma LogCommit_durable (w : wal.Writer) (txnID : Z) :
  wal_inv.log_ok w → wal.currentLSN w < 2 ^ 64 - 1 →
  let w' := (wal.LogCommit w txnID).1 in
  let lsn := (wal.LogCommit w txnID).2 in
  lsn = wal.currentLSN w ∧
  wal.flushedLSN w' = lsn ∧
  wal.buffer w' = [] ∧
  (∃ r, wal.file w' = wal.file w ++ wal.buffer w ++ [r] ∧
        wal.LSN r = lsn ∧ wal.TxnID r = txnID ∧
        wal.Type_ r = types.LogRecordCommit ∧
        wal.PrevLSN r = default types.InvalidLSN (wal.txnLastLSN w !! txnID)) ∧
  wal.txnLastLSN w' !! txnID = None ∧
  wal_inv.log_ok w'.
Proof.
  intros Hok Hlt. unfold wal.LogCommit.
  pose proof (Append_ok w (wal.emptyRecord txnID types.LogRecordCommit) Hok Hlt) as Ha.
  destruct (wal.Append w (wal.emptyRecord txnID types.LogRecordCommit)) as [w1 lsn] eqn:Happ.
  cbn zeta in Ha. cbn [fst snd] in Ha |- *.
  destruct Ha as (Hok1 & -> & Hcur1 & Hfl1 & r & Hlog & Hr1 & Hr2 & Hr3 & Hr4 & _).
  destruct (Force_ok w1 (wal.currentLSN w) Hok1 ltac:(lia))
    as (Hok2 & Hc2 & Hf2 & Hfile2 & Hl2 & Hforce & Hbuf).
  pose proof (wal_inv_lengths := log_ok_lengths _ Hok2).
  pose proof Hok2 as (? & ? & Hfl & ?).
  assert (Hb : wal.buffer (wal.Force w1 (wal.currentLSN w)) = []).
  { apply length_zero_iff_nil. lia. }
  rewrite Hb, app_nil_r in Hfile2. rewrite Hb in wal_inv_lengths. cbn [length] in *.
  split; [done|]. split; [cbn; lia|]. split; [done|].
  split; [exists r; cbn [wal.file wal.dropTxn]; rewrite Hfile2, Hlog; done|].
  split; [cbn; apply lookup_delete_eq|].
  apply dropTxn_ok. exact Hok2.
Qed.


(** X11.  LogCommit makes the commit durable: on a writer whose log is in
    order, it returns the LSN it assigned (the current LSN before the call),
    and when it returns the commit record is the last record of the file,
    after everything that was written or buffered before, flushed-LSN is the
    LSN of the commit record, nothing is left in the buffer, and the writer
    has forgotten the last LSN of the transaction. *)
Theorem X11_commit_is_durable (w : wal.Writer) (txnID : Z) :
  wal_inv.log_ok w → wal.currentLSN w < 2 ^ 64 - 1 →
  let w' := (wal.LogCommit w txnID).1 in
  let lsn := (wal.LogCommit w txnID).2 in
  lsn = wal.currentLSN w ∧
  wal.flushedLSN w' = lsn ∧
  wal.buffer w' = [] ∧
  (∃ r, wal.file w' = wal.file w ++ wal.buffer w ++ [r] ∧
        wal.LSN r = lsn ∧ wal.TxnID r = txnID ∧
        wal.Type_ r = types.LogRecordCommit ∧
        wal.PrevLSN r = default types.InvalidLSN (wal.txnLastLSN w !! txnID)) ∧
  wal.txnLastLSN w' !! txnID = None ∧
  wal_inv.log_ok w'.
Proof. exact (LogCommit_durable w txnID). Qed.

Lemma X11_commit_is_durable_witness :
  wal_inv.log_ok x_writer1 ∧ wal.currentLSN x_writer1 < 2 ^ 64 - 1 ∧
  wal.flushedLSN x_writer1 = 0 ∧
  (wal.LogCommit x_writer1 7).2 = 2 ∧
  wal.flushedLSN (wal.LogCommit x_writer1 7).1 = 2 ∧
  wal.buffer (wal.LogCommit x_writer1 7).1 = [].
Proof.
  assert (Hok : wal_inv.log_ok x_writer1).
  { vm_compute. split; [discriminate|]. split; [reflexivity|]. split; [reflexivity|].
    intros _. reflexivity. }
  assert (Hlt : wal.currentLSN x_writer1 < 2 ^ 64 - 1) by (vm_compute; reflexivity).
  destruct (X11_commit_is_durable x_writer1 7 Hok Hlt) as (Hl & Hf & Hb & _).
  split; [exact Hok|]. split; [exact Hlt|]. split; [reflexivity|].
  split; [exact Hl|]. split; [exact Hf|]. exact Hb.
Defined.

(** X12.  The writer keeps the log in order.  On a writer whose written and
    buffered records carry the LSNs 1, 2, ... up to the current LSN, with
    flushed-LSN the number of records in the file, every operation (Append,
    Force, Flush, LogBegin, LogCommit, LogAbort) leaves such a writer; so the
    file holds exactly the LSNs 1..flushed-LSN and the buffer the LSNs after
    it, and flushed-LSN never goes down. *)
Theorem X12_writer_keeps_log_in_order
    (w : wal.Writer) (record : wal.LogRecord) (lsn txnID : Z) :
  wal_inv.log_ok w → wal.currentLSN w < 2 ^ 64 - 1 →
  (wal_inv.log_ok (wal.Append w record).1 ∧ wal_inv.log_ok (wal.Force w lsn) ∧
   wal_inv.log_ok (wal.Flush w) ∧ wal_inv.log_ok (wal.LogBegin w txnID).1 ∧
   wal_inv.log_ok (wal.LogCommit w txnID).1 ∧ wal_inv.log_ok (wal.LogAbort w txnID).1) ∧
  (wal.LSN <$> wal.file w = seqZ 1 (wal.flushedLSN w) ∧
   wal.LSN <$> wal.buffer w
     = seqZ (wal.flushedLSN w + 1) (wal.currentLSN w - 1 - wal.flushedLSN w)) ∧
  (wal.flushedLSN w <= wal.flushedLSN (wal.Append w record).1 ∧
   wal.flushedLSN w <= wal.flushedLSN (wal.Force w lsn) ∧
   wal.flushedLSN w <= wal.flushedLSN (wal.Flush w) ∧
   wal.flushedLSN w <= wal.flushedLSN (wal.LogCommit w txnID).1 ∧
   wal.flushedLSN w <= wal.flushedLSN (wal.LogAbort w txnID).1).
Proof.
  intros Hok Hlt.
  pose proof (Append_ok w record Hok Hlt) as (Ha1 & _ & _ & Ha2 & _).
  pose proof (Force_ok w lsn Hok ltac:(lia)) as (Hf1 & _ & Hf2 & _).
  pose proof (flushLocked_ok w Hok ltac:(lia)) as (Hl1 & _ & Hl2 & _).
  pose proof (Append_ok w (wal.emptyRecord txnID types.LogRecordBegin) Hok Hlt)
    as (Hb1 & _).
  pose proof (X := Append_ok w (wal.emptyRecord txnID types.LogRecordCommit) Hok Hlt).
  pose proof (Y := Append_ok w (wal.emptyRecord txnID types.LogRecordAbort) Hok Hlt).
  pose proof (log_ok_lengths w Hok) as Hlen. pose proof Hok as (_ & _ & Hfl & _).
  unfold wal.LogCommit, wal.LogAbort, wal.LogBegin, wal.Flush.
  destruct (wal.Append w (wal.emptyRecord txnID types.LogRecordCommit)) as [wc lc].
  destruct (wal.Append w (wal.emptyRecord txnID types.LogRecordAbort)) as [wa la].
  cbn zeta in X, Y. cbn [fst snd] in X, Y |- *.
  destruct X as (Hc1 & _ & Hc2 & Hc3 & _). destruct Y as (Hab1 & _ & _ & Hab3 & _).
  pose proof (Force_ok wc lc Hc1 ltac:(lia)) as (Hfc1 & _ & Hfc2 & _).
  split; [|split; [by apply log_ok_split|]].
  - split; [done|]. split; [done|]. split; [done|]. split; [done|].
    split; by apply dropTxn_ok.
  - split; [done|]. split; [done|]. split; [lia|]. cbn [wal.flushedLSN wal.dropTxn].
    split; lia.
Qed.

Lemma X12_writer_keeps_log_in_order_witness :
  wal_inv.log_ok wal.NewWriter ∧ wal.currentLSN wal.NewWriter < 2 ^ 64 - 1 ∧
  wal_inv.log_ok (wal.LogCommit wal.NewWriter 7).1 ∧
  wal_inv.log_ok (wal.LogAbort wal.NewWriter 7).1.
Proof.
  assert (Hok : wal_inv.log_ok wal.NewWriter).
  { vm_compute. split; [discriminate|]. split; [reflexivity|]. split; [reflexivity|].
    intros H. destruct (H eq_refl). }
  assert (Hlt : wal.currentLSN wal.NewWriter < 2 ^ 64 - 1) by (vm_compute; reflexivity).
  destruct (X12_writer_keeps_log_in_order wal.NewWriter (wal.emptyRecord 7 types.LogRecordBegin)
              0 7 Hok Hlt) as ((_ & _ & _ & _ & Hc & Ha) & _).
  split; [exact Hok|]. split; [exact Hlt|]. split; [exact Hc|]. exact Ha.
Defined.

(** X13.  Force(lsn) puts every record up to lsn on disk: for an LSN that
    was assigned, flushed-LSN is at least lsn afterwards and every record of
    the log with an LSN up to lsn is in the file; no record is lost or
    reordered, and a record already covered by flushed-LSN writes nothing. *)
Theorem X13_force_covers (w : wal.Writer) (lsn : Z) :
  wal_inv.log_ok w → wal.currentLSN w < 2 ^ 64 → lsn < wal.currentLSN w →
  let w' := wal.Force w lsn in
  lsn <= wal.flushedLSN w' ∧
  (∀ r, r ∈ wal.file w ++ wal.buffer w → wal.LSN r <= lsn → r ∈ wal.file w') ∧
  wal.file w' ++ wal.buffer w' = wal.file w ++ wal.buffer w ∧
  (lsn <= wal.flushedLSN w → w' = w).
Proof.
  intros Hok Hlt Hlsn. cbn zeta.
  destruct (Force_ok w lsn Hok Hlt) as (Hok2 & Hc2 & Hf2 & Hfile2 & Hl2 & Hforce & Hbuf).
  split; [by apply Hforce|]. split; [|split; [done|]].
  - intros r Hin Hr. rewrite <- Hfile2 in Hin. apply elem_of_app in Hin as [Hin|Hin]; [done|].
    pose proof (log_ok_buffer_LSN _ r Hok2 Hin). specialize (Hforce Hlsn). lia.
  - intros Hle. unfold wal.Force. destruct (Z.leb_spec lsn (wal.flushedLSN w)); [done|lia].
Qed.

Lemma X13_force_covers_witness :
  wal_inv.log_ok x_writer1 ∧ wal.currentLSN x_writer1 < 2 ^ 64 ∧
  1 < wal.currentLSN x_writer1 ∧
  wal.flushedLSN x_writer1 = 0 ∧ 1 <= wal.flushedLSN (wal.Force x_writer1 1).
Proof.
  assert (Hok : wal_inv.log_ok x_writer1).
  { vm_compute. split; [discriminate|]. split; [reflexivity|]. split; [reflexivity|].
    intros _. reflexivity. }
  assert (Hlt : wal.currentLSN x_writer1 < 2 ^ 64) by (vm_compute; reflexivity).
  assert (Hl : 1 < wal.currentLSN x_writer1) by (vm_compute; reflexivity).
  destruct (X13_force_covers x_writer1 1 Hok Hlt Hl) as (Hf & _).
  split; [exact Hok|]. split; [exact Hlt|]. split; [exact Hl|]. split; [reflexivity|].
  exact Hf.
Defined.

(** X14.  Append flushes exactly when the buffered bytes reach the buffer
    size (64 KiB, each record counted with its four-byte length prefix): then
    the buffer is written out with the new record and flushed-LSN becomes the
    LSN of that record; below the size the file and flushed-LSN stay as they
    were and the record waits in the buffer.  LogAbort is such an Append with
    no Force: below the size the abort record is left in the buffer. *)
Theorem X14_append_flushes_when_full (w : wal.Writer) (record : wal.LogRecord) (txnID : Z) :
  wal_inv.log_ok w → wal.currentLSN w < 2 ^ 64 - 1 →
  let w' := (wal.Append w record).1 in
  let bytes := wal.bufferLen (wal.buffer w) + 4 + wal.serializedLen record in
  (wal.walBufferSize <= bytes →
     wal.buffer w' = [] ∧ wal.flushedLSN w' = wal.currentLSN w ∧
     ∃ r, wal.file w' = wal.file w ++ wal.buffer w ++ [r] ∧ wal.LSN r = wal.currentLSN w) ∧
  (bytes < wal.walBufferSize →
     wal.file w' = wal.file w ∧ wal.flushedLSN w' = wal.flushedLSN w ∧
     ∃ r, wal.buffer w' = wal.buffer w ++ [r] ∧ wal.LSN r = wal.currentLSN w) ∧
  (wal.bufferLen (wal.buffer w) + 4 + wal.logRecordHeaderSize < wal.walBufferSize →
     let wa := (wal.LogAbort w txnID).1 in
     wal.file wa = wal.file w ∧ wal.flushedLSN wa = wal.flushedLSN w ∧
     ∃ r, wal.buffer wa = wal.buffer w ++ [r] ∧ wal.LSN r = wal.currentLSN w ∧
          wal.Type_ r = types.LogRecordAbort ∧ wal.TxnID r = txnID).
Proof.
  intros Hok Hlt. cbn zeta. pose proof (log_ok_lengths w Hok) as Hlen.
  pose proof Hok as (H1 & H2 & H3 & H4).
  assert (Hgen : ∀ rec : wal.LogRecord,
    let w1 := (wal.Append w rec).1 in
    let bytes := wal.bufferLen (wal.buffer w) + 4 + wal.serializedLen rec in
    (wal.walBufferSize <= bytes →
       wal.buffer w1 = [] ∧ wal.flushedLSN w1 = wal.currentLSN w ∧
       ∃ r, wal.file w1 = wal.file w ++ wal.buffer w ++ [r] ∧ wal.LSN r = wal.currentLSN w) ∧
    (bytes < wal.walBufferSize →
       wal.file w1 = wal.file w ∧ wal.flushedLSN w1 = wal.flushedLSN w ∧
       (∃ r, wal.buffer w1 = wal.buffer w ++ [r] ∧ wal.LSN r = wal.currentLSN w ∧
             wal.Type_ r = wal.Type_ rec ∧ wal.TxnID r = wal.TxnID rec))).
  { intros rec. cbn zeta. unfold wal.Append. cbn [fst wal.buffer].
    rewrite bufferLen_app. cbn [wal.bufferLen foldr].
    match goal with |- context [wal.serializedLen ?r] =>
      assert (Hs : wal.serializedLen r = wal.serializedLen rec) by done; rewrite Hs end.
    split; intros Hb.
    - destruct (Z.leb_spec wal.walBufferSize
                  (wal.bufferLen (wal.buffer w) + (4 + wal.serializedLen rec + 0))); [|lia].
      unfold wal.flushLocked. cbn [wal.buffer wal.file wal.currentLSN wal.flushedLSN].
      destruct (wal.buffer w ++ _) as [|r0 b0] eqn:Hbuf; [by destruct (wal.buffer w)|].
      cbn [wal.buffer wal.file wal.currentLSN wal.flushedLSN].
      rewrite (Z.mod_small (wal.currentLSN w + 1)) by lia.
      rewrite Z.mod_small by lia. split; [done|]. split; [lia|].
      rewrite <- Hbuf. eexists. split; [reflexivity|]. done.
    - destruct (Z.leb_spec wal.walBufferSize
                  (wal.bufferLen (wal.buffer w) + (4 + wal.serializedLen rec + 0))); [lia|].
      cbn [wal.buffer wal.file wal.currentLSN wal.flushedLSN].
      split; [done|]. split; [done|]. eexists. split; [reflexivity|]. done. }
  destruct (Hgen record) as [Hfull Hroom]. split; [exact Hfull|]. split.
  - intros Hb. destruct (Hroom Hb) as (Hf & Hfl & r & Hr & Hr' & _). eauto.
  - intros Hb. unfold wal.LogAbort.
    destruct (Hgen (wal.emptyRecord txnID types.LogRecordAbort)) as [_ Hroom'].
    destruct (wal.Append w (wal.emptyRecord txnID types.LogRecordAbort)) as [wa la].
    cbn [fst] in Hroom' |- *. cbn [wal.file wal.flushedLSN wal.buffer wal.dropTxn].
    apply Hroom'. exact Hb.
Qed.

Lemma X14_append_flushes_when_full_witness :
  wal_inv.log_ok x_writer1 ∧ wal.currentLSN x_writer1 < 2 ^ 64 - 1 ∧
  wal.bufferLen (wal.buffer x_writer1) + 4 + wal.logRecordHeaderSize < wal.walBufferSize ∧
  wal.flushedLSN (wal.LogAbort x_writer1 7).1 = wal.flushedLSN x_writer1 ∧
  wal.file (wal.LogAbort x_writer1 7).1 = wal.file x_writer1.
Proof.
  assert (Hok : wal_inv.log_ok x_writer1).
  { vm_compute. split; [discriminate|]. split; [reflexivity|]. split; [reflexivity|].
    intros _. reflexivity. }
  assert (Hlt : wal.currentLSN x_writer1 < 2 ^ 64 - 1) by (vm_compute; reflexivity).
  assert (Hb : wal.bufferLen (wal.buffer x_writer1) + 4 + wal.logRecordHeaderSize
               < wal.walBufferSize) by (vm_compute; reflexivity).
  destruct (X14_append_flushes_when_full x_writer1 (wal.emptyRecord 7 types.LogRecordAbort) 7
              Hok Hlt) as (_ & _ & Hab).
  destruct (Hab Hb) as (Hf & Hfl & _).
  split; [exact Hok|]. split; [exact Hlt|]. split; [exact Hb|]. split; [exact Hfl|]. exact Hf.
Defined.
(** ** The transaction manager (internal/txn) *)
Section manager_facts.
Import types txn.

(** The running minimum of the two range loops. *)
Lemma min_fold_spec (ids : list Z) (g0 : Z) :
  let r := foldl (fun g txnID => if txnID <? g then txnID else g) g0 ids in
  r <= g0 ∧ (∀ a, a ∈ ids → r <= a) ∧ (r = g0 ∨ r ∈ ids).
Proof.
  revert g0. induction ids as [|i ids IH]; intros g0; cbn [foldl].
  - split; [lia|]. split; [|by left]. intros a Ha. by apply elem_of_nil in Ha.
  - destruct (IH (if i <? g0 then i else g0)) as (H1 & H2 & H3). cbn zeta in *.
    destruct (Z.ltb_spec i g0).
    + split; [lia|]. split.
      * intros a Ha. apply elem_of_cons in Ha as [->|Ha]; [done|by apply H2].
      * right. destruct H3 as [->|H3]; [left|by right]. 
    + split; [lia|]. split.
      * intros a Ha. apply elem_of_cons in Ha as [->|Ha]; [lia|by apply H2].
      * destruct H3 as [H3|H3]; [by left|right; by right].
Qed.

Lemma snap_fold_Xmin (ids : list Z) (snap0 : Snapshot) :
  Xmin (foldl (fun snap txnID =>
             {| Xmin := (if txnID <? Xmin snap then txnID else Xmin snap);
                Xmax := Xmax snap;
                ActiveTxns := <[txnID := true]> (ActiveTxns snap) |})
          snap0 ids)
  = foldl (fun g txnID => if txnID <? g then txnID else g) (Xmin snap0) ids.
Proof.
  revert snap0. induction ids as [|i ids IH]; intros snap0; cbn [foldl]; [done|].
  by rewrite IH.
Qed.

Lemma snap_fold_active (ids : list Z) (snap0 : Snapshot) (a : Z) :
  ActiveTxns (foldl (fun snap txnID =>
             {| Xmin := (if txnID <? Xmin snap then txnID else Xmin snap);
                Xmax := Xmax snap;
                ActiveTxns := <[txnID := true]> (ActiveTxns snap) |})
          snap0 ids) !! a
  = if decide (a ∈ ids) then Some true else ActiveTxns snap0 !! a.
Proof.
  revert snap0. induction ids as [|i ids IH]; intros snap0; cbn [foldl].
  - rewrite decide_False; [done|]. apply not_elem_of_nil.
  - rewrite IH. cbn [ActiveTxns]. destruct (decide (a ∈ ids)) as [Hin|Hin].
    + rewrite decide_True; [done|]. by right.
    + destruct (decide (a = i)) as [->|Hne].
      * rewrite decide_True by left. apply lookup_insert_eq.
      * rewrite decide_False; [by rewrite lookup_insert_ne|].
        intros Ha. apply elem_of_cons in Ha as [?|?]; done.
Qed.

Lemma elem_of_activeIDs (m : Manager) (a : Z) :
  a ∈ activeIDs m ↔ is_Some (activeTxns m !! a).
Proof.
  unfold activeIDs. rewrite list_elem_of_fmap. split.
  - intros ([k v] & -> & Hin). apply elem_of_map_to_list in Hin. eauto.
  - intros [v Hv]. exists (a, v). split; [done|]. by apply elem_of_map_to_list.
Qed.

Lemma createSnapshotLocked_active (m : Manager) (a : Z) :
  ActiveTxns (createSnapshotLocked m) !! a
  = if decide (is_Some (activeTxns m !! a)) then Some true else None.
Proof.
  unfold createSnapshotLocked.
  match goal with |- context [foldl ?f ?s0 ?l] =>
    pose proof (snap_fold_active l s0 a) as H;
    destruct (Xmin (foldl f s0 l) =? MaxTxnID) end; cbn [ActiveTxns] in *;
  rewrite H; cbn [ActiveTxns]; rewrite lookup_empty;
  destruct (decide (a ∈ activeIDs m)) as [Hin|Hin];
  apply elem_of_activeIDs in Hin || rewrite elem_of_activeIDs in Hin;
  by (rewrite decide_True by done) || by (rewrite decide_False by done).
Qed.

Lemma createSnapshotLocked_Xmin (m : Manager) :
  let s := createSnapshotLocked m in
  (activeTxns m = ∅ → Xmin s = nextTxnID m) ∧
  (∀ a, is_Some (activeTxns m !! a) → a < MaxTxnID →
        Xmin s <= a ∧ is_Some (activeTxns m !! Xmin s)).
Proof.
  cbn zeta. unfold createSnapshotLocked.
  match goal with |- context [foldl ?f ?s0 ?l] =>
    pose proof (snap_fold_Xmin l s0) as HX;
    pose proof (createSnapshot_fold_Xmax l s0) as HM;
    set (snap := foldl f s0 l) in * end.
  cbn [Xmin Xmax] in HX, HM.
  destruct (min_fold_spec (activeIDs m) MaxTxnID) as (H1 & H2 & H3). cbn zeta in *.
  rewrite <- HX in H1, H2, H3. split.
  - intros Hempty. assert (Hnil : activeIDs m = []).
    { unfold activeIDs. by rewrite Hempty, map_to_list_empty. }
    destruct H3 as [H3|H3]; [|rewrite Hnil in H3; by apply elem_of_nil in H3].
    rewrite H3, Z.eqb_refl. cbn [Xmin]. done.
  - intros a Ha Hlt. apply elem_of_activeIDs in Ha. specialize (H2 a Ha).
    destruct (Z.eqb_spec (Xmin snap) MaxTxnID) as [He|Hne]; [lia|].
    split; [done|]. destruct H3 as [H3|H3]; [done|]. by apply elem_of_activeIDs.
Qed.

Lemma updateGlobalXmin_spec (m : Manager) :
  let m' := updateGlobalXmin m in
  (∀ a, is_Some (activeTxns m !! a) → globalXmin m' <= a) ∧
  (globalXmin m' = MaxTxnID ∨ is_Some (activeTxns m !! globalXmin m')).
Proof.
  cbn zeta. cbn [globalXmin updateGlobalXmin]. unfold minActive.
  destruct (min_fold_spec (activeIDs m) MaxTxnID) as (H1 & H2 & H3). cbn zeta in *.
  split.
  - intros a Ha. apply H2. by apply elem_of_activeIDs.
  - destruct H3 as [H3|H3]; [by left|right]. by apply elem_of_activeIDs.
Qed.

Lemma Begin_sees (m : Manager) (t : Z) :
  isTxnVisible (Snapshot_ (Begin m).2) t = true
  ↔ t ≠ 0 ∧ t < ID (Begin m).2 ∧ activeTxns m !! t = None.
Proof.
  rewrite Begin_Snapshot, Begin_ID.
  unfold isTxnVisible, activeFlag.
  rewrite createSnapshotLocked_Xmax, createSnapshotLocked_active.
  cbn [nextTxnID activeTxns]. unfold InvalidTxnID.
  destruct (Z.eqb_spec t 0) as [->|Hne]; [split; [done|by intros [? _]]|].
  destruct (Z.leb_spec ((nextTxnID m + 1) mod 2 ^ 64) t).
  { split; [done|]. intros (_ & ? & _). lia. }
  destruct (activeTxns m !! t) as [tx|] eqn:Ht.
  - rewrite decide_True by eauto. cbn. split; [done|]. by intros (_ & _ & ?).
  - rewrite decide_False by (by intros [? ?]). cbn. split; [|done]. intros _.
    split; [done|]. split; [lia|done].
Qed.

End manager_facts.

(** X15.  What the snapshot of Begin sees.  A transaction id is visible to
    the snapshot of the transaction that Begin returns exactly when it is
    not 0, is below the new transaction's id and was not running when Begin
    was called; xmin is the new id when nothing was running and otherwise
    the oldest running id. *)
Theorem X15_begin_snapshot_sees (m : txn.Manager) (t : Z) :
  let new := (txn.Begin m).2 in
  (txn.isTxnVisible (txn.Snapshot_ new) t = true
     ↔ t ≠ 0 ∧ t < txn.ID new ∧ txn.activeTxns m !! t = None) ∧
  (txn.activeTxns m = ∅ → txn.Xmin (txn.Snapshot_ new) = txn.ID new) ∧
  (∀ a, is_Some (txn.activeTxns m !! a) → a < types.MaxTxnID →
        txn.Xmin (txn.Snapshot_ new) <= a ∧
        is_Some (txn.activeTxns m !! txn.Xmin (txn.Snapshot_ new))).
Proof.
  cbn zeta. split; [apply Begin_sees|].
  rewrite Begin_Snapshot, Begin_ID.
  exact (createSnapshotLocked_Xmin (txn.mkManager _ _ _ _)).
Qed.

(** X16.  A finished transaction is visible to every later snapshot, whether
    it committed or rolled back: Commit and Rollback both only remove the
    transaction from the running ones, so the snapshot of the next Begin
    treats the id of a rolled-back transaction as it treats a committed one. *)
Theorem X16_rolled_back_is_visible (m : txn.Manager) (t : txn.Transaction) :
  txn.Status t = types.TxnStatusRunning →
  0 < txn.ID t <= txn.nextTxnID m → txn.nextTxnID m + 1 < 2 ^ 64 →
  ∃ mc tc mr tr,
    txn.Commit m t = Some (mc, tc) ∧ txn.Rollback m t = Some (mr, tr) ∧
    txn.Status tc = types.TxnStatusCommitted ∧ txn.Status tr = types.TxnStatusAborted ∧
    txn.isTxnVisible (txn.Snapshot_ (txn.Begin mc).2) (txn.ID t) = true ∧
    txn.isTxnVisible (txn.Snapshot_ (txn.Begin mr).2) (txn.ID t) = true.
Proof.
  intros Hrun Hid Hnext. unfold txn.Commit, txn.Rollback.
  rewrite !decide_True by done.
  destruct (match txn.walWriter m with
            | Some w => let '(w1, lsn) := wal.LogCommit w (txn.ID t) in (Some w1, lsn)
            | None => (None, txn.LastLSN t) end) as [wc lc].
  destruct (match txn.walWriter m with
            | Some w => let '(w1, lsn) := wal.LogAbort w (txn.ID t) in (Some w1, lsn)
            | None => (None, txn.LastLSN t) end) as [wr lr].
  do 4 eexists. split; [reflexivity|]. split; [reflexivity|].
  split; [done|]. split; [done|].
  split; apply Begin_sees; rewrite Begin_ID;
    cbn [txn.nextTxnID txn.activeTxns txn.updateGlobalXmin];
    rewrite ?Z.mod_small by lia; (split; [lia|]); (split; [lia|]); apply lookup_delete_eq.
Qed.

Lemma X16_rolled_back_is_visible_witness :
  txn.Status x_begun.2 = types.TxnStatusRunning ∧
  0 < txn.ID x_begun.2 <= txn.nextTxnID x_begun.1 ∧
  txn.nextTxnID x_begun.1 + 1 < 2 ^ 64 ∧
  ∃ mr tr, txn.Rollback x_begun.1 x_begun.2 = Some (mr, tr) ∧
           txn.isTxnVisible (txn.Snapshot_ (txn.Begin mr).2) (txn.ID x_begun.2) = true.
Proof.
  assert (H1 : txn.Status x_begun.2 = types.TxnStatusRunning) by reflexivity.
  assert (H2 : 0 < txn.ID x_begun.2 <= txn.nextTxnID x_begun.1) by (vm_compute; split; discriminate || reflexivity).
  assert (H3 : txn.nextTxnID x_begun.1 + 1 < 2 ^ 64) by (vm_compute; reflexivity).
  destruct (X16_rolled_back_is_visible x_begun.1 x_begun.2 H1 H2 H3)
    as (mc & tc & mr & tr & _ & Hr & _ & _ & _ & Hv).
  split; [exact H1|]. split; [exact H2|]. split; [exact H3|].
  exists mr, tr. split; [exact Hr|exact Hv].
Defined.

(** X17.  Global xmin follows the running transactions.  After Begin, Commit
    and Rollback the manager's global xmin is at most every running id and
    is itself a running id, or MaxTxnID when it is not; Begin adds the new
    transaction to the running ones, Commit and Rollback remove theirs, and
    both fail, changing nothing, on a transaction that is not running, such
    as one that was committed or rolled back before. *)
Theorem X17_global_xmin_is_oldest_running (m : txn.Manager) (t : txn.Transaction) :
  let oldest (m' : txn.Manager) :=
    (∀ a, is_Some (txn.activeTxns m' !! a) → txn.GetGlobalXmin m' <= a) ∧
    (txn.GetGlobalXmin m' = types.MaxTxnID ∨
     is_Some (txn.activeTxns m' !! txn.GetGlobalXmin m')) in
  (oldest (txn.Begin m).1 ∧
   txn.activeTxns (txn.Begin m).1
     = <[txn.ID (txn.Begin m).2 := (txn.Begin m).2]> (txn.activeTxns m)) ∧
  (∀ m' t', txn.Commit m t = Some (m', t') ∨ txn.Rollback m t = Some (m', t') →
     oldest m' ∧ txn.activeTxns m' = delete (txn.ID t) (txn.activeTxns m) ∧
     txn.ID t' = txn.ID t ∧
     ∀ m'', txn.Commit m'' t' = None ∧ txn.Rollback m'' t' = None) ∧
  (txn.Status t ≠ types.TxnStatusRunning →
     txn.Commit m t = None ∧ txn.Rollback m t = None).
Proof.
  cbn zeta. unfold txn.GetGlobalXmin. split; [|split].
  - unfold txn.Begin. cbn [txn.walWriter].
    destruct (txn.walWriter m) as [w|]; [destruct (wal.LogBegin w _) as [w1 lsn]|];
      cbn [fst snd txn.globalXmin txn.activeTxns txn.ID];
      (split; [|done]);
      match goal with |- context [txn.updateGlobalXmin ?x] =>
        exact (updateGlobalXmin_spec x) end.
  - intros m' t' Hop.
    assert (Hrun : txn.Status t = types.TxnStatusRunning).
    { unfold txn.Commit, txn.Rollback in Hop.
      destruct (decide (txn.Status t = types.TxnStatusRunning)); [done|].
      by destruct Hop. }
    unfold txn.Commit, txn.Rollback in Hop. rewrite !decide_True in Hop by done.
    destruct (match txn.walWriter m with
              | Some w => let '(w1, lsn) := wal.LogCommit w (txn.ID t) in (Some w1, lsn)
              | None => (None, txn.LastLSN t) end) as [wc lc].
    destruct (match txn.walWriter m with
              | Some w => let '(w1, lsn) := wal.LogAbort w (txn.ID t) in (Some w1, lsn)
              | None => (None, txn.LastLSN t) end) as [wr lr].
    destruct Hop as [[= <- <-]|[= <- <-]];
      (split; [match goal with |- context [txn.updateGlobalXmin ?x] =>
        exact (updateGlobalXmin_spec x) end|]); (split; [done|]); (split; [done|]);
      intros m''; unfold txn.Commit, txn.Rollback; cbn [txn.Status txn.withStatus];
      by rewrite !decide_False by done.
  - intros Hst. unfold txn.Commit, txn.Rollback. by rewrite !decide_False by done.
Qed.

(** X18.  IsVisibleForUpdate lets a transaction modify a tuple exactly when
    the tuple is visible to its snapshot and carries no xmax or the
    transaction's own id.  A visible tuple with another transaction's xmax
    is always reported as a write conflict with that transaction, and an
    invisible tuple is refused with no conflicting id. *)
Theorem X18_visible_for_update (s : txn.Snapshot) (tuple : types.Tuple) (myTxnID : Z) :
  (txn.IsVisibleForUpdate s tuple myTxnID = (true, types.InvalidTxnID)
     ↔ txn.IsVisible s tuple = true ∧
       (types.XMax tuple = types.InvalidTxnID ∨ types.XMax tuple = myTxnID)) ∧
  (txn.IsVisible s tuple = true → types.XMax tuple ≠ types.InvalidTxnID →
   types.XMax tuple ≠ myTxnID →
     txn.IsVisibleForUpdate s tuple myTxnID = (false, types.XMax tuple)) ∧
  (txn.IsVisible s tuple = false →
     txn.IsVisibleForUpdate s tuple myTxnID = (false, types.InvalidTxnID)).
Proof.
  unfold txn.IsVisibleForUpdate, txn.IsVisible, txn.isTxnVisible, types.InvalidTxnID.
  destruct (Z.eqb_spec (types.XMin tuple) 0); cbn [negb];
    [split; [split; [done|by intros [? _]]|done]|].
  destruct (Z.leb_spec (txn.Xmax s) (types.XMin tuple)); cbn [negb];
    [split; [split; [done|by intros [? _]]|done]|].
  destruct (txn.activeFlag s (types.XMin tuple)); cbn [negb];
    [split; [split; [done|by intros [? _]]|done]|].
  destruct (Z.eqb_spec (types.XMax tuple) 0) as [H0|H0]; cbn [negb andb].
  { split; [split; [intros _; split; [done|by left]|done]|]. split; done. }
  destruct (Z.leb_spec (txn.Xmax s) (types.XMax tuple)); cbn [negb].
  - rewrite orb_true_r, andb_true_r.
    destruct (Z.eqb_spec (types.XMax tuple) myTxnID); cbn [negb].
    + split; [split; [intros _; split; [done|by right]|done]|]. split; done.
    + split; [split; [done|intros [_ [?|?]]; done]|]. split; done.
  - rewrite orb_false_r.
    destruct (txn.activeFlag s (types.XMax tuple)); cbn [negb].
    + rewrite andb_true_r.
      destruct (Z.eqb_spec (types.XMax tuple) myTxnID); cbn [negb].
      * split; [split; [intros _; split; [done|by right]|done]|]. split; done.
      * split; [split; [done|intros [_ [?|?]]; done]|]. split; done.
    + split; [split; [done|by intros [? _]]|]. split; done.
Qed.


(** ** The analysis phase (internal/wal) *)
Section analysis_facts.
Import types wal analysis.

Lemma analyse_skip (c : Z) (tb : tables) (r : LogRecord) :
  ¬ scanned c r → analyse c tb r = tb.
Proof.
  unfold scanned, analyse. intros Hs.
  destruct (Z.ltb_spec 0 c), (Z.leb_spec (LSN r) c); cbn [andb]; try done.
  all: exfalso; apply Hs; intros [? ?]; lia.
Qed.

Lemma analyse_scanned (c : Z) (r : LogRecord) :
  scanned c r → (0 <? c) && (LSN r <=? c) = false.
Proof.
  unfold scanned. intros Hs.
  destruct (Z.ltb_spec 0 c), (Z.leb_spec (LSN r) c); cbn [andb]; try done.
  exfalso. apply Hs. lia.
Qed.

Lemma touch_lookup (att : gmap Z TxnEntry) (t : Z) (f : TxnEntry → TxnEntry) (a : Z) :
  touch att t f !! a = if decide (a = t) then f <$> att !! t else att !! a.
Proof.
  unfold touch. destruct (decide (a = t)) as [->|Hne].
  - destruct (att !! t) eqn:He; [by rewrite lookup_insert_eq|by rewrite He].
  - destruct (att !! t); [by rewrite lookup_insert_ne|done].
Qed.

(** Only a begin record enters a transaction, only a commit record removes
    one. *)
Lemma analyse_att_keeps (c : Z) (tb : tables) (r : LogRecord) (t : Z) :
  ¬ (scanned c r ∧ TxnID r = t ∧ Type_ r = LogRecordCommit) →
  is_Some (tb.1 !! t) → is_Some ((analyse c tb r).1 !! t).
Proof.
  intros Hno Hin. destruct (decide (scanned c r)) as [Hs|Hs];
    [|by rewrite analyse_skip].
  unfold analyse. rewrite analyse_scanned by done.
  destruct (Type_ r) eqn:Hty; cbn [fst]; try done;
    try (rewrite touch_lookup; destruct (decide (t = TxnID r)) as [->|?];
         [by apply fmap_is_Some|done]).
  - destruct (decide (t = TxnID r)) as [->|?];
      [rewrite lookup_insert_eq; eauto|by rewrite lookup_insert_ne].
  - destruct (decide (t = TxnID r)) as [->|?]; [|by rewrite lookup_delete_ne].
    exfalso. apply Hno. done.
Qed.

Lemma analyse_att_absent (c : Z) (tb : tables) (r : LogRecord) (t : Z) :
  ¬ (scanned c r ∧ TxnID r = t ∧ Type_ r = LogRecordBegin) →
  tb.1 !! t = None → (analyse c tb r).1 !! t = None.
Proof.
  intros Hno Hin. destruct (decide (scanned c r)) as [Hs|Hs];
    [|by rewrite analyse_skip].
  unfold analyse. rewrite analyse_scanned by done.
  destruct (Type_ r) eqn:Hty; cbn [fst]; try done;
    try (rewrite touch_lookup; destruct (decide (t = TxnID r)) as [->|?];
         [by rewrite Hin|done]).
  - destruct (decide (t = TxnID r)) as [->|?]; [|by rewrite lookup_insert_ne].
    exfalso. apply Hno. done.
  - destruct (decide (t = TxnID r)) as [->|?];
      [apply lookup_delete_eq|by rewrite lookup_delete_ne].
Qed.

Lemma scan_att_keeps (c : Z) (post : list LogRecord) (tb : tables) (t : Z) :
  Forall (fun r => ¬ (scanned c r ∧ TxnID r = t ∧ Type_ r = LogRecordCommit)) post →
  is_Some (tb.1 !! t) → is_Some ((foldl (analyse c) tb post).1 !! t).
Proof.
  revert tb. induction post as [|r post IH]; intros tb Hall Hin; cbn [foldl]; [done|].
  inversion Hall; subst. apply IH; [done|]. by apply analyse_att_keeps.
Qed.

Lemma scan_att_absent (c : Z) (post : list LogRecord) (tb : tables) (t : Z) :
  Forall (fun r => ¬ (scanned c r ∧ TxnID r = t ∧ Type_ r = LogRecordBegin)) post →
  tb.1 !! t = None → (foldl (analyse c) tb post).1 !! t = None.
Proof.
  revert tb. induction post as [|r post IH]; intros tb Hall Hin; cbn [foldl]; [done|].
  inversion Hall; subst. apply IH; [done|]. by apply analyse_att_absent.
Qed.

(** A record of another transaction, or one the loop passes over, leaves
    the entry of the transaction as it is. *)
Lemma analyse_att_other (c : Z) (tb : tables) (r : LogRecord) (t : Z) :
  ¬ (scanned c r ∧ TxnID r = t ∧ Type_ r ≠ LogRecordCheckpoint) →
  (analyse c tb r).1 !! t = tb.1 !! t.
Proof.
  intros Hno. destruct (decide (scanned c r)) as [Hs|Hs];
    [|by rewrite analyse_skip].
  assert (Hne : Type_ r = LogRecordCheckpoint ∨ t ≠ TxnID r).
  { destruct (decide (Type_ r = LogRecordCheckpoint)); [by left|right].
    intros ->. by apply Hno. }
  unfold analyse. rewrite analyse_scanned by done.
  destruct (Type_ r) eqn:Hty; cbn [fst]; try done;
    destruct Hne as [?|Hne]; try done;
    rewrite ?touch_lookup, ?decide_False by done; try done.
  - by rewrite lookup_insert_ne.
  - by rewrite lookup_delete_ne.
Qed.

Lemma scan_att_other (c : Z) (post : list LogRecord) (tb : tables) (t : Z) :
  Forall (fun r => ¬ (scanned c r ∧ TxnID r = t ∧ Type_ r ≠ LogRecordCheckpoint)) post →
  (foldl (analyse c) tb post).1 !! t = tb.1 !! t.
Proof.
  revert tb. induction post as [|r post IH]; intros tb Hall; cbn [foldl]; [done|].
  inversion Hall; subst. rewrite IH by done. by apply analyse_att_other.
Qed.

(** The dirty page table: an entry is never changed or removed, and a page
    is entered by the first scanned data record on it. *)
Lemma analyse_dpt_keeps (c : Z) (tb : tables) (r : LogRecord) (p recLSN : Z) :
  tb.2 !! p = Some recLSN → (analyse c tb r).2 !! p = Some recLSN.
Proof.
  intros Hin. unfold analyse.
  destruct ((0 <? c) && (LSN r <=? c)); [done|].
  destruct (Type_ r); cbn [snd]; try done;
    (destruct (tb.2 !! PageID r) eqn:Hp; [done|]);
    (rewrite lookup_insert_ne; [done|]); intros Heq; rewrite Heq in Hp; congruence.
Qed.

Lemma scan_dpt_keeps (c : Z) (post : list LogRecord) (tb : tables) (p recLSN : Z) :
  tb.2 !! p = Some recLSN → (foldl (analyse c) tb post).2 !! p = Some recLSN.
Proof.
  revert tb. induction post as [|r post IH]; intros tb Hin; cbn [foldl]; [done|].
  apply IH. by apply analyse_dpt_keeps.
Qed.

Lemma analyse_dpt_absent (c : Z) (tb : tables) (r : LogRecord) (p : Z) :
  ¬ (scanned c r ∧ PageID r = p ∧ dirties (Type_ r) = true) →
  tb.2 !! p = None → (analyse c tb r).2 !! p = None.
Proof.
  intros Hno Hin. destruct (decide (scanned c r)) as [Hs|Hs];
    [|by rewrite analyse_skip].
  assert (Hp : dirties (Type_ r) = true → PageID r ≠ p).
  { intros Hd Heq. by apply Hno. }
  unfold analyse. rewrite analyse_scanned by done.
  destruct (Type_ r); cbn [snd dirties] in *; try done;
    (destruct (tb.2 !! PageID r) eqn:Hpp; [done|]);
    (rewrite lookup_insert_ne; [done|]); by apply Hp.
Qed.

Lemma scan_dpt_absent (c : Z) (post : list LogRecord) (tb : tables) (p : Z) :
  Forall (fun r => ¬ (scanned c r ∧ PageID r = p ∧ dirties (Type_ r) = true)) post →
  tb.2 !! p = None → (foldl (analyse c) tb post).2 !! p = None.
Proof.
  revert tb. induction post as [|r post IH]; intros tb Hall Hin; cbn [foldl]; [done|].
  inversion Hall; subst. apply IH; [done|]. by apply analyse_dpt_absent.
Qed.

Lemma analyse_dpt_first (c : Z) (tb : tables) (r : LogRecord) :
  scanned c r → dirties (Type_ r) = true → tb.2 !! PageID r = None →
  (analyse c tb r).2 !! PageID r = Some (LSN r).
Proof.
  intros Hs Hd Hin. unfold analyse. rewrite analyse_scanned by done.
  destruct (Type_ r); cbn [snd]; try done; rewrite Hin; apply lookup_insert_eq.
Qed.

Lemma findCheckpoint_fold (records : list LogRecord) (acc : Z * option LogRecord) :
  let res := foldl (fun acc record =>
           if decide (Type_ record = LogRecordCheckpoint)
           then (LSN record, Some record) else acc) acc records in
  (Forall (fun r => Type_ r ≠ LogRecordCheckpoint) records ∧ res = acc) ∨
  (∃ pre cp post, records = pre ++ cp :: post ∧ Type_ cp = LogRecordCheckpoint ∧
     Forall (fun r => Type_ r ≠ LogRecordCheckpoint) post ∧ res = (LSN cp, Some cp)).
Proof.
  revert acc. induction records as [|r records IH]; intros acc; cbn [foldl].
  - left. done.
  - destruct (IH (if decide (Type_ r = LogRecordCheckpoint) then (LSN r, Some r) else acc))
      as [[Hall Hres]|(pre & cp & post & -> & Hcp & Hall & Hres)]; cbn zeta in *.
    + destruct (decide (Type_ r = LogRecordCheckpoint)) as [Hr|Hr].
      * right. exists [], r, records. done.
      * left. split; [by constructor|done].
    + right. exists (r :: pre), cp, post. done.
Qed.

Lemma findCheckpoint_spec (records : list LogRecord) :
  (Forall (fun r => Type_ r ≠ LogRecordCheckpoint) records ∧
   findCheckpoint records = (0, None)) ∨
  (∃ pre cp post, records = pre ++ cp :: post ∧ Type_ cp = LogRecordCheckpoint ∧
     Forall (fun r => Type_ r ≠ LogRecordCheckpoint) post ∧
     findCheckpoint records = (LSN cp, Some cp)).
Proof. apply (findCheckpoint_fold records (0, None)). Qed.

Lemma fold_insert_absent (l : list (Z * Z)) (d0 : gmap Z Z) (p : Z) :
  p ∉ l.*1 → foldl (fun dpt kv => <[kv.1 := kv.2]> dpt) d0 l !! p = d0 !! p.
Proof.
  revert d0. induction l as [|[k x] l IH]; intros d0 Hp; cbn [foldl]; [done|].
  cbn [fmap list_fmap fst] in Hp. apply not_elem_of_cons in Hp as [Hne Hp].
  rewrite IH by done. cbn [fst snd]. by rewrite lookup_insert_ne.
Qed.

Lemma fold_insert_present (l : list (Z * Z)) (d0 : gmap Z Z) (p v : Z) :
  NoDup l.*1 → (p, v) ∈ l →
  foldl (fun dpt kv => <[kv.1 := kv.2]> dpt) d0 l !! p = Some v.
Proof.
  revert d0. induction l as [|[k x] l IH]; intros d0 Hnd Hin; cbn [foldl].
  - by apply elem_of_nil in Hin.
  - cbn [fmap list_fmap fst] in Hnd. apply NoDup_cons in Hnd as [Hk Hnd].
    apply elem_of_cons in Hin as [[= -> ->]|Hin]; [|by apply IH].
    rewrite fold_insert_absent by done. cbn [fst snd]. apply lookup_insert_eq.
Qed.

Lemma initFromCheckpoint_dpt (tb : tables) (cp : LogRecord) (p : Z) :
  (initFromCheckpoint tb cp).2 !! p
  = match DirtyPages cp !! p with Some l => Some l | None => tb.2 !! p end.
Proof.
  unfold initFromCheckpoint. cbn [snd].
  destruct (DirtyPages cp !! p) as [l|] eqn:Hp.
  - apply fold_insert_present; [apply NoDup_fst_map_to_list|].
    by apply elem_of_map_to_list.
  - apply fold_insert_absent. intros Hin. apply list_elem_of_fmap in Hin as ([k v] & -> & Hin).
    apply elem_of_map_to_list in Hin. cbn [fst] in Hp. congruence.
Qed.

Lemma findCheckpoint_app (pre post : list LogRecord) (cp : LogRecord) :
  Type_ cp = LogRecordCheckpoint →
  Forall (fun r => Type_ r ≠ LogRecordCheckpoint) post →
  findCheckpoint (pre ++ cp :: post) = (LSN cp, Some cp).
Proof.
  intros Hcp Hpost. unfold findCheckpoint. rewrite foldl_app. cbn [foldl].
  rewrite decide_True by done.
  induction Hpost as [|r post Hr Hpost IH]; cbn [foldl]; [done|].
  by rewrite decide_False by done.
Qed.

End analysis_facts.

(** X20.  Winners and losers of the analysis phase.  Among the records the
    second pass scans (those after the last checkpoint), a transaction whose
    commit record is followed by no begin record of the same id is not in
    the active transaction table when analysis ends; a transaction whose
    begin record is followed by no commit record of its id is in the table
    (also when it has an abort record), and when no later record names it
    its entry is the one made at begin: running, LastLSN the LSN of the begin
    record. *)
Theorem X20_analysis_winners_and_losers
    (tb : analysis.tables) (pre post : list wal.LogRecord) (r : wal.LogRecord) :
  let res := analysis.analysisPhase tb (pre ++ r :: post) in
  analysis.scanned res.2 r →
  (wal.Type_ r = types.LogRecordCommit →
   Forall (fun r' => ¬ (analysis.scanned res.2 r' ∧ wal.TxnID r' = wal.TxnID r ∧
                        wal.Type_ r' = types.LogRecordBegin)) post →
   res.1.1 !! wal.TxnID r = None) ∧
  (wal.Type_ r = types.LogRecordBegin →
   Forall (fun r' => ¬ (analysis.scanned res.2 r' ∧ wal.TxnID r' = wal.TxnID r ∧
                        wal.Type_ r' = types.LogRecordCommit)) post →
   is_Some (res.1.1 !! wal.TxnID r)) ∧
  (wal.Type_ r = types.LogRecordBegin →
   Forall (fun r' => ¬ (analysis.scanned res.2 r' ∧ wal.TxnID r' = wal.TxnID r ∧
                        wal.Type_ r' ≠ types.LogRecordCheckpoint)) post →
   res.1.1 !! wal.TxnID r
     = Some (wal.mkTxnEntry (wal.TxnID r) types.TxnStatusRunning (wal.LSN r) 0)).
Proof.
  cbn zeta. unfold analysis.analysisPhase.
  destruct (analysis.findCheckpoint (pre ++ r :: post)) as [c cp]. cbn [fst snd].
  intros Hs. rewrite foldl_app. cbn [foldl].
  set (tb0 := foldl (analysis.analyse c) _ pre).
  assert (Hstep : ∀ ty, wal.Type_ r = ty →
            analysis.analyse c tb0 r =
            match ty with
            | types.LogRecordBegin =>
              (<[wal.TxnID r := wal.mkTxnEntry (wal.TxnID r) types.TxnStatusRunning (wal.LSN r) 0]> tb0.1, tb0.2)
            | types.LogRecordCommit => (delete (wal.TxnID r) tb0.1, tb0.2)
            | _ => analysis.analyse c tb0 r
            end).
  { intros ty Hty. unfold analysis.analyse. rewrite analyse_scanned by done.
    rewrite Hty. by destruct ty. }
  split; [|split]; intros Hty Hpost; rewrite (Hstep _ Hty).
  - apply scan_att_absent; [done|]. cbn [fst]. apply lookup_delete_eq.
  - apply scan_att_keeps; [done|]. cbn [fst]. rewrite lookup_insert_eq. eauto.
  - rewrite scan_att_other by done. cbn [fst]. apply lookup_insert_eq.
Qed.

(** X21.  The dirty page table of the analysis phase.  A page that the
    checkpoint record, or else the table before analysis, lists keeps that
    RecLSN; any other page gets the LSN of the first scanned update, insert
    or delete record on it, and no entry when there is no such record
    (compensation records enter no page). *)
Theorem X21_analysis_dirty_pages
    (tb : analysis.tables) (records : list wal.LogRecord) (p : Z) :
  let res := analysis.analysisPhase tb records in
  let start :=
    match (analysis.findCheckpoint records).2 with
    | Some cp => match wal.DirtyPages cp !! p with Some l => Some l | None => tb.2 !! p end
    | None => tb.2 !! p
    end in
  let first (r : wal.LogRecord) :=
    analysis.scanned res.2 r ∧ wal.PageID r = p ∧ analysis.dirties (wal.Type_ r) = true in
  (∀ recLSN, start = Some recLSN → res.1.2 !! p = Some recLSN) ∧
  (start = None → ∀ pre r post, records = pre ++ r :: post →
     Forall (fun r' => ¬ first r') pre → first r → res.1.2 !! p = Some (wal.LSN r)) ∧
  (start = None → Forall (fun r' => ¬ first r') records → res.1.2 !! p = None).
Proof.
  cbn zeta. unfold analysis.analysisPhase.
  destruct (analysis.findCheckpoint records) as [c cp]. cbn [fst snd].
  set (tb1 := match cp with Some cp0 => analysis.initFromCheckpoint tb cp0 | None => tb end).
  assert (Hstart : tb1.2 !! p =
            match cp with
            | Some cp0 => match wal.DirtyPages cp0 !! p with
                          | Some l => Some l | None => tb.2 !! p end
            | None => tb.2 !! p end).
  { unfold tb1. destruct cp; [apply initFromCheckpoint_dpt|done]. }
  rewrite <- Hstart. clearbody tb1. clear Hstart.
  split; [|split].
  - intros recLSN Hst. by apply scan_dpt_keeps.
  - intros Hst pre r post -> Hpre (Hs & Hp & Hd). rewrite foldl_app. cbn [foldl].
    apply scan_dpt_keeps. subst p. apply analyse_dpt_first; [done..|].
    by apply scan_dpt_absent.
  - intros Hst Hall. by apply scan_dpt_absent.
Qed.

(** X22.  Analysis starts at the last checkpoint.  The records before the
    last checkpoint record, when their LSNs are not above the checkpoint's,
    have no influence on the result: analysing the whole log and analysing
    the log from the checkpoint record on give the same tables and the same
    checkpoint LSN, which is the LSN of that record. *)
Theorem X22_analysis_from_checkpoint
    (tb : analysis.tables) (pre post : list wal.LogRecord) (cp : wal.LogRecord) :
  wal.Type_ cp = types.LogRecordCheckpoint → 0 < wal.LSN cp →
  Forall (fun r => wal.LSN r <= wal.LSN cp) pre →
  Forall (fun r => wal.Type_ r ≠ types.LogRecordCheckpoint) post →
  analysis.analysisPhase tb (pre ++ cp :: post) = analysis.analysisPhase tb (cp :: post) ∧
  (analysis.analysisPhase tb (pre ++ cp :: post)).2 = wal.LSN cp.
Proof.
  intros Hcp Hpos Hpre Hpost. unfold analysis.analysisPhase.
  rewrite (findCheckpoint_app pre post cp Hcp Hpost).
  pose proof (findCheckpoint_app [] post cp Hcp Hpost) as Hc0. cbn [app] in Hc0.
  rewrite Hc0. cbn [snd].
  split; [|done]. f_equal. rewrite foldl_app. f_equal.
  induction Hpre as [|r pre Hr Hpre IH]; cbn [foldl]; [done|].
  rewrite analyse_skip; [done|]. unfold analysis.scanned. intros Hn. apply Hn. lia.
Qed.

Lemma X22_analysis_from_checkpoint_witness :
  wal.Type_ x_checkpoint = types.LogRecordCheckpoint ∧ 0 < wal.LSN x_checkpoint ∧
  Forall (fun r => wal.LSN r <= wal.LSN x_checkpoint) x_log_pre ∧
  Forall (fun r => wal.Type_ r ≠ types.LogRecordCheckpoint) x_log_post ∧
  analysis.analysisPhase analysis.noTables (x_log_pre ++ x_checkpoint :: x_log_post)
    = analysis.analysisPhase analysis.noTables (x_checkpoint :: x_log_post) ∧
  (analysis.analysisPhase analysis.noTables (x_log_pre ++ x_checkpoint :: x_log_post)).2 = 3.
Proof.
  assert (H1 : wal.Type_ x_checkpoint = types.LogRecordCheckpoint) by reflexivity.
  assert (H2 : 0 < wal.LSN x_checkpoint) by reflexivity.
  assert (H3 : Forall (fun r => wal.LSN r <= wal.LSN x_checkpoint) x_log_pre).
  { apply (bool_decide_unpack _). vm_compute. exact I. }
  assert (H4 : Forall (fun r => wal.Type_ r ≠ types.LogRecordCheckpoint) x_log_post).
  { apply (bool_decide_unpack _). vm_compute. exact I. }
  destruct (X22_analysis_from_checkpoint analysis.noTables _ _ _ H1 H2 H3 H4) as [Ha Hb].
  split; [exact H1|]. split; [exact H2|]. split; [exact H3|]. split; [exact H4|].
  split; [exact Ha|exact Hb].
Defined.

Lemma X20_analysis_winners_and_losers_witness :
  let log := x_log_pre ++ x_checkpoint :: x_log_post in
  let res := analysis.analysisPhase analysis.noTables log in
  analysis.scanned res.2 (x_rec 6 6 types.LogRecordCommit 0) ∧
  res.1.1 !! 6 = None ∧
  analysis.scanned res.2 (x_rec 7 7 types.LogRecordBegin 0) ∧
  res.1.1 !! 7 = Some (wal.mkTxnEntry 7 types.TxnStatusRunning 7 0).
Proof.
  cbn zeta.
  pose proof (X20_analysis_winners_and_losers analysis.noTables
                (x_log_pre ++ [x_checkpoint; x_rec 4 6 types.LogRecordBegin 0;
                               x_rec 5 6 types.LogRecordInsert 4])
                [x_rec 7 7 types.LogRecordBegin 0] (x_rec 6 6 types.LogRecordCommit 0)) as Hc.
  pose proof (X20_analysis_winners_and_losers analysis.noTables
                (x_log_pre ++ [x_checkpoint; x_rec 4 6 types.LogRecordBegin 0;
                               x_rec 5 6 types.LogRecordInsert 4;
                               x_rec 6 6 types.LogRecordCommit 0])
                [] (x_rec 7 7 types.LogRecordBegin 0)) as Hb.
  cbn zeta in Hc, Hb.
  assert (Hs6 : analysis.scanned
            (analysis.analysisPhase analysis.noTables
               (x_log_pre ++ x_checkpoint :: x_log_post)).2
            (x_rec 6 6 types.LogRecordCommit 0)).
  { apply (bool_decide_unpack _). vm_compute. exact I. }
  assert (Hs7 : analysis.scanned
            (analysis.analysisPhase analysis.noTables
               (x_log_pre ++ x_checkpoint :: x_log_post)).2
            (x_rec 7 7 types.LogRecordBegin 0)).
  { apply (bool_decide_unpack _). vm_compute. exact I. }
  destruct (Hc Hs6) as (Hc1 & _). destruct (Hb Hs7) as (_ & _ & Hb3).
  split; [exact Hs6|]. split.
  - apply Hc1; [reflexivity|]. apply (bool_decide_unpack _). vm_compute. exact I.
  - split; [exact Hs7|]. apply Hb3; [reflexivity|]. constructor.
Defined.

Lemma X21_analysis_dirty_pages_witness :
  let res := analysis.analysisPhase analysis.noTables
               (x_log_pre ++ x_checkpoint :: x_log_post) in
  res.1.2 !! 3 = Some 2 ∧ res.1.2 !! 4 = Some 5 ∧ res.1.2 !! 0 = None.
Proof.
  cbn zeta.
  destruct (X21_analysis_dirty_pages analysis.noTables
              (x_log_pre ++ x_checkpoint :: x_log_post) 3) as (H3 & _).
  destruct (X21_analysis_dirty_pages analysis.noTables
              (x_log_pre ++ x_checkpoint :: x_log_post) 4) as (_ & H4 & _).
  destruct (X21_analysis_dirty_pages analysis.noTables
              (x_log_pre ++ x_checkpoint :: x_log_post) 0) as (_ & _ & H0).
  split; [apply H3; reflexivity|]. split.
  - apply (H4 eq_refl (x_log_pre ++ [x_checkpoint; x_rec 4 6 types.LogRecordBegin 0])
              (x_rec 5 6 types.LogRecordInsert 4)
              [x_rec 6 6 types.LogRecordCommit 0; x_rec 7 7 types.LogRecordBegin 0]
              eq_refl).
    + apply (bool_decide_unpack _). vm_compute. exact I.
    + apply (bool_decide_unpack _). vm_compute. exact I.
  - apply (H0 eq_refl). apply (bool_decide_unpack _). vm_compute. exact I.
Defined.
(** ** The log record codec (internal/wal) *)
Section wal_codec_facts.
Import types bytes wal wal_codec.
Import storage (result, Ok, Err, Panic, ErrOther).

Lemma readAt_mid (pre a rest : list Z) (off : Z) (n : nat) :
  off = Z.of_nat (length pre) → n = length a → readAt (pre ++ a ++ rest) off n = a.
Proof.
  intros -> ->. rewrite readAt_app_skip by lia.
  replace (Z.of_nat (length pre) - Z.of_nat (length pre)) with 0 by lia.
  by apply readAt_app_l.
Qed.

Lemma leValue_mid (pre rest : list Z) (off : Z) (n : nat) (v : Z) :
  off = Z.of_nat (length pre) → 0 <= v < 256 ^ Z.of_nat n →
  leValue (readAt (pre ++ leBytes n v ++ rest) off n) = v.
Proof.
  intros Hoff Hv. rewrite readAt_mid by (by rewrite ?length_leBytes).
  by apply leValue_leBytes_small.
Qed.

Lemma length_header (r : LogRecord) : length (header r) = 51%nat.
Proof. unfold header. rewrite !length_app, !length_leBytes. done. Qed.

Lemma length_flat_map_const {A} (f : A → list Z) (l : list A) (k : nat) :
  (∀ x, length (f x) = k) → length (flat_map f l) = (k * length l)%nat.
Proof.
  intros Hf. induction l as [|x l IH]; cbn [flat_map length]; [lia|].
  rewrite length_app, Hf, IH. lia.
Qed.

Lemma length_serializeCheckpoint (r : LogRecord) (pages : list (Z * Z)) :
  length pages = size (DirtyPages r) →
  Z.of_nat (length (serializeCheckpoint r pages))
  = 4 + Z.of_nat (length (ActiveTxns r)) * 8 + 4 + Z.of_nat (size (DirtyPages r)) * 12.
Proof.
  intros Hp. unfold serializeCheckpoint.
  rewrite !length_app, !length_leBytes.
  rewrite (length_flat_map_const _ _ 8) by (intros; apply length_leBytes).
  rewrite (length_flat_map_const _ _ 12)
    by (intros; rewrite length_app, !length_leBytes; done).
  lia.
Qed.

Lemma length_SerializeWith (r : LogRecord) (pages : list (Z * Z)) :
  length pages = size (DirtyPages r) →
  4 + Z.of_nat (length (ActiveTxns r)) * 8 + 4 + Z.of_nat (size (DirtyPages r)) * 12 < 2 ^ 32 →
  Z.of_nat (length (SerializeWith r pages)) = serializedLen r.
Proof.
  intros Hp Hsz. unfold SerializeWith, serializedLen, logRecordHeaderSize.
  rewrite !length_app, length_header.
  destruct (decide (Type_ r = LogRecordCheckpoint)) as [Hc|Hc];
    destruct (decide (Type_ r = LogRecordCLR)) as [Hl|Hl]; try congruence;
    cbn zeta; rewrite ?length_app, ?length_leBytes; cbn [length];
    try (pose proof (length_serializeCheckpoint r pages Hp)); lia.
Qed.

(** Reading the header of a serialised record. *)
Lemma header_fields (r : LogRecord) (rest : list Z) :
  record_ok r →
  let buf := header r ++ rest in
  Uint64 buf 0 = LSN r ∧ Uint64 buf 8 = PrevLSN r ∧ Uint64 buf 16 = TxnID r ∧
  nth 24 buf 0 = typeByte (Type_ r) ∧ Uint32 buf 25 = TableID r ∧
  Uint64 buf 29 = RowID r ∧ Uint32 buf 37 = PageID r ∧ Uint16 buf 41 = SlotNum r ∧
  Uint32 buf 43 = Z.of_nat (length (BeforeImage r)) ∧
  Uint32 buf 47 = Z.of_nat (length (AfterImage r)).
Proof.
  intros (H1 & H2 & H3 & H4 & H5 & H6 & H7 & H8 & H9 & H10 & _). cbn zeta.
  unfold header, Uint64, Uint32, Uint16.
  set (f1 := leBytes 8 (LSN r)). set (f2 := leBytes 8 (PrevLSN r)).
  set (f3 := leBytes 8 (TxnID r)). set (f4 := [typeByte (Type_ r)]).
  set (f5 := leBytes 4 (TableID r)). set (f6 := leBytes 8 (RowID r)).
  set (f7 := leBytes 4 (PageID r)). set (f8 := leBytes 2 (SlotNum r)).
  set (f9 := leBytes 4 (Z.of_nat (length (BeforeImage r)))).
  set (f10 := leBytes 4 (Z.of_nat (length (AfterImage r)))).
  assert (L1 : length f1 = 8%nat) by apply length_leBytes.
  assert (L2 : length f2 = 8%nat) by apply length_leBytes.
  assert (L3 : length f3 = 8%nat) by apply length_leBytes.
  assert (L4 : length f4 = 1%nat) by done.
  assert (L5 : length f5 = 4%nat) by apply length_leBytes.
  assert (L6 : length f6 = 8%nat) by apply length_leBytes.
  assert (L7 : length f7 = 4%nat) by apply length_leBytes.
  assert (L8 : length f8 = 2%nat) by apply length_leBytes.
  assert (L9 : length f9 = 4%nat) by apply length_leBytes.
  split; [|split; [|split; [|split; [|split; [|split; [|split; [|split; [|split]]]]]]]].
  - rewrite <- !app_assoc. change (f1 ++ ?x) with ([] ++ f1 ++ x).
    apply leValue_mid; [done|lia].
  - rewrite <- !app_assoc. apply leValue_mid; [lia|lia].
  - replace ((f1 ++ f2 ++ f3 ++ f4 ++ f5 ++ f6 ++ f7 ++ f8 ++ f9 ++ f10) ++ rest)
      with ((f1 ++ f2) ++ f3 ++ (f4 ++ f5 ++ f6 ++ f7 ++ f8 ++ f9 ++ f10 ++ rest))
      by (by rewrite <- !app_assoc).
    apply leValue_mid; [rewrite length_app; lia|lia].
  - replace ((f1 ++ f2 ++ f3 ++ f4 ++ f5 ++ f6 ++ f7 ++ f8 ++ f9 ++ f10) ++ rest)
      with ((f1 ++ f2 ++ f3) ++ f4 ++ (f5 ++ f6 ++ f7 ++ f8 ++ f9 ++ f10 ++ rest))
      by (by rewrite <- !app_assoc).
    rewrite app_nth2 by (rewrite !length_app; lia).
    rewrite !length_app, L1, L2, L3. done.
  - replace ((f1 ++ f2 ++ f3 ++ f4 ++ f5 ++ f6 ++ f7 ++ f8 ++ f9 ++ f10) ++ rest)
      with ((f1 ++ f2 ++ f3 ++ f4) ++ f5 ++ (f6 ++ f7 ++ f8 ++ f9 ++ f10 ++ rest))
      by (by rewrite <- !app_assoc).
    apply leValue_mid; [rewrite !length_app; lia|lia].
  - replace ((f1 ++ f2 ++ f3 ++ f4 ++ f5 ++ f6 ++ f7 ++ f8 ++ f9 ++ f10) ++ rest)
      with ((f1 ++ f2 ++ f3 ++ f4 ++ f5) ++ f6 ++ (f7 ++ f8 ++ f9 ++ f10 ++ rest))
      by (by rewrite <- !app_assoc).
    apply leValue_mid; [rewrite !length_app; lia|lia].
  - replace ((f1 ++ f2 ++ f3 ++ f4 ++ f5 ++ f6 ++ f7 ++ f8 ++ f9 ++ f10) ++ rest)
      with ((f1 ++ f2 ++ f3 ++ f4 ++ f5 ++ f6) ++ f7 ++ (f8 ++ f9 ++ f10 ++ rest))
      by (by rewrite <- !app_assoc).
    apply leValue_mid; [rewrite !length_app; lia|lia].
  - replace ((f1 ++ f2 ++ f3 ++ f4 ++ f5 ++ f6 ++ f7 ++ f8 ++ f9 ++ f10) ++ rest)
      with ((f1 ++ f2 ++ f3 ++ f4 ++ f5 ++ f6 ++ f7) ++ f8 ++ (f9 ++ f10 ++ rest))
      by (by rewrite <- !app_assoc).
    apply leValue_mid; [rewrite !length_app; lia|lia].
  - replace ((f1 ++ f2 ++ f3 ++ f4 ++ f5 ++ f6 ++ f7 ++ f8 ++ f9 ++ f10) ++ rest)
      with ((f1 ++ f2 ++ f3 ++ f4 ++ f5 ++ f6 ++ f7 ++ f8) ++ f9 ++ (f10 ++ rest))
      by (by rewrite <- !app_assoc).
    apply leValue_mid; [rewrite !length_app; lia|lia].
  - replace ((f1 ++ f2 ++ f3 ++ f4 ++ f5 ++ f6 ++ f7 ++ f8 ++ f9 ++ f10) ++ rest)
      with ((f1 ++ f2 ++ f3 ++ f4 ++ f5 ++ f6 ++ f7 ++ f8 ++ f9) ++ f10 ++ rest)
      by (by rewrite <- !app_assoc).
    apply leValue_mid; [rewrite !length_app; lia|lia].
Qed.

Lemma readTxns_spec (txns pre rest : list Z) :
  Forall (fun t => 0 <= t < 2 ^ 64) txns →
  readTxns (length txns) (pre ++ flat_map (leBytes 8) txns ++ rest) (Z.of_nat (length pre))
  = Some (txns, Z.of_nat (length pre) + 8 * Z.of_nat (length txns)).
Proof.
  intros Hall. revert pre. induction Hall as [|t txns Ht Hall IH]; intros pre.
  - cbn [length readTxns]. do 2 f_equal. lia.
  - cbn [length readTxns flat_map].
    destruct (Z.ltb_spec (Z.of_nat (length (pre ++ (leBytes 8 t ++ flat_map (leBytes 8) txns) ++ rest)))
                (Z.of_nat (length pre) + 8)) as [Hlt|_].
    { rewrite !length_app, length_leBytes in Hlt. lia. }
    rewrite <- app_assoc. unfold Uint64. rewrite leValue_mid by (done || lia).
    replace (pre ++ leBytes 8 t ++ flat_map (leBytes 8) txns ++ rest)
      with ((pre ++ leBytes 8 t) ++ flat_map (leBytes 8) txns ++ rest)
      by (by rewrite <- app_assoc).
    replace (Z.of_nat (length pre) + 8) with (Z.of_nat (length (pre ++ leBytes 8 t)))
      by (rewrite length_app, length_leBytes; lia).
    rewrite IH. rewrite length_app, length_leBytes. do 2 f_equal. lia.
Qed.

Lemma readPages_spec (pages : list (Z * Z)) (pre rest : list Z) (dpt : gmap Z Z) :
  Forall (fun kv => (0 <= kv.1 < 2 ^ 32) ∧ (0 <= kv.2 < 2 ^ 64)) pages →
  readPages (length pages)
    (pre ++ flat_map (fun kv => leBytes 4 kv.1 ++ leBytes 8 kv.2) pages ++ rest)
    (Z.of_nat (length pre)) dpt
  = Some (foldl (fun d kv => <[kv.1 := kv.2]> d) dpt pages).
Proof.
  intros Hall. revert pre dpt. induction Hall as [|[p l] pages [Hp Hl] Hall IH]; intros pre dpt.
  - done.
  - cbn [length readPages flat_map foldl fst snd] in *.
    set (tail := flat_map (fun kv => leBytes 4 kv.1 ++ leBytes 8 kv.2) pages).
    assert (Hlen : Z.of_nat (length (pre ++ ((leBytes 4 p ++ leBytes 8 l) ++ tail) ++ rest))
                   >= Z.of_nat (length pre) + 12).
    { rewrite !length_app, !length_leBytes. lia. }
    destruct (Z.ltb_spec (Z.of_nat (length (pre ++ ((leBytes 4 p ++ leBytes 8 l) ++ tail) ++ rest)))
                (Z.of_nat (length pre) + 4)); [lia|].
    destruct (Z.ltb_spec (Z.of_nat (length (pre ++ ((leBytes 4 p ++ leBytes 8 l) ++ tail) ++ rest)))
                (Z.of_nat (length pre) + 4 + 8)); [lia|].
    unfold Uint32, Uint64.
    replace (pre ++ ((leBytes 4 p ++ leBytes 8 l) ++ tail) ++ rest)
      with (pre ++ leBytes 4 p ++ (leBytes 8 l ++ tail ++ rest))
      by (by rewrite <- !app_assoc).
    rewrite leValue_mid by (done || lia).
    replace (pre ++ leBytes 4 p ++ (leBytes 8 l ++ tail ++ rest))
      with ((pre ++ leBytes 4 p) ++ leBytes 8 l ++ (tail ++ rest))
      by (by rewrite <- !app_assoc).
    rewrite leValue_mid by (rewrite ?length_app, ?length_leBytes; lia).
    replace ((pre ++ leBytes 4 p) ++ leBytes 8 l ++ (tail ++ rest))
      with ((pre ++ leBytes 4 p ++ leBytes 8 l) ++ tail ++ rest)
      by (by rewrite <- !app_assoc).
    replace (Z.of_nat (length pre) + 12)
      with (Z.of_nat (length (pre ++ leBytes 4 p ++ leBytes 8 l)))
      by (rewrite !length_app, !length_leBytes; lia).
    apply IH.
Qed.

Lemma fold_insert_perm (m : gmap Z Z) (pages : list (Z * Z)) :
  pages ≡ₚ map_to_list m →
  foldl (fun d kv => <[kv.1 := kv.2]> d) ∅ pages = m.
Proof.
  intros Hperm. apply map_eq. intros p.
  destruct (m !! p) as [v|] eqn:Hp.
  - apply fold_insert_present.
    + rewrite Hperm. apply NoDup_fst_map_to_list.
    + rewrite Hperm. by apply elem_of_map_to_list.
  - rewrite fold_insert_absent; [done|]. intros Hin.
    apply list_elem_of_fmap in Hin as ([k v] & -> & Hin).
    rewrite Hperm in Hin. apply elem_of_map_to_list in Hin. cbn [fst] in Hp. congruence.
Qed.

Lemma deserializeCheckpoint_spec (r : LogRecord) (pages : list (Z * Z)) :
  record_ok r → pages ≡ₚ map_to_list (DirtyPages r) →
  deserializeCheckpoint (serializeCheckpoint r pages) = Some (ActiveTxns r, DirtyPages r).
Proof.
  intros Hok Hperm. pose proof Hok as (_ & _ & _ & _ & _ & _ & _ & _ & _ & _ & Htx & Hdp & Hsz).
  assert (Hplen : length pages = size (DirtyPages r)).
  { by rewrite Hperm, length_map_to_list. }
  assert (Hpages : Forall (fun kv => (0 <= kv.1 < 2 ^ 32) ∧ (0 <= kv.2 < 2 ^ 64)) pages).
  { apply Forall_forall. intros [p l] Hin. rewrite Hperm in Hin.
    apply elem_of_map_to_list in Hin. exact (Hdp p l Hin). }
  pose proof (length_serializeCheckpoint r pages Hplen) as Hlen.
  unfold deserializeCheckpoint.
  destruct (Z.ltb_spec (Z.of_nat (length (serializeCheckpoint r pages))) 4); [lia|].
  unfold serializeCheckpoint in *.
  set (n1 := leBytes 4 (Z.of_nat (length (ActiveTxns r)))) in *.
  set (n2 := leBytes 4 (Z.of_nat (size (DirtyPages r)))) in *.
  set (enc := flat_map (fun kv => leBytes 4 kv.1 ++ leBytes 8 kv.2) pages) in *.
  assert (Hn1 : Uint32 (n1 ++ flat_map (leBytes 8) (ActiveTxns r) ++ n2 ++ enc) 0
                = Z.of_nat (length (ActiveTxns r))).
  { unfold Uint32. change (n1 ++ ?x) with ([] ++ n1 ++ x). apply leValue_mid; [done|lia]. }
  rewrite Hn1, Nat2Z.id.
  pose proof (readTxns_spec (ActiveTxns r) n1 (n2 ++ enc) Htx) as Hrt.
  assert (L1 : length n1 = 4%nat) by apply length_leBytes.
  rewrite L1 in Hrt. change (Z.of_nat 4) with 4 in Hrt. rewrite Hrt.
  destruct (Z.ltb_spec
              (Z.of_nat (length (n1 ++ flat_map (leBytes 8) (ActiveTxns r) ++ n2 ++ enc)))
              (4 + 8 * Z.of_nat (length (ActiveTxns r)) + 4)); [lia|].
  assert (Hoff : 4 + 8 * Z.of_nat (length (ActiveTxns r))
                 = Z.of_nat (length (n1 ++ flat_map (leBytes 8) (ActiveTxns r)))).
  { rewrite length_app, L1, (length_flat_map_const _ _ 8) by (intros; apply length_leBytes).
    lia. }
  replace (n1 ++ flat_map (leBytes 8) (ActiveTxns r) ++ n2 ++ enc)
    with ((n1 ++ flat_map (leBytes 8) (ActiveTxns r)) ++ n2 ++ enc)
    by (by rewrite <- !app_assoc).
  assert (Hn2 : Uint32 ((n1 ++ flat_map (leBytes 8) (ActiveTxns r)) ++ n2 ++ enc)
                  (4 + 8 * Z.of_nat (length (ActiveTxns r)))
                = Z.of_nat (size (DirtyPages r))).
  { unfold Uint32. apply leValue_mid; [done|lia]. }
  rewrite Hn2, Nat2Z.id, <- Hplen.
  replace ((n1 ++ flat_map (leBytes 8) (ActiveTxns r)) ++ n2 ++ enc)
    with (((n1 ++ flat_map (leBytes 8) (ActiveTxns r)) ++ n2) ++ enc ++ [])
    by (by rewrite app_nil_r, <- !app_assoc).
  replace (4 + 8 * Z.of_nat (length (ActiveTxns r)) + 4)
    with (Z.of_nat (length ((n1 ++ flat_map (leBytes 8) (ActiveTxns r)) ++ n2)))
    by (rewrite (length_app _ n2), Nat2Z.inj_add, <- Hoff; unfold n2;
        rewrite length_leBytes; lia).
  unfold enc. rewrite readPages_spec by done.
  by rewrite (fold_insert_perm (DirtyPages r)).
Qed.

Lemma typeOfByte_typeByte (t : LogRecordType) : typeOfByte (typeByte t) = Some t.
Proof. by destruct t. Qed.

Lemma Deserialize_SerializeWith (r : LogRecord) (pages : list (Z * Z)) (rest : list Z) :
  record_ok r → pages ≡ₚ map_to_list (DirtyPages r) →
  ∃ d, Deserialize (SerializeWith r pages ++ rest)
         = Ok (d, Z.of_nat (length (SerializeWith r pages))) ∧
       toRecord d = Some (stored r).
Proof.
  intros Hok Hperm.
  pose proof Hok as (_ & _ & _ & _ & _ & _ & _ & Hun & Hbl & Hal & Htx & Hdp & Hsz).
  assert (Hplen : length pages = size (DirtyPages r)).
  { by rewrite Hperm, length_map_to_list. }
  pose proof (length_serializeCheckpoint r pages Hplen) as Hcl.
  pose proof (deserializeCheckpoint_spec r pages Hok Hperm) as Hcp.
  unfold SerializeWith.
  set (cp := if decide (Type_ r = LogRecordCheckpoint)
             then let checkpointData := serializeCheckpoint r pages in
                  leBytes 4 (Z.of_nat (length checkpointData)) ++ checkpointData
             else []).
  set (clr := if decide (Type_ r = LogRecordCLR) then leBytes 8 (UndoNextLSN r) else []).
  set (B := BeforeImage r) in *. set (A := AfterImage r) in *.
  set (buf := (header r ++ B ++ A ++ cp ++ clr) ++ rest).
  assert (Hbuf : buf = header r ++ (B ++ A ++ cp ++ clr ++ rest)).
  { unfold buf. by rewrite <- !app_assoc. }
  pose proof (header_fields r (B ++ A ++ cp ++ clr ++ rest) Hok) as Hh.
  cbn zeta in Hh. rewrite <- Hbuf in Hh.
  destruct Hh as (F1 & F2 & F3 & F4 & F5 & F6 & F7 & F8 & F9 & F10).
  fold B in F9. fold A in F10.
  assert (Hlen : Z.of_nat (length buf)
                 = 51 + Z.of_nat (length B) + Z.of_nat (length A) + Z.of_nat (length cp)
                   + Z.of_nat (length clr) + Z.of_nat (length rest)).
  { rewrite Hbuf, !length_app, length_header. lia. }
  assert (HB : readAt buf 51 (length B) = B).
  { rewrite Hbuf. apply readAt_mid; [by rewrite length_header|done]. }
  assert (HA : readAt buf (51 + Z.of_nat (length B)) (length A) = A).
  { replace buf with ((header r ++ B) ++ A ++ (cp ++ clr ++ rest))
      by (rewrite Hbuf; by rewrite <- !app_assoc).
    apply readAt_mid; [rewrite length_app, length_header; lia|done]. }
  unfold Deserialize, logRecordHeaderSize. rewrite F1, F2, F3, F4, F5, F6, F7, F8, F9, F10.
  rewrite !Nat2Z.id, HB, HA.
  destruct (Z.ltb_spec (Z.of_nat (length buf)) 51); [lia|].
  destruct (Z.ltb_spec (Z.of_nat (length buf)) (51 + Z.of_nat (length B) + Z.of_nat (length A)));
    [lia|].
  cbn zeta.
  assert (Htot : length (header r ++ B ++ A ++ cp ++ clr)
                 = (51 + length B + length A + length cp + length clr)%nat).
  { rewrite !length_app, length_header. lia. }
  rewrite Htot.
  destruct (decide (Type_ r = LogRecordCheckpoint)) as [Hty|Hty].
  - (* checkpoint *)
    assert (Hclr : clr = []) by (unfold clr; rewrite decide_False; [done|congruence]).
    rewrite Hty. change (typeByte LogRecordCheckpoint =? typeByte LogRecordCheckpoint) with true.
    cbn match.
    set (data := serializeCheckpoint r pages) in *.
    assert (Hcpd : cp = leBytes 4 (Z.of_nat (length data)) ++ data)
      by (unfold cp; by repeat case_decide).
    assert (Hcplen : Z.of_nat (length cp) = 4 + Z.of_nat (length data)).
    { rewrite Hcpd, length_app, length_leBytes. lia. }
    destruct (Z.ltb_spec (Z.of_nat (length buf))
                (51 + Z.of_nat (length B) + Z.of_nat (length A) + 4)); [lia|].
    assert (HU : Uint32 buf (51 + Z.of_nat (length B) + Z.of_nat (length A))
                 = Z.of_nat (length data)).
    { replace buf with ((header r ++ B ++ A) ++ leBytes 4 (Z.of_nat (length data))
                          ++ (data ++ clr ++ rest))
        by (rewrite Hbuf, Hcpd; by rewrite <- !app_assoc).
      unfold Uint32. apply leValue_mid; [rewrite !length_app, length_header; lia|lia]. }
    rewrite HU, Nat2Z.id.
    destruct (Z.ltb_spec (Z.of_nat (length buf))
                (51 + Z.of_nat (length B) + Z.of_nat (length A) + 4 + Z.of_nat (length data)));
      [lia|].
    assert (HD : readAt buf (51 + Z.of_nat (length B) + Z.of_nat (length A) + 4) (length data)
                 = data).
    { replace buf with ((header r ++ B ++ A ++ leBytes 4 (Z.of_nat (length data)))
                          ++ data ++ (clr ++ rest))
        by (rewrite Hbuf, Hcpd; by rewrite <- !app_assoc).
      apply readAt_mid; [rewrite !length_app, length_header, length_leBytes; lia|done]. }
    rewrite HD, Hcp. eexists. split.
    + do 2 f_equal. rewrite Hclr. cbn [length]. lia.
    + unfold toRecord, stored. cbn [dType dLSN dPrevLSN dTxnID dTableID dRowID dPageID
        dSlotNum dBeforeImage dAfterImage dActiveTxns dDirtyPages dUndoNextLSN].
      change (typeOfByte (typeByte LogRecordCheckpoint)) with (Some LogRecordCheckpoint).
      rewrite Hty. repeat case_decide; done.
  - assert (Hcpn : cp = []) by (unfold cp; by repeat case_decide).
    assert (Hne : (typeByte (Type_ r) =? typeByte LogRecordCheckpoint) = false).
    { by destruct (Type_ r). }
    rewrite Hne. destruct (decide (Type_ r = LogRecordCLR)) as [Hty'|Hty'].
    + rewrite Hty'. change (typeByte LogRecordCLR =? typeByte LogRecordCLR) with true.
      cbn match.
      assert (Hclr : clr = leBytes 8 (UndoNextLSN r)) by (unfold clr; by repeat case_decide).
      assert (Hclrlen : length clr = 8%nat) by (by rewrite Hclr, length_leBytes).
      destruct (Z.ltb_spec (Z.of_nat (length buf))
                  (51 + Z.of_nat (length B) + Z.of_nat (length A) + 8)); [lia|].
      assert (HU : Uint64 buf (51 + Z.of_nat (length B) + Z.of_nat (length A))
                   = UndoNextLSN r).
      { replace buf with ((header r ++ B ++ A) ++ leBytes 8 (UndoNextLSN r) ++ rest)
          by (rewrite Hbuf, Hcpn, Hclr; by rewrite <- !app_assoc).
        unfold Uint64. apply leValue_mid; [rewrite !length_app, length_header; lia|lia]. }
      rewrite HU. eexists. split.
      * do 2 f_equal. rewrite Hcpn, Hclrlen. cbn [length]. lia.
      * unfold toRecord, stored. cbn [dType dLSN dPrevLSN dTxnID dTableID dRowID dPageID
          dSlotNum dBeforeImage dAfterImage dActiveTxns dDirtyPages dUndoNextLSN].
        change (typeOfByte (typeByte LogRecordCLR)) with (Some LogRecordCLR).
        rewrite Hty'. repeat case_decide; done.
    + assert (Hne' : (typeByte (Type_ r) =? typeByte LogRecordCLR) = false).
      { by destruct (Type_ r). }
      rewrite Hne'.
      assert (Hclr : clr = []) by (unfold clr; by repeat case_decide).
      eexists. split.
      * do 2 f_equal. rewrite Hcpn, Hclr. cbn [length]. lia.
      * unfold toRecord, stored. cbn [dType dLSN dPrevLSN dTxnID dTableID dRowID dPageID
          dSlotNum dBeforeImage dAfterImage dActiveTxns dDirtyPages dUndoNextLSN].
        rewrite typeOfByte_typeByte. repeat case_decide; done.
Qed.

Lemma serializes_length (r : LogRecord) (data : list Z) :
  record_ok r → serializes r data → Z.of_nat (length data) = serializedLen r.
Proof.
  intros Hok (pages & Hperm & ->). apply length_SerializeWith.
  - by rewrite Hperm, length_map_to_list.
  - apply Hok.
Qed.

Lemma readRecords_frames (rs : list LogRecord) (encs : list (list Z)) (tail : list Z) :
  Forall2 (fun r data => record_ok r ∧ serializedLen r < 2 ^ 32 ∧ serializes r data) rs encs →
  torn tail →
  ∀ fuel, (length rs < fuel)%nat →
  ∃ ds, readRecords fuel (flat_map frame encs ++ tail) = Some ds ∧
        toRecord <$> ds = Some <$> (stored <$> rs).
Proof.
  intros Hall Htorn. induction Hall as [|r data rs encs (Hok & Hsz & Hser) Hall IH];
    intros fuel Hfuel.
  - destruct fuel as [|fuel]; [cbn [length] in Hfuel; lia|].
    exists []. split; [|done]. cbn [flat_map app readRecords].
    destruct (Z.ltb_spec (Z.of_nat (length tail)) 4); [done|].
    destruct Htorn as [?|Ht]; [lia|].
    destruct (Z.ltb_spec (Z.of_nat (length tail)) (4 + Uint32 tail 0)); [done|lia].
  - destruct fuel as [|fuel]; [cbn [length] in Hfuel; lia|].
    destruct (IH fuel) as (ds & Hds & Hrec); [cbn [length] in Hfuel; lia|].
    pose proof (serializes_length r data Hok Hser) as Hlen.
    assert (Hpos : 51 <= serializedLen r).
    { unfold serializedLen, logRecordHeaderSize. repeat case_decide; lia. }
    destruct Hser as (pages & Hperm & Hdata).
    destruct (Deserialize_SerializeWith r pages [] Hok Hperm) as (d & Hd & Hto).
    rewrite app_nil_r, <- Hdata in Hd.
    exists (d :: ds). split; [|cbn [fmap list_fmap]; by rewrite Hto, <- Hrec].
    set (rest := flat_map frame encs ++ tail) in *.
    assert (Hbuf : flat_map frame (data :: encs) ++ tail
                   = leBytes 4 (Z.of_nat (length data)) ++ data ++ rest).
    { cbn [flat_map]. unfold frame at 1, rest. by rewrite <- !app_assoc. }
    rewrite Hbuf. set (buf := leBytes 4 (Z.of_nat (length data)) ++ data ++ rest).
    clear Hbuf. assert (Hbuf : buf = leBytes 4 (Z.of_nat (length data)) ++ data ++ rest) by done.
    clearbody buf. cbn [readRecords].
    assert (Hbl : Z.of_nat (length buf) = 4 + Z.of_nat (length data) + Z.of_nat (length rest)).
    { rewrite Hbuf, !length_app, length_leBytes. lia. }
    assert (HU : Uint32 buf 0 = Z.of_nat (length data)).
    { rewrite Hbuf. unfold Uint32.
      change (leBytes 4 ?v ++ ?x) with ([] ++ leBytes 4 v ++ x).
      apply leValue_mid; [done|lia]. }
    rewrite HU, Nat2Z.id.
    destruct (Z.ltb_spec (Z.of_nat (length buf)) 4); [lia|].
    destruct (Z.ltb_spec (Z.of_nat (length buf)) (4 + Z.of_nat (length data))); [lia|].
    assert (HR : readAt buf 4 (length data) = data).
    { rewrite Hbuf. apply readAt_mid; [by rewrite length_leBytes|done]. }
    rewrite HR, Hd.
    assert (HD : drop (Z.to_nat (4 + Z.of_nat (length data))) buf = rest).
    { rewrite Hbuf, app_assoc. apply drop_app_length'.
      rewrite length_app, length_leBytes. lia. }
    by rewrite HD, Hds.
Qed.

End wal_codec_facts.

(** X23.  The log record codec round trip.  For a record whose fields are in
    the ranges of their Go types, Deserialize applied to its serialisation
    (the dirty pages written in any order), followed by any bytes, returns
    the record as it was stored and the number of bytes of the
    serialisation, which is the size the writer counts for the record.  The
    stored record keeps the transaction and page tables only for a
    checkpoint and the undo-next LSN only for a CLR. *)
Theorem X23_log_record_round_trip
    (r : wal.LogRecord) (data rest : list Z) :
  wal_codec.record_ok r → wal_codec.serializes r data →
  ∃ d, wal_codec.Deserialize (data ++ rest) = storage.Ok (d, Z.of_nat (length data)) ∧
       wal_codec.toRecord d = Some (wal_codec.stored r) ∧
       Z.of_nat (length data) = wal.serializedLen r.
Proof.
  intros Hok Hser. pose proof (serializes_length r data Hok Hser) as Hlen.
  destruct Hser as (pages & Hperm & ->).
  destruct (Deserialize_SerializeWith r pages rest Hok Hperm) as (d & Hd & Hto).
  exists d. done.
Qed.

(** X24.  Recovery reads back what was written.  On the bytes of a log,
    each record written as a four-byte length and its serialisation, and
    ending in a torn tail (fewer than four bytes, or a length prefix with
    fewer bytes after it than it announces), readAllRecords returns exactly
    the records written, in order, and drops the tail. *)
Theorem X24_read_back_log
    (rs : list wal.LogRecord) (encs : list (list Z)) (tail : list Z) :
  Forall2 (fun r data => wal_codec.record_ok r ∧ wal.serializedLen r < 2 ^ 32 ∧
                         wal_codec.serializes r data) rs encs →
  wal_codec.torn tail →
  ∃ ds, wal_codec.readAllRecords (flat_map wal_codec.frame encs ++ tail) = Some ds ∧
        wal_codec.toRecord <$> ds = Some <$> (wal_codec.stored <$> rs).
Proof.
  intros Hall Htorn. apply readRecords_frames; [done..|].
  rewrite length_app.
  assert (length rs <= length (flat_map wal_codec.frame encs))%nat; [|lia].
  clear Htorn. induction Hall as [|r data rs encs _ Hall IH]; cbn [flat_map length]; [lia|].
  unfold wal_codec.frame at 1. rewrite !length_app, length_leBytes. lia.
Qed.


Lemma X23_log_record_round_trip_witness :
  wal_codec.record_ok x_checkpoint ∧
  wal_codec.serializes x_checkpoint (wal_codec.Serialize x_checkpoint) ∧
  ∃ d, wal_codec.Deserialize (wal_codec.Serialize x_checkpoint ++ [1; 2; 3])
         = storage.Ok (d, Z.of_nat (length (wal_codec.Serialize x_checkpoint))) ∧
       wal_codec.toRecord d = Some (wal_codec.stored x_checkpoint).
Proof.
  assert (Hok : wal_codec.record_ok x_checkpoint).
  { apply (bool_decide_unpack _). vm_compute. exact I. }
  assert (Hser : wal_codec.serializes x_checkpoint (wal_codec.Serialize x_checkpoint)).
  { exists (map_to_list (wal.DirtyPages x_checkpoint)). split; reflexivity. }
  destruct (X23_log_record_round_trip x_checkpoint _ [1; 2; 3] Hok Hser) as (d & Hd & Hto & _).
  split; [exact Hok|]. split; [exact Hser|]. exists d. split; [exact Hd|exact Hto].
Defined.

Lemma X24_read_back_log_witness :
  let rs := [x_rec 1 5 types.LogRecordBegin 0; x_checkpoint; x_rec 4 5 types.LogRecordCLR 3] in
  Forall2 (fun r data => wal_codec.record_ok r ∧ wal.serializedLen r < 2 ^ 32 ∧
                         wal_codec.serializes r data) rs (wal_codec.Serialize <$> rs) ∧
  wal_codec.torn [60; 0; 0; 0; 9; 9] ∧
  ∃ ds, wal_codec.readAllRecords
          (flat_map wal_codec.frame (wal_codec.Serialize <$> rs) ++ [60; 0; 0; 0; 9; 9])
        = Some ds ∧
        wal_codec.toRecord <$> ds = Some <$> (wal_codec.stored <$> rs).
Proof.
  cbn zeta.
  set (rs := [x_rec 1 5 types.LogRecordBegin 0; x_checkpoint; x_rec 4 5 types.LogRecordCLR 3]).
  assert (Hall : Forall2 (fun r data => wal_codec.record_ok r ∧ wal.serializedLen r < 2 ^ 32 ∧
                         wal_codec.serializes r data) rs (wal_codec.Serialize <$> rs)).
  { assert (Hone : ∀ r, bool_decide (wal_codec.record_ok r ∧ wal.serializedLen r < 2 ^ 32) = true →
              wal_codec.record_ok r ∧ wal.serializedLen r < 2 ^ 32 ∧
              wal_codec.serializes r (wal_codec.Serialize r)).
    { intros r Hr. apply bool_decide_eq_true in Hr as [Hr1 Hr2].
      split; [exact Hr1|]. split; [exact Hr2|].
      exists (map_to_list (wal.DirtyPages r)). split; reflexivity. }
    unfold rs. cbn [fmap list_fmap].
    constructor; [apply Hone; vm_compute; reflexivity|].
    constructor; [apply Hone; vm_compute; reflexivity|].
    constructor; [apply Hone; vm_compute; reflexivity|].
    constructor. }
  assert (Htorn : wal_codec.torn [60; 0; 0; 0; 9; 9]).
  { apply (bool_decide_unpack _). vm_compute. exact I. }
  destruct (X24_read_back_log rs _ _ Hall Htorn) as (ds & Hds & Hto).
  split; [exact Hall|]. split; [exact Htorn|]. exists ds. split; [exact Hds|exact Hto].
Defined.
